(** * esp-protocols: the Autobahn testee's reassembly accumulator, its echo
      retry loop, its main flow, and the idempotent transport close

    Source files embedded here:
    - [components/esp_websocket_client/examples/autobahn-testsuite/testee/main/autobahn_testee.c]
      (modules [Testee], [TesteeApp] and [TesteeMain]): [ws_accumulator_reset],
      [ws_accumulator_cleanup], [ws_accumulator_prepare],
      [websocket_event_handler], [run_test_case], [update_reports],
      [websocket_app_start], [get_string] and the URI loop of [app_main];
    - [components/esp_websocket_client/examples/target/main/websocket_example.c]
      (modules [Transport] and [Example]): the caller of
      [esp_transport_close] and the description of its per-layer [_closed]
      flag, [get_string] and [simulate_customer_crash_scenario]. *)

From Stdlib Require Import ZArith Lia List ZifyBool.
From Stdlib.Strings Require Import Byte.
From stdpp Require Import base option list gmap.

Local Open Scope Z_scope.

(** ** The testee: [autobahn_testee.c] *)
Module Testee.

(** *** C data *)

(** [#define MAX_FRAGMENTED_PAYLOAD 65537] *)
Definition MAX_FRAGMENTED_PAYLOAD : Z := 65537.

(** [size_t] is 32 bits wide on the ESP32 targets; every conversion of an
    [int] to [size_t] and every [size_t] sum is written with [to_size_t]. *)
Definition size_t_bits : Z := 32.
Definition to_size_t (z : Z) : Z := z mod 2 ^ size_t_bits.
Definition INT_MAX : Z := 2147483647.

(** The [esp_err_t] values that [ws_accumulator_prepare] returns. *)
Inductive esp_err_t := ESP_OK | ESP_ERR_NO_MEM | ESP_ERR_INVALID_SIZE.

#[global] Instance esp_err_t_eq_dec : EqDecision esp_err_t.
Proof. solve_decision. Defined.

(** [ws_transport_opcodes_t]: the three data opcodes the handler echoes,
    and ping and pong. *)
Definition WS_TRANSPORT_OPCODES_CONT : Z := 0.
Definition WS_TRANSPORT_OPCODES_TEXT : Z := 1.
Definition WS_TRANSPORT_OPCODES_BINARY : Z := 2.
Definition WS_TRANSPORT_OPCODES_PING : Z := 9.
Definition WS_TRANSPORT_OPCODES_PONG : Z := 10.

(** [esp_websocket_event_id_t]. *)
Inductive esp_websocket_event_id_t :=
  | WEBSOCKET_EVENT_ANY
  | WEBSOCKET_EVENT_ERROR
  | WEBSOCKET_EVENT_CONNECTED
  | WEBSOCKET_EVENT_DISCONNECTED
  | WEBSOCKET_EVENT_DATA
  | WEBSOCKET_EVENT_CLOSED
  | WEBSOCKET_EVENT_BEFORE_CONNECT
  | WEBSOCKET_EVENT_BEGIN
  | WEBSOCKET_EVENT_FINISH.

(** A pointer into the heap of this translation unit: [NULL] or the
    block a [malloc] returned. *)
Inductive pointer := NULL | Block (b : nat).

#[global] Instance pointer_eq_dec : EqDecision pointer.
Proof. solve_decision. Defined.

Definition is_null (p : pointer) : bool :=
  match p with NULL => true | Block _ => false end.

(** [ws_accumulator_t]. The [buffer] field is a pointer: it aliases
    [s_accum_buffer]. *)
Record ws_accumulator_t := mk_accumulator {
  buffer : pointer;
  capacity : Z;
  expected_len : Z;
  received : Z;
  opcode : Z;
  active : bool
}.

(** The file's static variables, with the heap blocks they point to.
    [s_accumulator = {0}], [s_accum_buffer = NULL], [test_running = false]. *)
Record globals := mk_globals {
  s_accumulator : ws_accumulator_t;
  s_accum_buffer : pointer;
  test_running : bool;
  heap : gmap nat (list byte);
  next_block : nat
}.

Definition initial_globals : globals :=
  {| s_accumulator := mk_accumulator NULL 0 0 0 0 false;
     s_accum_buffer := NULL;
     test_running := false;
     heap := ∅;
     next_block := 0%nat |}.

Definition set_accumulator (a : ws_accumulator_t) (g : globals) : globals :=
  {| s_accumulator := a;
     s_accum_buffer := s_accum_buffer g;
     test_running := test_running g;
     heap := heap g;
     next_block := next_block g |}.

Definition set_accum_buffer (p : pointer) (g : globals) : globals :=
  {| s_accumulator := s_accumulator g;
     s_accum_buffer := p;
     test_running := test_running g;
     heap := heap g;
     next_block := next_block g |}.

Definition set_test_running (b : bool) (g : globals) : globals :=
  {| s_accumulator := s_accumulator g;
     s_accum_buffer := s_accum_buffer g;
     test_running := b;
     heap := heap g;
     next_block := next_block g |}.

Definition set_heap (h : gmap nat (list byte)) (g : globals) : globals :=
  {| s_accumulator := s_accumulator g;
     s_accum_buffer := s_accum_buffer g;
     test_running := test_running g;
     heap := h;
     next_block := next_block g |}.

(** [esp_websocket_event_data_t], the fields the handler reads.
    [data_len], [payload_len] and [payload_offset] are [int];
    [op_code] is [uint8_t]; [data_ptr] is [None] for a null pointer. *)
Record esp_websocket_event_data_t := mk_event {
  data_ptr : option (list byte);
  data_len : Z;
  fin : bool;
  op_code : Z;
  payload_len : Z;
  payload_offset : Z
}.

(** What the environment answers during one call of the handler:
    [esp_websocket_client_is_connected] at the top of the DATA case and
    before the echo, [malloc] (success, and the bytes the fresh block
    happens to hold), and, for each turn of the echo loop, the answer of
    [esp_websocket_client_is_connected] in the loop condition followed by
    the return value of [esp_websocket_client_send_with_opcode]. *)
Record oracle := mk_oracle {
  connected_on_entry : bool;
  malloc_ok : bool;
  garbage : nat → byte;
  connected_before_echo : bool;
  send_script : list (bool * Z)
}.

(** *** Heap operations *)

(** [malloc(size)]: a fresh block with unspecified contents, or [NULL]. *)
Definition malloc (o : oracle) (size : Z) (g : globals) : pointer * globals :=
  if malloc_ok o then
    (Block (next_block g),
     {| s_accumulator := s_accumulator g;
        s_accum_buffer := s_accum_buffer g;
        test_running := test_running g;
        heap := <[next_block g := garbage o <$> seq 0 (Z.to_nat size)]> (heap g);
        next_block := S (next_block g) |})
  else (NULL, g).

(** [free(p)]. *)
Definition free (p : pointer) (g : globals) : globals :=
  match p with
  | NULL => g
  | Block b => set_heap (delete b (heap g)) g
  end.

(** [memcpy(dst + off, src, n)]. [None] is undefined behaviour: [dst] is
    not a live block, the [n] bytes do not fit in it at [off], or [src]
    holds fewer than [n] bytes. Copying nothing from a null [src]
    changes nothing. *)
Definition memcpy (h : gmap nat (list byte)) (dst : pointer) (off : Z)
    (src : option (list byte)) (n : Z) : option (gmap nat (list byte)) :=
  match dst with
  | NULL => None
  | Block b =>
    match h !! b with
    | None => None
    | Some blk =>
      if off + n >? Z.of_nat (length blk) then None
      else
        match src with
        | None => if n =? 0 then Some h else None
        | Some l =>
          if n >? Z.of_nat (length l) then None
          else Some (<[b := list_inserts (Z.to_nat off) (take (Z.to_nat n) l) blk]> h)
        end
    end
  end.

(** Reading [n] bytes at [p], as a send does with its payload. *)
Definition load (h : gmap nat (list byte)) (p : pointer) (n : Z) : option (list byte) :=
  match p with
  | NULL => None
  | Block b =>
    match h !! b with
    | None => None
    | Some blk =>
      if n >? Z.of_nat (length blk) then None else Some (take (Z.to_nat n) blk)
    end
  end.

(** *** The accumulator *)

(** [ws_accumulator_reset]: the buffer pointer and the capacity stay. *)
Definition ws_accumulator_reset (g : globals) : globals :=
  set_accumulator
    {| buffer := buffer (s_accumulator g);
       capacity := capacity (s_accumulator g);
       expected_len := 0;
       received := 0;
       opcode := 0;
       active := false |} g.

(** [ws_accumulator_cleanup]. *)
Definition ws_accumulator_cleanup (g : globals) : globals :=
  let g1 := ws_accumulator_reset g in
  match s_accum_buffer g1 with
  | NULL => g1
  | Block b => set_accum_buffer NULL (free (Block b) g1)
  end.

(** [ws_accumulator_prepare(total_len, opcode)]; [total_len] is a
    [size_t]. *)
Definition ws_accumulator_prepare (o : oracle) (g : globals)
    (total_len : Z) (opc : Z) : esp_err_t * globals :=
  if total_len =? 0 then (ESP_OK, g)
  else if total_len >? MAX_FRAGMENTED_PAYLOAD then (ESP_ERR_INVALID_SIZE, g)
  else
    let finish (g2 : globals) :=
      (ESP_OK,
       set_accumulator
         {| buffer := s_accum_buffer g2;
            capacity := MAX_FRAGMENTED_PAYLOAD;
            expected_len := total_len;
            received := 0;
            opcode := opc;
            active := true |} g2) in
    if is_null (s_accum_buffer g) then
      let '(p, g1) := malloc o MAX_FRAGMENTED_PAYLOAD g in
      let g2 := set_accum_buffer p g1 in
      if is_null p then (ESP_ERR_NO_MEM, g2) else finish g2
    else finish g.

(** *** The event handler *)

(** The opcode to echo; [None] is the "Unsupported opcode" [break]. *)
Definition echo_opcode (op : Z) : option Z :=
  if op =? 1 then Some WS_TRANSPORT_OPCODES_TEXT
  else if op =? 2 then Some WS_TRANSPORT_OPCODES_BINARY
  else if op =? 0 then Some WS_TRANSPORT_OPCODES_CONT
  else None.

(** [total_len = data->payload_len ? data->payload_len : data->data_len] *)
Definition total_len_of (d : esp_websocket_event_data_t) : Z :=
  if payload_len d =? 0 then to_size_t (data_len d) else to_size_t (payload_len d).

(** [fragmented = (payload_len > 0 && payload_len > data_len) || payload_offset > 0],
    comparisons of [int]. *)
Definition fragmented (d : esp_websocket_event_data_t) : bool :=
  ((payload_len d >? 0) && (payload_len d >? data_len d)) || (payload_offset d >? 0).

(** Where the payload handed to the echo section lives: in the event
    ([payload = data->data_ptr]) or in the accumulator
    ([payload = s_accumulator.buffer]). *)
Inductive payload_ref :=
  | In_event (p : option (list byte))
  | In_accumulator (p : pointer).

(** The locals [send_opcode], [payload] and [len] on entry to the echo
    section. *)
Record message := mk_message {
  m_opcode : Z;
  m_payload : payload_ref;
  m_len : Z
}.

(** The bytes a send of [m] reads: [(len > 0) ? payload : NULL], [len]
    bytes. [None] is a read outside the object. *)
Definition payload_bytes (h : gmap nat (list byte)) (m : message) : option (list byte) :=
  if m_len m >? 0 then
    match m_payload m with
    | In_event None => None
    | In_event (Some l) =>
      if m_len m >? Z.of_nat (length l) then None else Some (take (Z.to_nat (m_len m)) l)
    | In_accumulator p => load h p (m_len m)
    end
  else Some [].

(** The [memcpy] a call performed: destination, offset and length. *)
Record copy_log := mk_copy {
  cp_dst : pointer;
  cp_off : Z;
  cp_len : Z
}.

(** A run of the echo retry loop against the environment's script.
    [exited = false]: the script ended while the loop was still
    retrying. [sent] is the variable [sent] at that point, [delays] the
    arguments of [vTaskDelay], in order. *)
Record loop_run := mk_run {
  exited : bool;
  sent : Z;
  send_calls : nat;
  delays : list Z
}.

(** What one call of the handler did. *)
Record handler_result := mk_result {
  globals_after : globals;
  copied : option copy_log;
  handed_off : option message;
  echo : option loop_run
}.

Definition quiet (g : globals) : handler_result :=
  {| globals_after := g; copied := None; handed_off := None; echo := None |}.

(** Either the handler goes on with [x], or it leaves the [switch] by
    [break] in state [g]. *)
Inductive stage (A : Type) :=
  | Continue (x : A)
  | Break (g : globals).
Arguments Continue {A} x.
Arguments Break {A} g.

(** "Additional safety": allocate [s_accum_buffer] if it is null. *)
Definition ensure_buffer (o : oracle) (g : globals) : stage globals :=
  if is_null (s_accum_buffer g) then
    let '(p, g1) := malloc o MAX_FRAGMENTED_PAYLOAD g in
    let g2 := set_accum_buffer p g1 in
    if is_null p then Break g2 else Continue g2
  else Continue g.

(** Start, restart or keep the accumulation for this chunk. *)
Definition prepare_for_chunk (o : oracle) (g : globals)
    (d : esp_websocket_event_data_t) (send_opcode total_len : Z) : stage globals :=
  if (payload_offset d =? 0) || negb (active (s_accumulator g)) then
    let '(err, g1) := ws_accumulator_prepare o g total_len send_opcode in
    if decide (err = ESP_OK) then Continue g1 else Break g1
  else if negb (total_len =? expected_len (s_accumulator g)) then
    let g1 := ws_accumulator_reset g in
    let '(err, g2) := ws_accumulator_prepare o g1 total_len send_opcode in
    if decide (err = ESP_OK) then Continue g2 else Break g2
  else Continue g.

(** The checks before [memcpy], the copy, and the completion test.
    A result without [handed_off] is a [break]. *)
Definition copy_chunk (g : globals) (d : esp_websocket_event_data_t)
    : option handler_result :=
  let a := s_accumulator g in
  if negb (active a) || is_null (buffer a) then Some (quiet (ws_accumulator_reset g))
  else
    let offset := to_size_t (payload_offset d) in
    if negb (bool_decide (is_Some (data_ptr d))) && (data_len d >? 0) then
      Some (quiet (ws_accumulator_reset g))
    else
      let chunk_end := to_size_t (offset + to_size_t (data_len d)) in
      if chunk_end >? capacity a then Some (quiet (ws_accumulator_reset g))
      else if chunk_end >? expected_len a then Some (quiet (ws_accumulator_reset g))
      else if is_null (buffer a) then Some (quiet (ws_accumulator_reset g))
      else
        match memcpy (heap g) (buffer a) offset (data_ptr d) (to_size_t (data_len d)) with
        | None => None
        | Some h =>
          let log := {| cp_dst := buffer a; cp_off := offset; cp_len := to_size_t (data_len d) |} in
          let a1 := mk_accumulator (buffer a) (capacity a) (expected_len a)
                      chunk_end (opcode a) (active a) in
          let g1 := set_accumulator a1 (set_heap h g) in
          if received a1 <? expected_len a1 then
            Some {| globals_after := g1; copied := Some log;
                    handed_off := None; echo := None |}
          else
            let a2 := mk_accumulator (buffer a1) (capacity a1) (expected_len a1)
                        (received a1) (opcode a1) false in
            Some {| globals_after := set_accumulator a2 g1; copied := Some log;
                    handed_off := Some {| m_opcode := opcode a1;
                                          m_payload := In_accumulator (buffer a1);
                                          m_len := expected_len a1 |};
                    echo := None |}
        end.

(** The body of [if (fragmented && total_len > 0)]. *)
Definition accumulate (o : oracle) (g : globals) (d : esp_websocket_event_data_t)
    (send_opcode total_len : Z) : option handler_result :=
  match ensure_buffer o g with
  | Break g1 => Some (quiet g1)
  | Continue g1 =>
    match prepare_for_chunk o g1 d send_opcode total_len with
    | Break g2 => Some (quiet g2)
    | Continue g2 => copy_chunk g2 d
    end
  end.

(** [const TickType_t backoff[] = {1, 1, 1, 2, 4, 8}] *)
Definition backoff : list Z := [1; 1; 1; 2; 4; 8].

(** [while (sent < 0 && esp_websocket_client_is_connected(client))]:
    each turn takes from the script the answer of the connection test
    and the value the send returns. *)
Fixpoint echo_loop (script : list (bool * Z)) (sent0 : Z) (attempt : nat) : loop_run :=
  match script with
  | [] => {| exited := false; sent := sent0; send_calls := 0; delays := [] |}
  | (conn, r) :: rest =>
    if negb ((sent0 <? 0) && conn) then
      {| exited := true; sent := sent0; send_calls := 0; delays := [] |}
    else if r >=? 0 then
      {| exited := true; sent := r; send_calls := 1; delays := [] |}
    else
      let '(delay, attempt1) :=
        if (attempt <? length backoff)%nat
        then (nth attempt backoff 0, S attempt)
        else (32, attempt) in
      let run := echo_loop rest r attempt1 in
      {| exited := exited run; sent := sent run;
         send_calls := S (send_calls run); delays := delay :: delays run |}
  end.

(** From "Check connection before attempting to send" to the end of the
    DATA case. A send whose payload cannot be read is undefined. *)
Definition echo_section (o : oracle) (g : globals) (m : message)
    (c : option copy_log) : option handler_result :=
  if negb (connected_before_echo o) then
    Some {| globals_after := ws_accumulator_reset g; copied := c;
            handed_off := Some m; echo := None |}
  else
    let run := echo_loop (send_script o) (-1) 0 in
    match send_calls run, payload_bytes (heap g) m with
    | S _, None => None
    | _, _ => Some {| globals_after := g; copied := c;
                      handed_off := Some m; echo := Some run |}
    end.

(** [case WEBSOCKET_EVENT_DATA]. *)
Definition handle_data (o : oracle) (g : globals) (d : esp_websocket_event_data_t)
    : option handler_result :=
  if negb (test_running g) || negb (connected_on_entry o) then
    Some (quiet (ws_accumulator_reset g))
  else if op_code d >=? 8 then Some (quiet g)
  else
    match echo_opcode (op_code d) with
    | None => Some (quiet g)
    | Some send_opcode =>
      if negb (bool_decide (is_Some (data_ptr d))) && (data_len d >? 0) then Some (quiet g)
      else
        let total_len := total_len_of d in
        if fragmented d && (total_len >? 0) then
          match accumulate o g d send_opcode total_len with
          | None => None
          | Some r =>
            match handed_off r with
            | None => Some r
            | Some m => echo_section o (globals_after r) m (copied r)
            end
          end
        else
          echo_section o g
            {| m_opcode := send_opcode; m_payload := In_event (data_ptr d);
               m_len := to_size_t (data_len d) |} None
    end.

(** [websocket_event_handler]. Logging and the [test_done_sem] signal
    are left out: they touch neither the accumulator nor the echo.
    [None] is undefined behaviour ([memcpy] or a send outside a live
    object). A result whose [echo] run has [exited = false] is a call
    that is still in the retry loop when the script of the environment
    ends. *)
Definition websocket_event_handler (o : oracle) (g : globals)
    (event_id : esp_websocket_event_id_t) (d : esp_websocket_event_data_t)
    : option handler_result :=
  match event_id with
  | WEBSOCKET_EVENT_CONNECTED => Some (quiet (set_test_running true g))
  | WEBSOCKET_EVENT_DISCONNECTED
  | WEBSOCKET_EVENT_ERROR
  | WEBSOCKET_EVENT_FINISH =>
    Some (quiet (ws_accumulator_reset (set_test_running false g)))
  | WEBSOCKET_EVENT_DATA => handle_data o g d
  | _ => Some (quiet g)
  end.

(** The early allocation in [app_main] and the one at the top of
    [run_test_case] (the latter only when [s_accum_buffer] is null). *)
Definition preallocate (o : oracle) (g : globals) : globals :=
  if is_null (s_accum_buffer g) then
    let '(p, g1) := malloc o MAX_FRAGMENTED_PAYLOAD g in
    set_accum_buffer p g1
  else g.

(** Modelled from the spec: the client's read cycle
    ([esp_websocket_client.c] is not among the sources). Section 4.4:
    every received frame is delivered to the consumer as a Data event,
    and "a received ping is answered with a pong carrying an identical
    payload, automatically, without consumer involvement". The result
    pairs what the handler did with the frames (opcode, payload) the
    client sent by itself in that read cycle. *)
Definition client_read_cycle (o : oracle) (g : globals)
    (d : esp_websocket_event_data_t)
    : option (handler_result * list (Z * list byte)) :=
  match websocket_event_handler o g WEBSOCKET_EVENT_DATA d with
  | None => None
  | Some r =>
    Some (r,
          if op_code d =? WS_TRANSPORT_OPCODES_PING
          then [(WS_TRANSPORT_OPCODES_PONG, default [] (data_ptr d))]
          else [])
  end.

(** *** Well-formed events, consistent states, reachable states *)

(** An event as the client delivers it: the three [int] fields are not
    negative, [op_code] is a byte, and [data_ptr] points to [data_len]
    bytes (a null [data_ptr] comes with [data_len = 0]). *)
Definition event_ok (d : esp_websocket_event_data_t) : bool :=
  (0 <=? data_len d) && (data_len d <=? INT_MAX)
  && (0 <=? payload_len d) && (payload_len d <=? INT_MAX)
  && (0 <=? payload_offset d) && (payload_offset d <=? INT_MAX)
  && (0 <=? op_code d) && (op_code d <? 256)
  && match data_ptr d with
     | None => data_len d =? 0
     | Some l => Z.of_nat (length l) =? data_len d
     end.

(** [p] is null or a live block of [MAX_FRAGMENTED_PAYLOAD] bytes. *)
Definition block_ok (h : gmap nat (list byte)) (p : pointer) : bool :=
  match p with
  | NULL => true
  | Block b =>
    match h !! b with
    | None => false
    | Some blk => Z.of_nat (length blk) =? MAX_FRAGMENTED_PAYLOAD
    end
  end.

(** The accumulator's invariant: [received <= expected_len <= capacity],
    [s_accum_buffer] is null or the live buffer, and an active
    accumulator points to that buffer, with the full capacity and a
    positive expected length. *)
Definition acc_ok (g : globals) : bool :=
  let a := s_accumulator g in
  (0 <=? received a) && (received a <=? expected_len a)
  && (expected_len a <=? capacity a)
  && block_ok (heap g) (s_accum_buffer g)
  && (if active a
      then bool_decide (buffer a = s_accum_buffer g)
           && negb (is_null (buffer a))
           && (capacity a =? MAX_FRAGMENTED_PAYLOAD)
           && (0 <? expected_len a)
      else true).

(** The states the program can be in between two calls of the handler. *)
Inductive reachable : globals → Prop :=
  | reach_initial : reachable initial_globals
  | reach_handler o g event_id d r :
      reachable g →
      websocket_event_handler o g event_id d = Some r →
      reachable (globals_after r)
  | reach_preallocate o g :
      reachable g → reachable (preallocate o g)
  | reach_cleanup g :
      reachable g → reachable (ws_accumulator_cleanup g).

(** Whether a chunk declaring [total_len] makes the handler call
    [ws_accumulator_prepare]: it has offset 0, or the accumulator is
    inactive, or the declared length differs from the expected one. *)
Definition restarts (g : globals) (d : esp_websocket_event_data_t) (total_len : Z) : bool :=
  (payload_offset d =? 0) || negb (active (s_accumulator g))
  || negb (total_len =? expected_len (s_accumulator g)).

(** The event loop: the handler is called for each event in turn, each
    call with its own answers of the environment. [None] as soon as a
    call is undefined. *)
Fixpoint dispatch (events : list (oracle * esp_websocket_event_id_t * esp_websocket_event_data_t))
    (g : globals) : option globals :=
  match events with
  | [] => Some g
  | (o, event_id, d) :: rest =>
    match websocket_event_handler o g event_id d with
    | None => None
    | Some r => dispatch rest (globals_after r)
    end
  end.

(** The data events of one frame of [total] bytes with opcode [op]
    whose payload arrives as [chunks], in order, the first of them at
    offset [off]. *)
Fixpoint frame_events (op total off : Z) (chunks : list (list byte))
    : list esp_websocket_event_data_t :=
  match chunks with
  | [] => []
  | c :: rest =>
    {| data_ptr := Some c; data_len := Z.of_nat (length c); fin := false;
       op_code := op; payload_len := total; payload_offset := off |}
    :: frame_events op total (off + Z.of_nat (length c)) rest
  end.

(** The accumulation fed with the events [ds] one after the other; the
    result is that of the last one. *)
Fixpoint feed (o : oracle) (g : globals) (sop : Z)
    (ds : list esp_websocket_event_data_t) : option handler_result :=
  match ds with
  | [] => None
  | d :: rest =>
    match accumulate o g d sop (total_len_of d) with
    | None => None
    | Some r =>
      match rest with
      | [] => Some r
      | _ :: _ => feed o (globals_after r) sop rest
      end
    end
  end.

(** The delays after [k] failed sends in a row when the loop starts at
    [attempt]: what is left of [backoff], then 32 each time. *)
Definition retry_schedule_from (attempt k : nat) : list Z :=
  take k (drop attempt backoff ++ replicate k 32).

Definition retry_schedule (k : nat) : list Z := retry_schedule_from 0 k.

(** The ticks a run of the loop spent in [vTaskDelay]. *)
Definition total_delay (run : loop_run) : Z := foldr Z.add 0 (delays run).

(** *** Sample inputs *)

(** The client is connected, [malloc] succeeds and the first send is
    accepted. *)
Definition fair_weather : oracle :=
  {| connected_on_entry := true; malloc_ok := true; garbage := λ _, x00;
     connected_before_echo := true; send_script := [(true, 5)] |}.

(** The same, but the client reports that it is no longer connected. *)
Definition connection_lost : oracle :=
  {| connected_on_entry := false; malloc_ok := true; garbage := λ _, x00;
     connected_before_echo := false; send_script := [] |}.

(** A data event carrying the bytes [l] of a frame of [total] bytes at
    offset [off]. *)
Definition chunk (l : list byte) (op total off : Z) : esp_websocket_event_data_t :=
  {| data_ptr := Some l; data_len := Z.of_nat (length l); fin := false;
     op_code := op; payload_len := total; payload_offset := off |}.

Definition no_data : esp_websocket_event_data_t :=
  {| data_ptr := None; data_len := 0; fin := false;
     op_code := 0; payload_len := 0; payload_offset := 0 |}.

(** Connected, nothing received yet. *)
Definition just_connected : globals :=
  default initial_globals
    (dispatch [(fair_weather, WEBSOCKET_EVENT_CONNECTED, no_data)] initial_globals).

(** Connected, and the first 4 bytes of a binary message of 10 bytes
    have arrived. *)
Definition mid_message : globals :=
  default initial_globals
    (dispatch [(fair_weather, WEBSOCKET_EVENT_CONNECTED, no_data);
               (fair_weather, WEBSOCKET_EVENT_DATA,
                chunk [x41; x42; x43; x44] 2 10 0)] initial_globals).

End Testee.

(** ** The layered transport and its idempotent close *)
Module Transport.

(** Modelled from the spec: [esp_transport_close] and the close
    handlers of the layers live in the transport component, which is not
    among the sources; [websocket_example.c] only calls into it and
    describes it. Section 3: a layer has an identity, an I/O handle it
    owns, a [closed] flag and the layer it wraps; "[close()] is a no-op
    once [closed] is true, and it always sets [closed] before or as part
    of returning, even on error".

    [releases] counts how often the layer's underlying teardown ran
    (the release of its I/O handle); [teardown_ret] is what that
    teardown returns. A stack is the list of its layers, outermost
    first: each layer wraps the next one. *)
Record TransportLayer := mk_layer {
  identity : nat;
  closed : bool;
  releases : nat;
  teardown_ret : Z
}.

(** The layer once its teardown has run and its flag is set. *)
Definition torn_down (t : TransportLayer) : TransportLayer :=
  {| identity := identity t;
     closed := true;
     releases := S (releases t);
     teardown_ret := teardown_ret t |}.

(** Modelled from the spec: [close()] of the outermost layer of [st],
    after section 4.1 and the header of [websocket_example.c]
    ([if (t == NULL) return 0; if (t->_closed) return 0;
    ret = t->_close(t); t->_closed = true; return ret;]): a closed layer
    returns 0 at once; otherwise the layer's own teardown runs, which
    closes the layer beneath it, the flag is set, and the teardown's
    value is returned. *)
Fixpoint close_layer (st : list TransportLayer) : Z * list TransportLayer :=
  match st with
  | [] => (0, [])
  | t :: below =>
    if closed t then (0, st)
    else
      let '(_, below1) := close_layer below in
      (teardown_ret t, torn_down t :: below1)
  end.

(** Modelled from the spec: [close()] of layer [i] of the stack; the
    layers above it are not touched. *)
Definition close (i : nat) (st : list TransportLayer) : Z * list TransportLayer :=
  let '(ret, suffix) := close_layer (drop i st) in
  (ret, take i st ++ suffix).

(** A sequence of close invocations, each naming its layer. *)
Definition close_all (calls : list nat) (st : list TransportLayer) : list TransportLayer :=
  fold_left (λ s i, (close i s).2) calls st.

(** A stack on which nothing was closed yet. *)
Definition fresh_stack (st : list TransportLayer) : bool :=
  forallb (λ t, negb (closed t) && (releases t =? 0)%nat) st.

(** Every layer was torn down once if it is closed and never if not. *)
Definition stack_ok (st : list TransportLayer) : bool :=
  forallb (λ t, (releases t =? (if closed t then 1 else 0))%nat) st.

(** Closed layers form a suffix of the stack: beneath a closed layer
    every layer is closed. *)
Definition closed_suffix (st : list TransportLayer) : Prop :=
  ∀ (k k' : nat) (t u : TransportLayer),
    st !! k = Some t → closed t = true → (k ≤ k')%nat → st !! k' = Some u →
    closed u = true.

(** WebSocket over TLS over TCP; here the TLS teardown reports an
    error. *)
Definition ws_tls_tcp : list TransportLayer :=
  [mk_layer 0 false 0 0; mk_layer 1 false 0 (-1); mk_layer 2 false 0 0].

End Transport.

(** ** The C library calls of the console readers *)
Module Stdio.

(** What [fgetc(stdin)] returns: [EOF], or the character as an
    [unsigned char] converted to [int]. The console input is the list
    of the values that successive calls return. *)
Definition EOF : Z := -1.

(** [line[i] = c] on a [char] array; [None] is a write outside it. *)
Definition store (line : list Z) (i c : Z) : option (list Z) :=
  if (0 <=? i) && (i <? Z.of_nat (length line))
  then Some (<[Z.to_nat i := c]> line)
  else None.

(** [strlen]; [None] when the array holds no terminator (the read runs
    past its end). *)
Fixpoint strlen (s : list Z) : option nat :=
  match s with
  | [] => None
  | c :: rest => if c =? 0 then Some 0%nat else S <$> strlen rest
  end.

(** How a call of a reader ends: it returns, leaving [line], the input
    not yet read and the number of sleeps it took; or the input ends
    while it is still reading; or it writes outside [line]. *)
Inductive outcome :=
  | Returned (line : list Z) (rest : list Z) (sleeps : nat)
  | Blocked (line : list Z) (sleeps : nat)
  | Undefined.

(** The test [c > 0 && c < 127] of both readers. *)
Definition kept (c : Z) : bool := (c >? 0) && (c <? 127).

(** The input up to the first character satisfying [stop]. *)
Fixpoint before (stop : Z → bool) (input : list Z) : list Z :=
  match input with
  | [] => []
  | c :: rest => if stop c then [] else c :: before stop rest
  end.

#[export] Instance byte_eq_dec : EqDecision byte := Byte.byte_eq_dec.

(** The conversion [%d] of [snprintf], for an [int]. *)
Definition digit (d : Z) : byte := default x30 (Byte.of_N (Z.to_N (48 + d))).

Fixpoint decimal_digits (fuel : nat) (n : Z) (acc : list byte) : list byte :=
  match fuel with
  | O => acc
  | S fuel1 =>
    let acc1 := digit (n mod 10) :: acc in
    if n <? 10 then acc1 else decimal_digits fuel1 (n / 10) acc1
  end.

Definition format_d (n : Z) : list byte :=
  if n <? 0 then x2d :: decimal_digits 10 (- n) [] else decimal_digits 10 n [].

(** [snprintf(buf, size, ...)] producing [text]: the length of the
    whole text, and what is in [buf] as a string. *)
Definition snprintf (size : Z) (text : list byte) : Z * list byte :=
  (Z.of_nat (length text), take (Z.to_nat (size - 1)) text).

(** The conversion [%04d]: at least four characters, padded with
    zeros after the sign. *)
Definition format_04d (n : Z) : list byte :=
  let pad (w : nat) (ds : list byte) := replicate (w - length ds) x30 ++ ds in
  if n <? 0 then x2d :: pad 3%nat (decimal_digits 10 (- n) [])
  else pad 4%nat (decimal_digits 10 n []).

End Stdio.

(** ** The testee: the event loop as a whole *)
Module TesteeApp.
Import Testee.

(** The timeout of one send in the echo loop, in milliseconds
    ([send_timeout_ms], the Linux branch; the other branch computes the
    same number inside [pdMS_TO_TICKS]). [len] is a [size_t]. *)
Definition send_timeout_ms (len : Z) : Z :=
  if len >? 1024 then 500
  else
    let t := len / 256 + 10 in
    if t >? 100 then 100 else t.

(** The opcodes of data frames: continuation, text and binary. *)
Definition data_opcode (op : Z) : bool :=
  (op =? WS_TRANSPORT_OPCODES_CONT) || (op =? WS_TRANSPORT_OPCODES_TEXT)
  || (op =? WS_TRANSPORT_OPCODES_BINARY).

(** The heap holds the accumulator buffer and nothing else. *)
Definition one_block (g : globals) : Prop :=
  dom (heap g) = match s_accum_buffer g with
                 | NULL => ∅
                 | Block b => {[ b ]}
                 end.

(** An accumulation in flight carries the opcode of a data frame. *)
Definition opcode_ok (g : globals) : Prop :=
  active (s_accumulator g) = true → data_opcode (opcode (s_accumulator g)) = true.

(** The handler called for the data events [ds] one after the other,
    with the same answers of the environment each time; the results of
    all calls, in order. [None] as soon as a call is undefined. *)
Fixpoint deliver (o : oracle) (ds : list esp_websocket_event_data_t) (g : globals)
    : option (list handler_result) :=
  match ds with
  | [] => Some []
  | d :: rest =>
    match websocket_event_handler o g WEBSOCKET_EVENT_DATA d with
    | None => None
    | Some r =>
      match deliver o rest (globals_after r) with
      | None => None
      | Some rs => Some (r :: rs)
      end
    end
  end.

End TesteeApp.

(** ** The testee's main flow: [autobahn_testee.c] from [run_test_case] on *)
Module TesteeMain.
Import Testee Stdio.

(** *** Reading the server URI *)

(** [get_string(line, size)] of [autobahn_testee.c], reading [input].
    [count] is an [int], [size] a [size_t]: the loop test compares them
    as [size_t]. *)
Fixpoint get_string_from (input line : list Z) (size count : Z) (sleeps : nat)
    : outcome :=
  if to_size_t count <? to_size_t (size - 1) then
    match input with
    | [] => Stdio.Blocked line sleeps
    | c :: rest =>
      if (c =? 10) || (c =? 13) then
        match Stdio.store line count 0 with
        | None => Stdio.Undefined
        | Some line1 =>
          match Stdio.store line1 count 0 with
          | None => Stdio.Undefined
          | Some line2 => Stdio.Returned line2 rest sleeps
          end
        end
      else if (c >? 0) && (c <? 127) then
        match Stdio.store line count c with
        | None => Stdio.Undefined
        | Some line1 =>
          if count =? INT_MAX then Stdio.Undefined
          else get_string_from rest line1 size (count + 1) sleeps
        end
      else if c =? Stdio.EOF then get_string_from rest line size count (S sleeps)
      else get_string_from rest line size count sleeps
    end
  else
    match Stdio.store line count 0 with
    | None => Stdio.Undefined
    | Some line1 => Stdio.Returned line1 input sleeps
    end.

Definition get_string (input line : list Z) (size : Z) : outcome :=
  get_string_from input line size 0 0.

(** The characters that end a line for [get_string]. *)
Definition end_of_line (c : Z) : bool := (c =? 10) || (c =? 13).

(** [sizeof(g_autobahn_server_uri)] *)
Definition URI_SIZE : Z := 256.

(** The loop of [app_main] that reads the server URI:
    [do { get_string(uri, sizeof(uri)); uri[sizeof(uri) - 1] = 0; }
     while (strlen(uri) == 0)]. Each turn that goes round again has read
    at least an end of line, so [fuel] turns are enough for an input of
    [fuel] characters. *)
Fixpoint read_server_uri_loop (fuel : nat) (input uri : list Z) (sleeps : nat)
    : outcome :=
  match fuel with
  | O => Stdio.Blocked uri sleeps
  | S fuel1 =>
    match get_string input uri URI_SIZE with
    | Stdio.Returned uri1 rest n =>
      match Stdio.store uri1 (URI_SIZE - 1) 0 with
      | None => Stdio.Undefined
      | Some uri2 =>
        match Stdio.strlen uri2 with
        | None => Stdio.Undefined
        | Some O => read_server_uri_loop fuel1 rest uri2 (sleeps + n)
        | Some (S _) => Stdio.Returned uri2 rest (sleeps + n)
        end
      end
    | Stdio.Blocked uri1 n => Stdio.Blocked uri1 (sleeps + n)
    | Stdio.Undefined => Stdio.Undefined
    end
  end.

(** [static char g_autobahn_server_uri[256] = {0}] *)
Definition g_autobahn_server_uri : list Z := replicate (Z.to_nat URI_SIZE) 0.

Definition read_server_uri (input : list Z) : outcome :=
  read_server_uri_loop (S (length input)) input g_autobahn_server_uri 0.

(** *** Running the cases *)

(** [esp_err_t] as the number it is. *)
Definition ESP_OK : Z := 0.
Definition ESP_FAIL : Z := -1.
Definition ESP_ERR_INVALID_ARG : Z := 258.

Definition START_CASE : Z := 1.
Definition END_CASE : Z := 16.

(** ["/runCase?case="], ["&agent=esp_websocket_client"] and
    ["/updateReports?agent=esp_websocket_client"]. *)
Definition runCase_path : list byte :=
  [x2f; x72; x75; x6e; x43; x61; x73; x65; x3f; x63; x61; x73; x65; x3d].
Definition agent_query : list byte :=
  [x26; x61; x67; x65; x6e; x74; x3d; x65; x73; x70; x5f; x77; x65; x62; x73; x6f; x63; x6b; x65; x74; x5f; x63; x6c; x69; x65; x6e; x74].
Definition updateReports_path : list byte :=
  [x2f; x75; x70; x64; x61; x74; x65; x52; x65; x70; x6f; x72; x74; x73; x3f; x61; x67; x65; x6e; x74; x3d; x65; x73; x70; x5f; x77; x65; x62; x73; x6f; x63; x6b; x65; x74; x5f; x63; x6c; x69; x65; x6e; x74].

(** The calls into the client, the semaphore and the scheduler, in the
    order the program makes them. [client_init] carries the URI of the
    configuration and whether a handle came back, [client_start] the
    value it returned, [is_connected] the answer. *)
Inductive api_call :=
  | client_init (uri : list byte) (created : bool)
  | register_events
  | sem_create
  | client_start (ret : Z)
  | sem_wait
  | is_connected (answer : bool)
  | client_stop
  | client_destroy
  | sem_delete
  | delay_ms (ms : Z).

(** What the environment does during one test case: the answers
    [malloc] gives to the allocation before the client is created,
    whether [esp_websocket_client_init] returns a handle, what
    [esp_websocket_client_start] returns, the events the client task
    delivers to [websocket_event_handler] while the case runs (each with
    the answers of the environment during that call), and whether the
    client is still connected after the wait. *)
Record case_env := mk_case_env {
  alloc : oracle;
  init_ok : bool;
  start_ret : Z;
  traffic : list (oracle * esp_websocket_event_id_t * esp_websocket_event_data_t);
  connected_at_end : bool
}.

(** A case in which the client cannot be started. *)
Definition connection_refused : case_env :=
  {| alloc := connection_lost; init_ok := true; start_ret := ESP_FAIL;
     traffic := []; connected_at_end := false |}.

(** [run_test_case(case_num)]: the value returned, the calls made and
    the statics afterwards. [None]: a call of the handler was undefined. *)
Definition run_test_case (server_uri : list byte) (e : case_env) (g : globals)
    (case_num : Z) : option (Z * list api_call * globals) :=
  let '(ret, uri) :=
    snprintf 512 (server_uri ++ runCase_path ++ format_d case_num ++ agent_query) in
  if (ret <? 0) || (ret >=? 512) then Some (ESP_ERR_INVALID_ARG, [], g)
  else
    let g1 := preallocate (alloc e) g in
    if negb (init_ok e) then Some (ESP_FAIL, [client_init uri false], g1)
    else if negb (start_ret e =? ESP_OK) then
      Some (start_ret e,
            [client_init uri true; register_events; sem_create;
             client_start (start_ret e); sem_delete; client_destroy],
            g1)
    else
      match dispatch (traffic e) g1 with
      | None => None
      | Some g2 =>
        Some (ESP_OK,
              [client_init uri true; register_events; sem_create;
               client_start (start_ret e); sem_wait;
               is_connected (connected_at_end e)]
              ++ (if connected_at_end e then [client_stop] else [])
              ++ [client_destroy; sem_delete],
              g2)
      end.

(** [update_reports()]; [init_ok] and [start_ret] of [e] are the
    answers of the client. *)
Definition update_reports (server_uri : list byte) (e : case_env) : list api_call :=
  let '(ret, uri) := snprintf 512 (server_uri ++ updateReports_path) in
  if (ret <? 0) || (ret >=? 512) then []
  else if negb (init_ok e) then [client_init uri false]
  else if negb (start_ret e =? ESP_OK) then
    [client_init uri true; client_start (start_ret e); client_destroy]
  else
    [client_init uri true; client_start (start_ret e); delay_ms 3000;
     client_stop; client_destroy].

(** The loop [for (i = START_CASE; i <= END_CASE; i++)] of
    [websocket_app_start], over the values [cases] of [i]: for each
    case its number, what [run_test_case] returned and the calls made,
    the delay after the case included. *)
Fixpoint run_cases (server_uri : list byte) (env : Z → case_env) (cases : list Z)
    (g : globals) : option (list (Z * Z * list api_call) * globals) :=
  match cases with
  | [] => Some ([], g)
  | i :: rest =>
    match run_test_case server_uri (env i) g i with
    | None => None
    | Some (ret, calls, g1) =>
      match run_cases server_uri env rest g1 with
      | None => None
      | Some (log, g2) => Some ((i, ret, calls ++ [delay_ms 500]) :: log, g2)
      end
    end
  end.

(** [websocket_app_start()]: the cases, the report update and the
    cleanup. *)
Definition websocket_app_start (server_uri : list byte) (env : Z → case_env)
    (report_env : case_env) (g : globals)
    : option (list (Z * Z * list api_call) * list api_call * globals) :=
  match run_cases server_uri env (seqZ START_CASE (END_CASE - START_CASE + 1)) g with
  | None => None
  | Some (log, g1) =>
    Some (log, update_reports server_uri report_env, ws_accumulator_cleanup g1)
  end.

(** The discipline of the handles: a client handle is used only
    between the [client_init] that returned it and its
    [client_destroy], the semaphore only between [sem_create] and
    [sem_delete], and neither is left behind. [client] and [sem] tell
    whether a handle is live. *)
Fixpoint handles_ok (client sem : bool) (calls : list api_call) : bool :=
  match calls with
  | [] => negb client && negb sem
  | client_init _ created :: rest => negb client && handles_ok created sem rest
  | register_events :: rest
  | client_start _ :: rest
  | is_connected _ :: rest
  | client_stop :: rest => client && handles_ok client sem rest
  | client_destroy :: rest => client && handles_ok false sem rest
  | sem_create :: rest => negb sem && handles_ok client true rest
  | sem_wait :: rest => sem && handles_ok client sem rest
  | sem_delete :: rest => sem && handles_ok client false rest
  | delay_ms _ :: rest => handles_ok client sem rest
  end.

End TesteeMain.

(** ** The target example: [websocket_example.c] *)
Module Example.
Import Testee Stdio.

(** [get_string(line, size)] of [websocket_example.c]: only a newline
    ends the line, the loop runs while [count < size], every turn that
    does not leave the loop sleeps, and nothing is written after the
    loop. *)
Fixpoint get_string_loop (input line : list Z) (size count : Z) (sleeps : nat)
    : outcome :=
  if to_size_t count <? to_size_t size then
    match input with
    | [] => Stdio.Blocked line sleeps
    | c :: rest =>
      if c =? 10 then
        match Stdio.store line count 0 with
        | None => Stdio.Undefined
        | Some line1 => Stdio.Returned line1 rest sleeps
        end
      else if (c >? 0) && (c <? 127) then
        match Stdio.store line count c with
        | None => Stdio.Undefined
        | Some line1 =>
          if count =? INT_MAX then Stdio.Undefined
          else get_string_loop rest line1 size (count + 1) (S sleeps)
        end
      else get_string_loop rest line size count (S sleeps)
    end
  else Stdio.Returned line input sleeps.

Definition get_string (input line : list Z) (size : Z) : outcome :=
  get_string_loop input line size 0 0.

(** The character that ends a line for this [get_string]. *)
Definition newline (c : Z) : bool := c =? 10.

(** What [simulate_customer_crash_scenario] does, in order: [malloc]
    (and whether it gave a block), a call of
    [esp_websocket_client_send_text] with the bytes and the length it is
    given, its timeout and the value it returns, [free], [vTaskDelay]
    with its ticks. *)
Inductive action :=
  | do_malloc (ok : bool)
  | send_text (data : list byte) (len timeout ret : Z)
  | do_free
  | task_delay (ticks : Z).

(** ["FLOOD_"], ["_"] and ["KEEP_SENDING_"]. *)
Definition FLOOD : list byte := [x46; x4c; x4f; x4f; x44; x5f].
Definition UNDERSCORE : list byte := [x5f].
Definition KEEP_SENDING : list byte := [x4b; x45; x45; x50; x5f; x53; x45; x4e; x44; x49; x4e; x47; x5f].

(** The block [huge] when it is sent: [memset(huge, 'X', 1023)] on the
    fresh block of 1024 bytes, [snprintf(huge, 32, "FLOOD_%04d_", i)],
    which also writes its terminator, and [huge[1023] = 0]. *)
Definition flood_message (last_byte : byte) (i : Z) : list byte :=
  let block := replicate 1023 x58 ++ [last_byte] in
  let text := (Stdio.snprintf 32 (FLOOD ++ Stdio.format_04d i ++ UNDERSCORE)).2 in
  <[1023%nat := x00]> (list_inserts 0 (text ++ [x00]) block).

(** "Step 1", for the values [cases] of [i]: [env i] tells whether
    [malloc] succeeds and what the send returns. *)
Fixpoint flood (env : Z → bool * Z) (cases : list Z) : list action :=
  match cases with
  | [] => []
  | i :: rest =>
    if (env i).1 then
      let ret := (env i).2 in
      [do_malloc true; send_text (take 1023 (flood_message x00 i)) 1023 1 ret]
      ++ (if ret <? 0 then [do_free] else do_free :: flood env rest)
    else do_malloc false :: flood env rest
  end.

(** "Step 2": [data] holds the text and its terminator; the length
    sent is [strlen(data)]. *)
Fixpoint keep_sending (tick : Z) (env : Z → Z) (cases : list Z) : list action :=
  match cases with
  | [] => []
  | i :: rest =>
    let data := (Stdio.snprintf 512 (KEEP_SENDING ++ Stdio.format_04d i)).2 in
    let ret := env i in
    send_text data (Z.of_nat (length data)) 10 ret
    :: (if ret <? 0 then [] else task_delay (50 / tick) :: keep_sending tick env rest)
  end.

(** [simulate_customer_crash_scenario]; [tick] is [portTICK_PERIOD_MS]. *)
Definition simulate_customer_crash_scenario (tick : Z) (flood_env : Z → bool * Z)
    (keep_env : Z → Z) : list action :=
  flood flood_env (seqZ 0 100)
  ++ keep_sending tick keep_env (seqZ 0 50)
  ++ [task_delay (3000 / tick)].

(** The sends of a trace, in order. *)
Definition sends (t : list action) : list (list byte * Z * Z * Z) :=
  omap (λ a, match a with
             | send_text data len timeout ret => Some (data, len, timeout, ret)
             | _ => None
             end) t.

(** Every block is freed before the next one is allocated and none is
    live at the end; nothing is freed twice. [live] tells whether a
    block is allocated. *)
Fixpoint heap_ok (live : bool) (t : list action) : bool :=
  match t with
  | [] => negb live
  | do_malloc ok :: rest => negb live && heap_ok ok rest
  | do_free :: rest => live && heap_ok false rest
  | _ :: rest => heap_ok live rest
  end.

End Example.


(** ** The transport close is idempotent *)
Module TransportFacts.
Import Transport.

Lemma close_layer_length (st : list TransportLayer) : length (close_layer st).2 = length st.
Proof.
  induction st as [|t below IH]; simpl; [done|].
  destruct (closed t); simpl; [done|].
  destruct (close_layer below) as [ret below1]; simpl in *. by rewrite IH.
Qed.

Lemma close_length (i : nat) (st : list TransportLayer) : length (close i st).2 = length st.
Proof.
  unfold close. pose proof (close_layer_length (drop i st)) as H.
  destruct (close_layer (drop i st)) as [ret suffix]; simpl in *.
  rewrite length_app, H, length_take, length_drop. lia.
Qed.

Lemma close_layer_ok (st : list TransportLayer) : stack_ok st = true → stack_ok (close_layer st).2 = true.
Proof.
  unfold stack_ok. induction st as [|t below IH]; simpl; [done|].
  intros [Ht Hb]%andb_prop. destruct (closed t) eqn:Hc; simpl.
  - by rewrite Hc, Ht, Hb.
  - specialize (IH Hb). destruct (close_layer below) as [ret below1]; simpl in *.
    rewrite IH, andb_true_r. lia.
Qed.

Lemma stack_ok_app (s1 s2 : list TransportLayer) :
  stack_ok (s1 ++ s2) = stack_ok s1 && stack_ok s2.
Proof. unfold stack_ok. apply forallb_app. Qed.

Lemma close_ok (i : nat) (st : list TransportLayer) : stack_ok st = true → stack_ok (close i st).2 = true.
Proof.
  intros H. rewrite <- (take_drop i st), stack_ok_app in H.
  apply andb_prop in H as [H1 H2]. unfold close.
  pose proof (close_layer_ok _ H2) as H3.
  destruct (close_layer (drop i st)) as [ret suffix]; simpl in *.
  by rewrite stack_ok_app, H1, H3.
Qed.

Lemma close_all_ok (calls : list nat) (st : list TransportLayer) :
  stack_ok st = true → stack_ok (close_all calls st) = true.
Proof.
  revert st. induction calls as [|i calls IH]; intros st H; simpl; [done|].
  apply IH, close_ok, H.
Qed.

Lemma fresh_stack_ok (st : list TransportLayer) : fresh_stack st = true → stack_ok st = true.
Proof.
  unfold fresh_stack, stack_ok. induction st as [|t st IH]; simpl; [done|].
  intros [[Hc Hr]%andb_prop Hs]%andb_prop. rewrite (IH Hs), andb_true_r.
  destruct (closed t); [done|]. exact Hr.
Qed.

(** A closed layer is never touched again. *)
Lemma close_layer_closed_stays (st : list TransportLayer) (j : nat) (t : TransportLayer) :
  st !! j = Some t → closed t = true → (close_layer st).2 !! j = Some t.
Proof.
  revert j. induction st as [|u below IH]; intros j Hj Hc; [done|].
  simpl. destruct (closed u) eqn:Hu; [done|].
  specialize (IH (pred j)).
  destruct (close_layer below) as [ret below1]; simpl in *.
  destruct j as [|j]; simpl in *.
  - congruence.
  - by apply IH.
Qed.

Lemma close_closed_stays (i : nat) (st : list TransportLayer) (j : nat) (t : TransportLayer) :
  st !! j = Some t → closed t = true → (close i st).2 !! j = Some t.
Proof.
  intros Hj Hc. unfold close.
  pose proof (close_layer_closed_stays (drop i st) (j - i) t) as H.
  pose proof (close_layer_length (drop i st)) as Hlen.
  destruct (close_layer (drop i st)) as [ret suffix]; simpl in *.
  destruct (decide (j < i)%nat) as [Hlt|Hge].
  - rewrite lookup_app_l by (rewrite length_take; apply lookup_lt_Some in Hj; lia).
    by rewrite lookup_take_lt.
  - assert (length (take i st) = i) as Hti.
    { rewrite length_take. apply lookup_lt_Some in Hj. lia. }
    rewrite lookup_app_r by lia. rewrite Hti. apply H; [|done].
    rewrite lookup_drop. replace (i + (j - i))%nat with j by lia. done.
Qed.

Lemma close_all_closed_stays (calls : list nat) (st : list TransportLayer) (j : nat) (t : TransportLayer) :
  st !! j = Some t → closed t = true → close_all calls st !! j = Some t.
Proof.
  revert st. induction calls as [|i calls IH]; intros st Hj Hc; simpl; [done|].
  apply IH; [|done]. by apply close_closed_stays.
Qed.

(** Closing a closed layer does nothing and returns 0. *)
Lemma close_closed_noop (j : nat) (st : list TransportLayer) (t : TransportLayer) :
  st !! j = Some t → closed t = true → close j st = (0, st).
Proof.
  intros Hj Hc. unfold close.
  destruct (drop j st) as [|u below] eqn:Hd.
  { apply lookup_lt_Some in Hj. apply (f_equal length) in Hd.
    rewrite length_drop in Hd. simpl in Hd. lia. }
  assert (u = t) as ->.
  { pose proof (lookup_drop st j 0) as H. rewrite Hd, Nat.add_0_r, Hj in H.
    simpl in H. congruence. }
  simpl. rewrite Hc. by rewrite <- Hd, take_drop.
Qed.

Lemma stack_ok_lookup (st : list TransportLayer) (j : nat) (t : TransportLayer) :
  stack_ok st = true → st !! j = Some t →
  releases t = if closed t then 1%nat else 0%nat.
Proof.
  unfold stack_ok. rewrite forallb_forall. intros H Hj.
  apply list_elem_of_lookup_2, list_elem_of_In, H in Hj. lia.
Qed.

Lemma close_all_app (c1 c2 : list nat) (st : list TransportLayer) :
  close_all (c1 ++ c2) st = close_all c2 (close_all c1 st).
Proof. unfold close_all. apply fold_left_app. Qed.

Lemma close_all_length (calls : list nat) (st : list TransportLayer) :
  length (close_all calls st) = length st.
Proof.
  revert st. induction calls as [|i calls IH]; intros st; simpl; [done|].
  by rewrite IH, close_length.
Qed.

Lemma closed_suffix_tail (t : TransportLayer) (st : list TransportLayer) :
  closed_suffix (t :: st) → closed_suffix st.
Proof.
  intros H k k' u v Hk Hc Hle Hk'.
  apply (H (S k) (S k') u v); [done|done|lia|done].
Qed.

Lemma fresh_closed_suffix (st : list TransportLayer) :
  fresh_stack st = true → closed_suffix st.
Proof.
  unfold fresh_stack. rewrite forallb_forall. intros H k k' t u Hk Hc _ _.
  apply list_elem_of_lookup_2, list_elem_of_In, H in Hk.
  rewrite Hc in Hk. done.
Qed.

(** The close of the outermost layer leaves the whole stack closed. *)
Lemma close_layer_closes_all (st : list TransportLayer) :
  closed_suffix st → Forall (λ t, closed t = true) (close_layer st).2.
Proof.
  induction st as [|t below IH]; intros Hsuf; [by constructor|].
  cbn. destruct (closed t) eqn:Hc; cbn.
  - apply Forall_lookup. intros k u Hk.
    apply (Hsuf 0%nat k t u); [done|done|lia|done].
  - specialize (IH (closed_suffix_tail _ _ Hsuf)).
    destruct (close_layer below) as [ret below1]. cbn in *. by constructor.
Qed.

Lemma close_closes_below (i j : nat) (st : list TransportLayer) :
  closed_suffix st → (i ≤ j < length st)%nat →
  ∃ t, (close i st).2 !! j = Some t ∧ closed t = true.
Proof.
  intros Hsuf Hj.
  assert (closed_suffix (drop i st)) as Hdrop.
  { intros k k' t u Hk Hc Hle Hk'. rewrite lookup_drop in Hk, Hk'.
    apply (Hsuf (i + k)%nat (i + k')%nat t u); [done|done|lia|done]. }
  pose proof (close_layer_closes_all _ Hdrop) as Hall.
  pose proof (close_layer_length (drop i st)) as Hlen.
  unfold close. destruct (close_layer (drop i st)) as [ret suffix]. cbn in *.
  assert (length (take i st) = i) as Hti by (rewrite length_take; lia).
  rewrite length_drop in Hlen.
  destruct (suffix !! (j - i)%nat) as [t|] eqn:Ht.
  - exists t. rewrite lookup_app_r by lia. rewrite Hti. split; [done|].
    by apply (Forall_lookup_1 _ _ _ _ Hall Ht).
  - apply lookup_ge_None in Ht. lia.
Qed.

Lemma close_keeps_closed_suffix (i : nat) (st : list TransportLayer) :
  closed_suffix st → closed_suffix (close i st).2.
Proof.
  intros Hsuf k k' t u Hk Hc Hle Hk'.
  destruct (decide (i ≤ k')%nat) as [Hik'|Hik'].
  - assert (k' < length st)%nat as Hlt.
    { apply lookup_lt_Some in Hk'. by rewrite close_length in Hk'. }
    destruct (close_closes_below i k' st Hsuf) as (v & Hv & Hcv); [lia|]. congruence.
  - assert (k' < length st)%nat as Hlt.
    { apply lookup_lt_Some in Hk'. by rewrite close_length in Hk'. }
    unfold close in Hk, Hk'. destruct (close_layer (drop i st)) as [ret suffix]. cbn in *.
    rewrite lookup_app_l in Hk by (rewrite length_take; lia).
    rewrite lookup_app_l in Hk' by (rewrite length_take; lia).
    rewrite lookup_take_lt in Hk by lia. rewrite lookup_take_lt in Hk' by lia.
    apply (Hsuf k k' t u); [done|done|lia|done].
Qed.

Lemma close_all_keeps_closed_suffix (calls : list nat) (st : list TransportLayer) :
  closed_suffix st → closed_suffix (close_all calls st).
Proof.
  revert st. induction calls as [|i calls IH]; intros st H; cbn; [done|].
  by apply IH, close_keeps_closed_suffix.
Qed.

Lemma closed_after_call_above (calls : list nat) (st : list TransportLayer) (i j : nat) :
  closed_suffix st → i ∈ calls → (i ≤ j < length st)%nat →
  ∃ t, close_all calls st !! j = Some t ∧ closed t = true.
Proof.
  intros Hsuf (pre & post & ->)%list_elem_of_split Hj.
  rewrite close_all_app. cbn.
  destruct (close_closes_below i j (close_all pre st)) as (t & Ht & Hc).
  { by apply close_all_keeps_closed_suffix. }
  { by rewrite close_all_length. }
  exists t. split; [|done]. by apply close_all_closed_stays.
Qed.

(** C1. On a stack on which nothing was closed yet, take any sequence
    of close invocations, each on any layer, that names a layer [i] at
    or above layer [j] (the close of [i] closes the layers beneath it;
    [i = j] is the direct close of [j]). Afterwards the teardown of
    layer [j] has run exactly once and no layer was torn down twice;
    and every invocation on [j] that comes after the one on [i] returns
    0 and leaves the whole stack as it was. *)
Theorem close_tears_down_exactly_once (st : list TransportLayer) (calls : list nat)
    (i j : nat) :
  fresh_stack st = true →
  i ∈ calls →
  (i ≤ j < length st)%nat →
  (∃ t, close_all calls st !! j = Some t ∧ closed t = true ∧ releases t = 1%nat)
  ∧ stack_ok (close_all calls st) = true
  ∧ ∀ pre post, calls = pre ++ j :: post → i ∈ pre →
      close j (close_all pre st) = (0, close_all pre st).
Proof.
  intros Hfresh Hin Hj.
  pose proof (fresh_closed_suffix st Hfresh) as Hsuf.
  apply fresh_stack_ok in Hfresh.
  pose proof (close_all_ok calls st Hfresh) as Hok.
  split; [|split; [done|]].
  - destruct (closed_after_call_above calls st i j Hsuf Hin Hj) as (t & Ht & Hc).
    exists t. split; [done|]. split; [done|].
    rewrite (stack_ok_lookup _ _ _ Hok Ht), Hc. done.
  - intros pre post -> Hpre.
    destruct (closed_after_call_above pre st i j Hsuf Hpre Hj) as (t & Ht & Hc).
    by apply (close_closed_noop j _ t).
Qed.

(** The WebSocket layer is closed, which closes the TLS layer beneath
    it; the error path then closes the TLS layer once more. *)
Lemma close_tears_down_exactly_once_witness :
  fresh_stack ws_tls_tcp = true
  ∧ 0%nat ∈ [0; 1]%nat
  ∧ (0 ≤ 1 < length ws_tls_tcp)%nat
  ∧ (∃ t, close_all [0; 1]%nat ws_tls_tcp !! 1%nat = Some t
          ∧ closed t = true ∧ releases t = 1%nat)
  ∧ stack_ok (close_all [0; 1]%nat ws_tls_tcp) = true
  ∧ close 1 (close_all [0%nat] ws_tls_tcp) = (0, close_all [0%nat] ws_tls_tcp).
Proof.
  assert (fresh_stack ws_tls_tcp = true) as Hfresh by reflexivity.
  assert (0%nat ∈ [0; 1]%nat) as Hin by (apply list_elem_of_In; simpl; auto).
  assert (0 ≤ 1 < length ws_tls_tcp)%nat as Hj by (simpl; lia).
  split; [exact Hfresh|]. split; [exact Hin|]. split; [exact Hj|].
  destruct (close_tears_down_exactly_once ws_tls_tcp [0; 1]%nat 0 1 Hfresh Hin Hj)
    as (H1 & H2 & H3).
  split; [exact H1|]. split; [exact H2|].
  apply (H3 [0%nat] []); [reflexivity|].
  apply list_elem_of_In. simpl. auto.
Defined.

End TransportFacts.

(** ** The testee's accumulator and echo loop *)
Module TesteeFacts.
Import Testee.

Lemma MAX_val : MAX_FRAGMENTED_PAYLOAD = 65537.
Proof. reflexivity. Qed.

#[local] Opaque MAX_FRAGMENTED_PAYLOAD.

(** **** Arithmetic of [size_t] *)

Lemma to_size_t_small (z : Z) : 0 ≤ z < 2 ^ size_t_bits → to_size_t z = z.
Proof. intros H. unfold to_size_t. by apply Z.mod_small. Qed.

Lemma to_size_t_range (z : Z) : 0 ≤ to_size_t z < 2 ^ size_t_bits.
Proof. unfold to_size_t. apply Z.mod_pos_bound. unfold size_t_bits. lia. Qed.

Lemma to_size_t_int (z : Z) : 0 ≤ z ≤ INT_MAX → to_size_t z = z.
Proof. intros H. apply to_size_t_small. unfold INT_MAX, size_t_bits in *. lia. Qed.

Lemma to_size_t_sum (x y : Z) :
  0 ≤ x ≤ INT_MAX → 0 ≤ y ≤ INT_MAX → to_size_t (to_size_t x + to_size_t y) = x + y.
Proof.
  intros Hx Hy. rewrite (to_size_t_int x Hx), (to_size_t_int y Hy).
  apply to_size_t_small. unfold INT_MAX, size_t_bits in *. lia.
Qed.

(** **** What [event_ok] and [acc_ok] say *)

Lemma event_ok_elim (d : esp_websocket_event_data_t) :
  event_ok d = true →
  0 ≤ data_len d ≤ INT_MAX ∧ 0 ≤ payload_len d ≤ INT_MAX
  ∧ 0 ≤ payload_offset d ≤ INT_MAX ∧ 0 ≤ op_code d < 256
  ∧ match data_ptr d with
    | None => data_len d = 0
    | Some l => Z.of_nat (length l) = data_len d
    end.
Proof.
  unfold event_ok. intros H.
  repeat (apply andb_prop in H as [H ?]).
  repeat split; try lia. destruct (data_ptr d); lia.
Qed.

Lemma block_ok_elim (h : gmap nat (list byte)) (b : nat) :
  block_ok h (Block b) = true →
  ∃ blk, h !! b = Some blk ∧ Z.of_nat (length blk) = MAX_FRAGMENTED_PAYLOAD.
Proof.
  simpl. destruct (h !! b) as [blk|]; [|done]. intros H. exists blk. split; [done|lia].
Qed.

Lemma acc_ok_elim (g : globals) :
  acc_ok g = true →
  let a := s_accumulator g in
  0 ≤ received a ≤ expected_len a ∧ expected_len a ≤ capacity a
  ∧ block_ok (heap g) (s_accum_buffer g) = true
  ∧ (active a = true →
     buffer a = s_accum_buffer g ∧ is_null (buffer a) = false
     ∧ capacity a = MAX_FRAGMENTED_PAYLOAD ∧ 0 < expected_len a).
Proof.
  unfold acc_ok. intros H. cbv zeta.
  apply andb_prop in H as [H Hact].
  repeat (apply andb_prop in H as [H ?]).
  split; [lia|]. split; [lia|]. split; [done|].
  intros Ha. rewrite Ha in Hact.
  repeat (apply andb_prop in Hact as [Hact ?]).
  split; [by eapply bool_decide_eq_true_1|].
  split; [by apply negb_true_iff|]. lia.
Qed.

Lemma acc_ok_intro (g : globals) :
  let a := s_accumulator g in
  0 ≤ received a ≤ expected_len a → expected_len a ≤ capacity a →
  block_ok (heap g) (s_accum_buffer g) = true →
  (active a = true →
     buffer a = s_accum_buffer g ∧ is_null (buffer a) = false
     ∧ capacity a = MAX_FRAGMENTED_PAYLOAD ∧ 0 < expected_len a) →
  acc_ok g = true.
Proof.
  cbv zeta. intros H1 H2 H3 H4. unfold acc_ok.
  repeat (apply andb_true_intro; split); try lia; try done.
  destruct (active (s_accumulator g)); [|done].
  destruct H4 as (E1 & E2 & E3 & E4); [done|].
  rewrite E2, bool_decide_eq_true_2 by done. simpl. lia.
Qed.

Lemma acc_ok_reset (g : globals) : acc_ok g = true → acc_ok (ws_accumulator_reset g) = true.
Proof.
  intros (H1 & H2 & H3 & H4)%acc_ok_elim.
  apply acc_ok_intro; simpl; try done; lia.
Qed.


(** **** The stages of the accumulation, one by one *)

Lemma ensure_buffer_live (o : oracle) (g : globals) :
  is_null (s_accum_buffer g) = false → ensure_buffer o g = Continue g.
Proof. intros H. unfold ensure_buffer. by rewrite H. Qed.

Lemma fresh_block_length (o : oracle) :
  Z.of_nat (length (garbage o <$> seq 0 (Z.to_nat MAX_FRAGMENTED_PAYLOAD)))
  = MAX_FRAGMENTED_PAYLOAD.
Proof. rewrite length_fmap, length_seq. pose proof MAX_val. lia. Qed.

Lemma inactive_without_buffer (g : globals) :
  acc_ok g = true → is_null (s_accum_buffer g) = true →
  active (s_accumulator g) = false.
Proof.
  intros (_ & _ & _ & H)%acc_ok_elim Hn.
  destruct (active (s_accumulator g)); [|done].
  destruct H as (E1 & E2 & _); [done|]. congruence.
Qed.

Lemma ensure_buffer_spec (o : oracle) (g : globals) :
  acc_ok g = true →
  match ensure_buffer o g with
  | Continue g1 =>
    acc_ok g1 = true ∧ is_null (s_accum_buffer g1) = false
    ∧ s_accumulator g1 = s_accumulator g
    ∧ (is_null (s_accum_buffer g) = false → g1 = g)
  | Break g1 =>
    acc_ok g1 = true ∧ s_accumulator g1 = s_accumulator g
    ∧ active (s_accumulator g1) = false ∧ heap g1 = heap g
  end.
Proof.
  intros Hok. unfold ensure_buffer.
  destruct (is_null (s_accum_buffer g)) eqn:Hn; [|done].
  pose proof (inactive_without_buffer g Hok Hn) as Hina.
  apply acc_ok_elim in Hok as (H1 & H2 & H3 & H4). cbv zeta in *.
  unfold malloc. destruct (malloc_ok o); cbn [is_null].
  - split; [|split; [done|split; [done|intros; congruence]]].
    apply acc_ok_intro; cbn [s_accumulator s_accum_buffer heap set_accum_buffer]; try done.
    + cbn [block_ok]. rewrite lookup_insert_eq. pose proof (fresh_block_length o). lia.
    + congruence.
  - split; [|split; [done|split; [done|done]]].
    apply acc_ok_intro; cbn [s_accumulator s_accum_buffer heap set_accum_buffer]; try done.
    congruence.
Qed.

Lemma prepare_oversize (o : oracle) (g : globals) (total_len opc : Z) :
  MAX_FRAGMENTED_PAYLOAD < total_len →
  ws_accumulator_prepare o g total_len opc = (ESP_ERR_INVALID_SIZE, g).
Proof.
  intros H. unfold ws_accumulator_prepare.
  destruct (total_len =? 0) eqn:E0; [pose proof MAX_val; lia|].
  destruct (total_len >? MAX_FRAGMENTED_PAYLOAD) eqn:E1; [done|lia].
Qed.

Lemma prepare_live (o : oracle) (g : globals) (total_len opc : Z) :
  is_null (s_accum_buffer g) = false →
  0 < total_len ≤ MAX_FRAGMENTED_PAYLOAD →
  ws_accumulator_prepare o g total_len opc
  = (ESP_OK,
     set_accumulator
       (mk_accumulator (s_accum_buffer g) MAX_FRAGMENTED_PAYLOAD total_len 0 opc true) g).
Proof.
  intros Hn H. unfold ws_accumulator_prepare.
  destruct (total_len =? 0) eqn:E0; [lia|].
  destruct (total_len >? MAX_FRAGMENTED_PAYLOAD) eqn:E1; [lia|].
  by rewrite Hn.
Qed.

Lemma prepare_for_chunk_live (o : oracle) (g : globals)
    (d : esp_websocket_event_data_t) (sop total_len : Z) :
  is_null (s_accum_buffer g) = false → 0 < total_len →
  prepare_for_chunk o g d sop total_len =
    let fresh :=
      set_accumulator
        (mk_accumulator (s_accum_buffer g) MAX_FRAGMENTED_PAYLOAD total_len 0 sop true) g in
    if (payload_offset d =? 0) || negb (active (s_accumulator g)) then
      if total_len >? MAX_FRAGMENTED_PAYLOAD then Break g else Continue fresh
    else if negb (total_len =? expected_len (s_accumulator g)) then
      if total_len >? MAX_FRAGMENTED_PAYLOAD then Break (ws_accumulator_reset g)
      else Continue fresh
    else Continue g.
Proof.
  intros Hn Hpos. unfold prepare_for_chunk. cbv zeta.
  destruct ((payload_offset d =? 0) || negb (active (s_accumulator g))).
  - destruct (total_len >? MAX_FRAGMENTED_PAYLOAD) eqn:E.
    + rewrite prepare_oversize by lia. done.
    + rewrite prepare_live by (done || lia). done.
  - destruct (negb (total_len =? expected_len (s_accumulator g))); [|done].
    destruct (total_len >? MAX_FRAGMENTED_PAYLOAD) eqn:E.
    + rewrite prepare_oversize by lia. done.
    + rewrite prepare_live by (done || lia). done.
Qed.

Lemma copy_chunk_spec (g : globals) (d : esp_websocket_event_data_t) :
  acc_ok g = true → event_ok d = true → active (s_accumulator g) = true →
  let a := s_accumulator g in
  let off := payload_offset d in
  let n := data_len d in
  ∃ b blk,
    buffer a = Block b ∧ heap g !! b = Some blk
    ∧ Z.of_nat (length blk) = MAX_FRAGMENTED_PAYLOAD
    ∧ copy_chunk g d =
      if off + n >? expected_len a then Some (quiet (ws_accumulator_reset g))
      else
        let h := <[b := list_inserts (Z.to_nat off) (default [] (data_ptr d)) blk]> (heap g) in
        let done_ := negb (off + n <? expected_len a) in
        Some {| globals_after :=
                  set_accumulator
                    (mk_accumulator (Block b) (capacity a) (expected_len a) (off + n)
                       (opcode a) (negb done_))
                    (set_heap h g);
                copied := Some (mk_copy (Block b) off n);
                handed_off :=
                  if done_
                  then Some (mk_message (opcode a) (In_accumulator (Block b)) (expected_len a))
                  else None;
                echo := None |}.
Proof.
  intros Hok Hev Hact. cbv zeta.
  apply acc_ok_elim in Hok as (H1 & H2 & H3 & H4). cbv zeta in *.
  destruct H4 as (E1 & E2 & E3 & E4); [done|].
  apply event_ok_elim in Hev as (D1 & D2 & D3 & D4 & D5).
  destruct (buffer (s_accumulator g)) as [|b] eqn:Hb; [done|].
  rewrite <- E1 in H3. apply block_ok_elim in H3 as (blk & Hblk & Hlen).
  exists b, blk. split; [done|]. split; [done|]. split; [done|].
  unfold copy_chunk. cbv zeta. rewrite Hact, Hb. simpl.
  rewrite to_size_t_sum by done.
  rewrite (to_size_t_int (payload_offset d)) by done.
  rewrite (to_size_t_int (data_len d)) by done.
  assert (negb (bool_decide (is_Some (data_ptr d))) && (data_len d >? 0) = false) as ->.
  { destruct (data_ptr d); simpl; [done|lia]. }
  destruct (payload_offset d + data_len d >? expected_len (s_accumulator g)) eqn:Eexp.
  { destruct (payload_offset d + data_len d >? capacity (s_accumulator g)); done. }
  destruct (payload_offset d + data_len d >? capacity (s_accumulator g)) eqn:Ecap; [lia|].
  unfold memcpy. rewrite Hblk.
  destruct (payload_offset d + data_len d >? Z.of_nat (length blk)) eqn:Eblk; [lia|].
  destruct (data_ptr d) as [l|] eqn:Hd; simpl.
  - destruct (data_len d >? Z.of_nat (length l)) eqn:El; [lia|].
    rewrite take_ge by lia.
    destruct (payload_offset d + data_len d <? expected_len (s_accumulator g)); done.
  - destruct (data_len d =? 0) eqn:En; [|lia].
    rewrite insert_id by done.
    assert (set_heap (heap g) g = g) as Hg by (by destruct g).
    destruct (payload_offset d + data_len d <? expected_len (s_accumulator g));
      simpl; unfold set_heap; simpl; done.
Qed.


(** **** The accumulation as a whole *)

Lemma set_accumulator_reset (a : ws_accumulator_t) (g : globals) :
  set_accumulator a (ws_accumulator_reset g) = set_accumulator a g.
Proof. done. Qed.

Lemma acc_ok_fresh (g : globals) (total_len sop : Z) :
  acc_ok g = true → is_null (s_accum_buffer g) = false →
  0 < total_len ≤ MAX_FRAGMENTED_PAYLOAD →
  acc_ok (set_accumulator
            (mk_accumulator (s_accum_buffer g) MAX_FRAGMENTED_PAYLOAD total_len 0 sop true) g)
  = true.
Proof.
  intros (H1 & H2 & H3 & H4)%acc_ok_elim Hn Htl.
  apply acc_ok_intro; simpl; try done; try lia.
  intros _. repeat split; try done; lia.
Qed.

(** Either the accumulation stops before the copy stage, in a
    consistent state and with nothing copied, or it reaches the copy
    stage with an active, consistent accumulator: the one of [g] for a
    chunk that continues the message in flight, a freshly prepared one
    otherwise. *)
Lemma accumulate_stages (o : oracle) (g : globals) (d : esp_websocket_event_data_t)
    (sop total_len : Z) :
  acc_ok g = true → 0 < total_len →
  (∃ g1, accumulate o g d sop total_len = Some (quiet g1)
         ∧ acc_ok g1 = true
         ∧ (active (s_accumulator g1) = true →
            payload_offset d = 0 ∧ active (s_accumulator g) = true
            ∧ MAX_FRAGMENTED_PAYLOAD < total_len ∧ g1 = g))
  ∨ (∃ g2, accumulate o g d sop total_len = copy_chunk g2 d
           ∧ acc_ok g2 = true
           ∧ active (s_accumulator g2) = true
           ∧ (is_null (s_accum_buffer g) = false →
              heap g2 = heap g ∧ s_accum_buffer g2 = s_accum_buffer g)
           ∧ (if restarts g d total_len
              then total_len ≤ MAX_FRAGMENTED_PAYLOAD
                   ∧ s_accumulator g2
                     = mk_accumulator (s_accum_buffer g2) MAX_FRAGMENTED_PAYLOAD
                         total_len 0 sop true
              else g2 = g)).
Proof.
  intros Hok Hpos. unfold accumulate, restarts.
  pose proof (ensure_buffer_spec o g Hok) as Hens.
  destruct (ensure_buffer o g) as [g1|g1].
  2:{ left. exists g1. destruct Hens as (? & ? & ? & ?). split; [done|].
      split; [done|]. congruence. }
  destruct Hens as (Hok1 & Hn1 & Hacc & Hsame).
  rewrite prepare_for_chunk_live by done. cbv zeta. rewrite Hacc.
  destruct (payload_offset d =? 0) eqn:Eoff; simpl.
  { destruct (total_len >? MAX_FRAGMENTED_PAYLOAD) eqn:Emax.
    - left. exists g1. split; [done|]. split; [done|]. intros Hact.
      rewrite Hacc in Hact.
      assert (is_null (s_accum_buffer g) = false) as Hn.
      { destruct (is_null (s_accum_buffer g)) eqn:E; [|done].
        pose proof (inactive_without_buffer g Hok E). congruence. }
      repeat split; try lia; try done. by apply Hsame.
    - right. eexists. split; [done|]. split; [apply acc_ok_fresh; (done || lia)|].
      split; [done|]. split; [|split; [lia|done]].
      intros Hn. by rewrite (Hsame Hn). }
  destruct (active (s_accumulator g)) eqn:Eact; simpl.
  2:{ destruct (total_len >? MAX_FRAGMENTED_PAYLOAD) eqn:Emax.
      - left. exists g1. split; [done|]. split; [done|]. congruence.
      - right. eexists. split; [done|]. split; [apply acc_ok_fresh; (done || lia)|].
        split; [done|]. split; [|split; [lia|done]].
        intros Hn. by rewrite (Hsame Hn). }
  assert (is_null (s_accum_buffer g) = false) as Hn.
  { destruct (is_null (s_accum_buffer g)) eqn:E; [|done].
    pose proof (inactive_without_buffer g Hok E). congruence. }
  specialize (Hsame Hn). subst g1.
  destruct (total_len =? expected_len (s_accumulator g)) eqn:Elen; simpl.
  { right. exists g. done. }
  destruct (total_len >? MAX_FRAGMENTED_PAYLOAD) eqn:Emax.
  - left. exists (ws_accumulator_reset g). split; [done|].
    split; [by apply acc_ok_reset|]. done.
  - right. eexists. split; [done|]. split; [apply acc_ok_fresh; (done || lia)|].
    split; [done|]. split; [done|]. split; [lia|done].
Qed.



(** On a consistent state and a well-formed event the accumulation
    returns: no [memcpy] leaves the buffer. *)
Lemma accumulate_returns (o : oracle) (g : globals) (d : esp_websocket_event_data_t)
    (sop total_len : Z) :
  acc_ok g = true → event_ok d = true → 0 < total_len →
  is_Some (accumulate o g d sop total_len).
Proof.
  intros Hok Hev Hpos.
  destruct (accumulate_stages o g d sop total_len Hok Hpos)
    as [(g1 & Hacc & _)|(g2 & Hacc & Hok2 & Hact2 & _)].
  - rewrite Hacc. by eauto.
  - destruct (copy_chunk_spec g2 d Hok2 Hev Hact2) as (b & blk & _ & _ & _ & Hcopy).
    cbv zeta in Hcopy. rewrite Hacc, Hcopy.
    destruct (payload_offset d + data_len d >? expected_len (s_accumulator g2)); by eauto.
Qed.



Lemma active_has_buffer (g : globals) :
  acc_ok g = true → active (s_accumulator g) = true →
  is_null (s_accum_buffer g) = false.
Proof.
  intros Hok Hact. destruct (is_null (s_accum_buffer g)) eqn:En; [|done].
  pose proof (inactive_without_buffer g Hok En). congruence.
Qed.

(** A chunk that restarts the accumulation is treated as if the
    accumulator had been reset before it arrived. *)
Lemma restart_forgets (o : oracle) (g : globals) (d : esp_websocket_event_data_t)
    (sop total_len : Z) :
  acc_ok g = true → active (s_accumulator g) = true →
  0 < total_len ≤ MAX_FRAGMENTED_PAYLOAD →
  restarts g d total_len = true →
  accumulate o g d sop total_len = accumulate o (ws_accumulator_reset g) d sop total_len.
Proof.
  intros Hok Hact Htl Hres.
  pose proof (active_has_buffer g Hok Hact) as Hn.
  unfold accumulate. rewrite !ensure_buffer_live by done.
  rewrite !prepare_for_chunk_live by (done || lia). cbv zeta.
  change (s_accum_buffer (ws_accumulator_reset g)) with (s_accum_buffer g).
  rewrite !set_accumulator_reset.
  change (active (s_accumulator (ws_accumulator_reset g))) with false.
  cbn [negb]. rewrite orb_true_r.
  destruct (total_len >? MAX_FRAGMENTED_PAYLOAD) eqn:Emax; [lia|].
  unfold restarts in Hres.
  destruct ((payload_offset d =? 0) || negb (active (s_accumulator g))); [done|].
  simpl in Hres. by rewrite Hres.
Qed.

(** What a restarting chunk that fits leaves behind, when the buffer
    is there already. *)
Lemma restart_result_buffer (o : oracle) (g : globals) (d : esp_websocket_event_data_t)
    (sop total_len : Z) :
  acc_ok g = true → event_ok d = true →
  is_null (s_accum_buffer g) = false →
  0 < total_len ≤ MAX_FRAGMENTED_PAYLOAD →
  restarts g d total_len = true →
  payload_offset d + data_len d ≤ total_len →
  ∃ b blk,
    s_accum_buffer g = Block b ∧ heap g !! b = Some blk
    ∧ Z.of_nat (length blk) = MAX_FRAGMENTED_PAYLOAD
    ∧ accumulate o g d sop total_len =
      let chunk_end := payload_offset d + data_len d in
      let done_ := negb (chunk_end <? total_len) in
      Some {| globals_after :=
                set_accumulator
                  (mk_accumulator (Block b) MAX_FRAGMENTED_PAYLOAD total_len chunk_end
                     sop (negb done_))
                  (set_heap
                     (<[b := list_inserts (Z.to_nat (payload_offset d))
                               (default [] (data_ptr d)) blk]> (heap g)) g);
              copied := Some (mk_copy (Block b) (payload_offset d) (data_len d));
              handed_off :=
                if done_ then Some (mk_message sop (In_accumulator (Block b)) total_len)
                else None;
              echo := None |}.
Proof.
  intros Hok Hev Hn Htl Hres Hfit.
  set (fresh := set_accumulator
        (mk_accumulator (s_accum_buffer g) MAX_FRAGMENTED_PAYLOAD total_len 0 sop true) g).
  assert (accumulate o g d sop total_len = copy_chunk fresh d) as ->.
  { unfold accumulate. rewrite ensure_buffer_live by done.
    rewrite prepare_for_chunk_live by (done || lia). cbv zeta.
    destruct (total_len >? MAX_FRAGMENTED_PAYLOAD) eqn:Emax; [lia|].
    unfold restarts in Hres.
    destruct ((payload_offset d =? 0) || negb (active (s_accumulator g))); [done|].
    simpl in Hres. by rewrite Hres. }
  assert (acc_ok fresh = true) as Hokf by (apply acc_ok_fresh; (done || lia)).
  destruct (copy_chunk_spec fresh d Hokf Hev eq_refl) as (b & blk & Hb & Hblk & Hlen & Hcopy).
  cbv zeta in Hcopy. simpl in Hb, Hblk, Hcopy.
  exists b, blk. split; [done|]. split; [done|]. split; [done|].
  rewrite Hcopy.
  destruct (payload_offset d + data_len d >? total_len) eqn:E; [lia|].
  done.
Qed.

Lemma restart_result (o : oracle) (g : globals) (d : esp_websocket_event_data_t)
    (sop total_len : Z) :
  acc_ok g = true → event_ok d = true →
  active (s_accumulator g) = true →
  0 < total_len ≤ MAX_FRAGMENTED_PAYLOAD →
  restarts g d total_len = true →
  payload_offset d + data_len d ≤ total_len →
  ∃ b blk,
    buffer (s_accumulator g) = Block b ∧ heap g !! b = Some blk
    ∧ accumulate o g d sop total_len =
      let chunk_end := payload_offset d + data_len d in
      let done_ := negb (chunk_end <? total_len) in
      Some {| globals_after :=
                set_accumulator
                  (mk_accumulator (Block b) MAX_FRAGMENTED_PAYLOAD total_len chunk_end
                     sop (negb done_))
                  (set_heap
                     (<[b := list_inserts (Z.to_nat (payload_offset d))
                               (default [] (data_ptr d)) blk]> (heap g)) g);
              copied := Some (mk_copy (Block b) (payload_offset d) (data_len d));
              handed_off :=
                if done_ then Some (mk_message sop (In_accumulator (Block b)) total_len)
                else None;
              echo := None |}.
Proof.
  intros Hok Hev Hact Htl Hres Hfit.
  pose proof (active_has_buffer g Hok Hact) as Hn.
  destruct (restart_result_buffer o g d sop total_len Hok Hev Hn Htl Hres Hfit)
    as (b & blk & Hb & Hblk & _ & Hacc).
  apply acc_ok_elim in Hok as (_ & _ & _ & H4). cbv zeta in H4.
  destruct H4 as (E1 & _); [done|].
  exists b, blk. split; [congruence|]. by split.
Qed.

(** **** The invariant is kept by every step, whatever the event *)

Lemma memcpy_keeps_block (h h' : gmap nat (list byte)) (b : nat) (off n : Z)
    (src : option (list byte)) :
  block_ok h (Block b) = true →
  memcpy h (Block b) off src n = Some h' →
  block_ok h' (Block b) = true.
Proof.
  intros (blk & Hblk & Hlen)%block_ok_elim. unfold memcpy. rewrite Hblk.
  destruct (off + n >? Z.of_nat (length blk)); [done|].
  destruct src as [l|].
  - destruct (n >? Z.of_nat (length l)); [done|]. intros [= <-].
    cbn [block_ok]. rewrite lookup_insert_eq, length_inserts. lia.
  - destruct (n =? 0); [|done]. intros [= <-]. cbn [block_ok]. rewrite Hblk. lia.
Qed.

Lemma copy_chunk_raw (g : globals) (d : esp_websocket_event_data_t) (r : handler_result) :
  acc_ok g = true → copy_chunk g d = Some r →
  r = quiet (ws_accumulator_reset g)
  ∨ ∃ h chunk_end,
      let a := s_accumulator g in
      active a = true ∧ 0 ≤ chunk_end ≤ expected_len a
      ∧ block_ok h (s_accum_buffer g) = true
      ∧ r = {| globals_after :=
                 set_accumulator
                   (mk_accumulator (buffer a) (capacity a) (expected_len a) chunk_end
                      (opcode a) (chunk_end <? expected_len a))
                   (set_heap h g);
               copied := Some (mk_copy (buffer a) (to_size_t (payload_offset d))
                                 (to_size_t (data_len d)));
               handed_off :=
                 if chunk_end <? expected_len a then None
                 else Some (mk_message (opcode a) (In_accumulator (buffer a)) (expected_len a));
               echo := None |}.
Proof.
  intros Hok. unfold copy_chunk. cbv zeta.
  destruct (active (s_accumulator g)) eqn:Hact; cbn [negb orb]; [|intros [= <-]; by left].
  apply acc_ok_elim in Hok as (H1 & H2 & H3 & H4). cbv zeta in *.
  destruct H4 as (E1 & E2 & E3 & E4); [done|]. rewrite E2.
  destruct (negb (bool_decide (is_Some (data_ptr d))) && (data_len d >? 0));
    [intros [= <-]; by left|].
  set (chunk_end := to_size_t (to_size_t (payload_offset d) + to_size_t (data_len d))).
  pose proof (to_size_t_range (to_size_t (payload_offset d) + to_size_t (data_len d))) as Hr.
  fold chunk_end in Hr.
  destruct (chunk_end >? capacity (s_accumulator g)) eqn:Ecap; [intros [= <-]; by left|].
  destruct (chunk_end >? expected_len (s_accumulator g)) eqn:Eexp; [intros [= <-]; by left|].
  destruct (buffer (s_accumulator g)) as [|b] eqn:Hb; [done|].
  destruct (memcpy (heap g) (Block b) (to_size_t (payload_offset d)) (data_ptr d)
              (to_size_t (data_len d))) as [h|] eqn:Hcpy; [|done].
  rewrite <- E1 in H3. pose proof (memcpy_keeps_block _ _ _ _ _ _ H3 Hcpy) as Hblk.
  cbn [received expected_len buffer capacity opcode active].
  intros Hr'. right. exists h, chunk_end. rewrite <- E1.
  split; [done|]. split; [lia|]. split; [done|].
  destruct (chunk_end <? expected_len (s_accumulator g)) eqn:Elt;
    injection Hr' as <-; done.
Qed.

Lemma copy_chunk_keeps_ok (g : globals) (d : esp_websocket_event_data_t) (r : handler_result) :
  acc_ok g = true → copy_chunk g d = Some r →
  acc_ok (globals_after r) = true
  ∧ (copied r = None → active (s_accumulator (globals_after r)) = false)
  ∧ (is_Some (handed_off r) → active (s_accumulator (globals_after r)) = false)
  ∧ (active (s_accumulator (globals_after r)) = true →
     is_Some (copied r)
     ∧ expected_len (s_accumulator (globals_after r)) = expected_len (s_accumulator g)
     ∧ opcode (s_accumulator (globals_after r)) = opcode (s_accumulator g)).
Proof.
  intros Hok Hcopy.
  destruct (copy_chunk_raw g d r Hok Hcopy) as [->|(h & ce & Hact & Hce & Hblk & ->)].
  { split; [by apply acc_ok_reset|]. done. }
  cbv zeta in *. cbn [globals_after copied handed_off].
  apply acc_ok_elim in Hok as (H1 & H2 & H3 & H4). cbv zeta in *.
  destruct H4 as (E1 & E2 & E3 & E4); [done|].
  split; [|split; [done|split]].
  - apply acc_ok_intro; cbn; try done; try lia.
    all: intros _; repeat split; try done; lia.
  - destruct (ce <? expected_len (s_accumulator g)); [by intros [? ?]|done].
  - cbn. intros _. split; [by eauto|done].
Qed.

Lemma accumulate_keeps_ok (o : oracle) (g : globals) (d : esp_websocket_event_data_t)
    (sop total_len : Z) (r : handler_result) :
  acc_ok g = true → 0 < total_len →
  accumulate o g d sop total_len = Some r →
  acc_ok (globals_after r) = true
  ∧ (is_Some (handed_off r) → active (s_accumulator (globals_after r)) = false)
  ∧ (copied r = None → active (s_accumulator (globals_after r)) = true →
     payload_offset d = 0 ∧ active (s_accumulator g) = true
     ∧ MAX_FRAGMENTED_PAYLOAD < total_len)
  ∧ (active (s_accumulator g) = false →
     active (s_accumulator (globals_after r)) = true →
     is_Some (copied r)
     ∧ expected_len (s_accumulator (globals_after r)) = total_len
     ∧ opcode (s_accumulator (globals_after r)) = sop).
Proof.
  intros Hok Hpos Hacc.
  destruct (accumulate_stages o g d sop total_len Hok Hpos)
    as [(g1 & Hacc1 & Hok1 & Hg1)|(g2 & Hacc2 & Hok2 & Hact2 & Hheap & Hkind)].
  { rewrite Hacc1 in Hacc. injection Hacc as <-. cbn.
    split; [done|]. split; [by intros [? ?]|]. split.
    - intros _ Ha. destruct (Hg1 Ha) as (? & ? & ? & ?). done.
    - intros Hina Ha. destruct (Hg1 Ha) as (? & ? & ? & ?). congruence. }
  rewrite Hacc2 in Hacc.
  destruct (copy_chunk_keeps_ok g2 d r Hok2 Hacc) as (K1 & K2 & K3 & K4).
  split; [done|]. split; [done|]. split.
  - intros Hc Ha. rewrite (K2 Hc) in Ha. done.
  - intros Hina Ha. destruct (K4 Ha) as (C1 & C2 & C3). split; [done|].
    unfold restarts in Hkind. rewrite Hina in Hkind. cbn in Hkind.
    rewrite orb_true_r in Hkind. cbn in Hkind. destruct Hkind as [_ Hk].
    rewrite C2, C3, Hk. done.
Qed.

Lemma echo_section_keeps_ok (o : oracle) (g : globals) (m : message)
    (c : option copy_log) (r : handler_result) :
  acc_ok g = true → echo_section o g m c = Some r →
  acc_ok (globals_after r) = true
  ∧ copied r = c ∧ handed_off r = Some m
  ∧ (active (s_accumulator (globals_after r)) = true → globals_after r = g).
Proof.
  intros Hok. unfold echo_section.
  destruct (negb (connected_before_echo o)).
  { intros [= <-]. cbn. split; [by apply acc_ok_reset|]. done. }
  destruct (send_calls (echo_loop (send_script o) (-1) 0));
    [intros [= <-]; done|].
  destruct (payload_bytes (heap g) m); [intros [= <-]; done|done].
Qed.

Lemma handler_keeps_ok (o : oracle) (g : globals) (event_id : esp_websocket_event_id_t)
    (d : esp_websocket_event_data_t) (r : handler_result) :
  acc_ok g = true → websocket_event_handler o g event_id d = Some r →
  acc_ok (globals_after r) = true.
Proof.
  intros Hok. pose proof (acc_ok_reset g Hok) as Hreset.
  destruct event_id; cbn; try (intros [= <-]; done).
  unfold handle_data.
  destruct (negb (test_running g) || negb (connected_on_entry o)); [intros [= <-]; done|].
  destruct (op_code d >=? 8); [intros [= <-]; done|].
  destruct (echo_opcode (op_code d)) as [sop|]; [|intros [= <-]; done].
  destruct (negb (bool_decide (is_Some (data_ptr d))) && (data_len d >? 0));
    [intros [= <-]; done|].
  destruct (fragmented d && (total_len_of d >? 0)) eqn:Efrag.
  - destruct (accumulate o g d sop (total_len_of d)) as [r0|] eqn:Hacc; [|done].
    destruct (accumulate_keeps_ok o g d sop (total_len_of d) r0 Hok) as (K1 & _); [lia|done|].
    destruct (handed_off r0) as [m|]; [|intros [= <-]; done].
    intros He. by destruct (echo_section_keeps_ok _ _ _ _ _ K1 He).
  - intros He. by destruct (echo_section_keeps_ok _ _ _ _ _ Hok He).
Qed.

Lemma preallocate_keeps_ok (o : oracle) (g : globals) :
  acc_ok g = true → acc_ok (preallocate o g) = true.
Proof.
  intros Hok. pose proof (ensure_buffer_spec o g Hok) as H.
  unfold ensure_buffer in H. unfold preallocate.
  destruct (is_null (s_accum_buffer g)); [|done].
  destruct (malloc o MAX_FRAGMENTED_PAYLOAD g) as [p g1].
  destruct (is_null p); by destruct H.
Qed.

Lemma cleanup_keeps_ok (g : globals) :
  acc_ok g = true → acc_ok (ws_accumulator_cleanup g) = true.
Proof.
  intros Hok. apply acc_ok_reset in Hok. unfold ws_accumulator_cleanup. cbv zeta.
  destruct (s_accum_buffer (ws_accumulator_reset g)); [done|].
  apply acc_ok_elim in Hok as (H1 & H2 & H3 & H4). cbv zeta in *.
  apply acc_ok_intro; cbn in *; try done.
Qed.

Lemma reachable_ok (g : globals) : reachable g → acc_ok g = true.
Proof.
  induction 1 as [|o g event_id d r _ IH Hh|o g _ IH|g _ IH].
  - reflexivity.
  - by apply (handler_keeps_ok o g event_id d r).
  - by apply preallocate_keeps_ok.
  - by apply cleanup_keeps_ok.
Qed.


(** **** Chunks that arrive in order *)

Lemma list_inserts_middle (front old back new : list byte) :
  length new = length old →
  list_inserts (length front) new (front ++ old ++ back) = front ++ new ++ back.
Proof.
  intros Hlen.
  rewrite <- (Nat.add_0_r (length front)).
  rewrite list_inserts_app_r. f_equal. by apply list_inserts_0_r.
Qed.

Lemma take_inserts (l k : list byte) (i : nat) :
  (i + length k ≤ length l)%nat →
  take (i + length k) (list_inserts i k l) = take i l ++ k.
Proof.
  intros Hfit.
  assert (length (take i l) = i) as Hi by (rewrite length_take; lia).
  assert (length (take (length k) (drop i l)) = length k) as Hk.
  { rewrite length_take, length_drop. lia. }
  assert (l = take i l ++ take (length k) (drop i l) ++ drop (length k) (drop i l)) as Hl.
  { by rewrite !take_drop. }
  rewrite Hl at 1. rewrite <- Hi at 2.
  rewrite list_inserts_middle by done.
  rewrite app_assoc. apply take_app_length'.
  rewrite length_app. lia.
Qed.

Lemma accumulate_continues (o : oracle) (g : globals) (d : esp_websocket_event_data_t)
    (sop total_len : Z) :
  acc_ok g = true → active (s_accumulator g) = true →
  restarts g d total_len = false →
  accumulate o g d sop total_len = copy_chunk g d.
Proof.
  intros Hok Hact Hres.
  pose proof (active_has_buffer g Hok Hact) as Hn.
  apply acc_ok_elim in Hok as (H1 & H2 & H3 & H4). cbv zeta in *.
  destruct H4 as (E1 & E2 & E3 & E4); [done|].
  unfold restarts in Hres.
  apply orb_false_elim in Hres as [Hres Hlen].
  unfold accumulate. rewrite ensure_buffer_live by done.
  rewrite prepare_for_chunk_live by (done || lia). cbv zeta.
  rewrite Hres, Hlen. done.
Qed.

Lemma frame_event_ok (c : list byte) (op total off : Z) :
  0 ≤ op < 256 → 0 ≤ off → off + Z.of_nat (length c) ≤ total →
  total ≤ MAX_FRAGMENTED_PAYLOAD →
  event_ok {| data_ptr := Some c; data_len := Z.of_nat (length c); fin := false;
              op_code := op; payload_len := total; payload_offset := off |} = true.
Proof.
  intros Hop Hoff Hfit Hmax. pose proof MAX_val. unfold event_ok, INT_MAX. cbn.
  repeat (apply andb_true_intro; split); lia.
Qed.

(** The chunks after the first: the accumulator holds the bytes up to
    [off]; when the remaining chunks have arrived, each at the offset
    where the previous one ended, the message is handed over and the
    buffer starts with the old prefix followed by the new chunks. *)
Lemma feed_remaining (o : oracle) (sop op total : Z) (b : nat) (rest : list (list byte)) :
  0 ≤ op < 256 →
  rest ≠ [] → Forall (λ c, c ≠ []) rest →
  ∀ (g : globals) (off : Z) (blk : list byte),
    0 < off →
    acc_ok g = true → active (s_accumulator g) = true →
    expected_len (s_accumulator g) = total → opcode (s_accumulator g) = sop →
    buffer (s_accumulator g) = Block b → heap g !! b = Some blk →
    off + Z.of_nat (length (concat rest)) = total →
    ∃ r blk1,
      feed o g sop (frame_events op total off rest) = Some r
      ∧ handed_off r = Some (mk_message sop (In_accumulator (Block b)) total)
      ∧ active (s_accumulator (globals_after r)) = false
      ∧ heap (globals_after r) !! b = Some blk1
      ∧ Z.of_nat (length blk1) = MAX_FRAGMENTED_PAYLOAD
      ∧ take (Z.to_nat total) blk1 = take (Z.to_nat off) blk ++ concat rest.
Proof.
  intros Hop Hne Hall. induction Hall as [|c rest Hc Hall IH]; [done|].
  intros g off blk Hoff Hok Hact Hexp Hopc Hbuf Hblk Htotal.
  cbn [concat] in Htotal. rewrite length_app in Htotal.
  cbn [frame_events feed].
  set (d := {| data_ptr := Some c; data_len := Z.of_nat (length c); fin := false;
               op_code := op; payload_len := total; payload_offset := off |}).
  apply acc_ok_elim in Hok as Hinv. cbv zeta in Hinv.
  destruct Hinv as (H1 & H2 & H3 & H4).
  destruct H4 as (E1 & E2 & E3 & E4); [done|].
  assert (total ≤ MAX_FRAGMENTED_PAYLOAD) as Hmax by lia.
  assert (event_ok d = true) as Hev by (apply frame_event_ok; lia).
  assert (total_len_of d = total) as Htl.
  { unfold total_len_of. cbn. destruct (total =? 0) eqn:E0; [lia|].
    apply to_size_t_int. pose proof MAX_val. unfold INT_MAX. lia. }
  rewrite Htl.
  rewrite accumulate_continues; [|done|done|].
  2:{ unfold restarts. rewrite Hact. cbn.
      destruct (off =? 0) eqn:E0; [lia|]. cbn.
      destruct (total =? expected_len (s_accumulator g)) eqn:El; [done|lia]. }
  destruct (copy_chunk_spec g d Hok Hev Hact) as (b' & blk' & Hb' & Hblk' & Hlen & Hcopy).
  assert (b' = b) as -> by congruence.
  assert (blk' = blk) as -> by congruence.
  cbv zeta in Hcopy. cbn [payload_offset data_len data_ptr d default] in Hcopy.
  destruct (off + Z.of_nat (length c) >? expected_len (s_accumulator g)) eqn:Efit; [lia|].
  assert (length c ≠ 0%nat) as Hclen by (by destruct c).
  assert (take (Z.to_nat (off + Z.of_nat (length c)))
            (list_inserts (Z.to_nat off) c blk)
          = take (Z.to_nat off) blk ++ c) as Htake.
  { replace (Z.to_nat (off + Z.of_nat (length c))) with (Z.to_nat off + length c)%nat by lia.
    apply take_inserts. lia. }
  destruct rest as [|c1 rest].
  - (* the last chunk *)
    cbn [concat length] in Htotal.
    destruct (off + Z.of_nat (length c) <? expected_len (s_accumulator g)) eqn:Elt; [lia|].
    rewrite Hcopy. cbn [frame_events negb].
    eexists. exists (list_inserts (Z.to_nat off) c blk).
    split; [done|]. cbn [handed_off globals_after]. rewrite Hopc, Hexp.
    split; [done|]. split; [done|]. cbn. rewrite lookup_insert_eq.
    split; [done|]. rewrite length_inserts. split; [done|].
    rewrite app_nil_r. rewrite <- Htake. f_equal. lia.
  - (* more chunks follow *)
    assert (length c1 ≠ 0%nat) as Hc1.
    { apply Forall_cons in Hall as [Hc1 _]. by destruct c1. }
    cbn [concat] in Htotal. rewrite length_app in Htotal.
    destruct (off + Z.of_nat (length c) <? expected_len (s_accumulator g)) eqn:Elt; [|lia].
    rewrite Hcopy. cbn [negb globals_after].
    change (frame_events op total (off + Z.of_nat (length c)) (c1 :: rest))
      with ({| data_ptr := Some c1; data_len := Z.of_nat (length c1); fin := false;
               op_code := op; payload_len := total;
               payload_offset := off + Z.of_nat (length c) |}
            :: frame_events op total (off + Z.of_nat (length c) + Z.of_nat (length c1)) rest).
    cbv iota.
    change ({| data_ptr := Some c1; data_len := Z.of_nat (length c1); fin := false;
               op_code := op; payload_len := total;
               payload_offset := off + Z.of_nat (length c) |}
            :: frame_events op total (off + Z.of_nat (length c) + Z.of_nat (length c1)) rest)
      with (frame_events op total (off + Z.of_nat (length c)) (c1 :: rest)).
    set (g1 := set_accumulator _ _).
    assert (acc_ok g1 = true) as Hok1.
    { assert (copy_chunk g d = Some {| globals_after := g1;
                copied := Some (mk_copy (Block b) off (Z.of_nat (length c)));
                handed_off := None; echo := None |}) as Hc' by (by rewrite Hcopy).
      by destruct (copy_chunk_keeps_ok g d _ Hok Hc') as [? _]. }
    destruct (IH ltac:(done) g1 (off + Z.of_nat (length c))
                (list_inserts (Z.to_nat off) c blk))
      as (r & blk1 & Hfeed & Hhand & Hina & Hheap & Hlen1 & Htake1); try done; try lia.
    { subst g1. cbn. by rewrite lookup_insert_eq. }
    { cbn [concat]. rewrite length_app. lia. }
    exists r, blk1. split; [done|]. split; [done|]. split; [done|].
    split; [done|]. split; [done|].
    rewrite Htake1, Htake. cbn [concat]. by rewrite <- app_assoc.
Qed.

(** A frame that arrives in order, in two or more non-empty chunks
    whose lengths add up to the declared total: whatever the accumulator
    held before, the message handed to the echo section is the
    concatenation of these chunks. *)
Lemma in_order_reassembly (o : oracle) (g : globals) (sop op total : Z)
    (first : list byte) (rest : list (list byte)) :
  acc_ok g = true → is_null (s_accum_buffer g) = false →
  0 ≤ op < 256 →
  first ≠ [] → rest ≠ [] → Forall (λ c, c ≠ []) rest →
  Z.of_nat (length (first ++ concat rest)) = total →
  total ≤ MAX_FRAGMENTED_PAYLOAD →
  ∃ r m,
    feed o g sop (frame_events op total 0 (first :: rest)) = Some r
    ∧ handed_off r = Some m
    ∧ m_opcode m = sop ∧ m_len m = total
    ∧ payload_bytes (heap (globals_after r)) m = Some (first ++ concat rest)
    ∧ active (s_accumulator (globals_after r)) = false.
Proof.
  intros Hok Hn Hop Hfirst Hrest Hall Htotal Hmax.
  rewrite length_app in Htotal.
  assert (length first ≠ 0%nat) as Hflen by (by destruct first).
  assert (length (concat rest) ≠ 0%nat) as Hrlen.
  { destruct rest as [|c rest]; [done|].
    apply Forall_cons in Hall as [Hc _]. cbn. rewrite length_app.
    destruct c; [done|]. cbn. lia. }
  cbn [frame_events feed].
  set (d := {| data_ptr := Some first; data_len := Z.of_nat (length first); fin := false;
               op_code := op; payload_len := total; payload_offset := 0 |}).
  assert (event_ok d = true) as Hev by (apply frame_event_ok; lia).
  assert (total_len_of d = total) as Htl.
  { unfold total_len_of. cbn. destruct (total =? 0) eqn:E0; [lia|].
    apply to_size_t_int. pose proof MAX_val. unfold INT_MAX. lia. }
  rewrite Htl.
  destruct (restart_result_buffer o g d sop total Hok Hev Hn)
    as (b & blk & Hb & Hblk & Hlen & Hacc); [lia|done|cbn; lia|].
  cbv zeta in Hacc. cbn [payload_offset data_len data_ptr d default] in Hacc.
  rewrite Z.add_0_l in Hacc.
  destruct (Z.of_nat (length first) <? total) eqn:Elt; [|lia].
  rewrite Hacc. cbn [negb globals_after].
  destruct rest as [|c1 rest]; [done|].
  change (frame_events op total (0 + Z.of_nat (length first)) (c1 :: rest))
    with ({| data_ptr := Some c1; data_len := Z.of_nat (length c1); fin := false;
             op_code := op; payload_len := total;
             payload_offset := 0 + Z.of_nat (length first) |}
          :: frame_events op total (0 + Z.of_nat (length first) + Z.of_nat (length c1)) rest).
  cbv iota.
  change ({| data_ptr := Some c1; data_len := Z.of_nat (length c1); fin := false;
             op_code := op; payload_len := total;
             payload_offset := 0 + Z.of_nat (length first) |}
          :: frame_events op total (0 + Z.of_nat (length first) + Z.of_nat (length c1)) rest)
    with (frame_events op total (0 + Z.of_nat (length first)) (c1 :: rest)).
  rewrite Z.add_0_l.
  set (g1 := set_accumulator _ _).
  assert (acc_ok g1 = true) as Hok1.
  { pose proof (accumulate_keeps_ok o g d sop total _ Hok ltac:(lia) Hacc) as [? _].
    done. }
  destruct (feed_remaining o sop op total b (c1 :: rest) Hop Hrest Hall g1
              (Z.of_nat (length first)) (list_inserts 0 first blk))
    as (r & blk1 & Hfeed & Hhand & Hina & Hheap & Hlen1 & Htake1); try done; try lia.
  { subst g1. cbn. by rewrite lookup_insert_eq. }
  exists r, (mk_message sop (In_accumulator (Block b)) total).
  split; [done|]. split; [done|]. split; [done|]. split; [done|]. split; [|done].
  unfold payload_bytes, load. cbn [m_len m_payload].
  destruct (total >? 0) eqn:Epos; [|lia]. rewrite Hheap.
  destruct (total >? Z.of_nat (length blk1)) eqn:Ebig; [lia|].
  rewrite Htake1. f_equal. f_equal.
  replace (Z.to_nat (Z.of_nat (length first))) with (0 + length first)%nat by lia.
  rewrite take_inserts by lia. done.
Qed.

(** C6, as the code has it. A fragmented chunk with offset 0 that
    arrives while the accumulator is active, and whose declared total
    length is within [MAX_FRAGMENTED_PAYLOAD], preempts the message in
    flight: the result is the one the same chunk gives on the reset
    accumulator. The accumulator then expects the new total, has
    received the chunk's length, records the chunk's opcode and stays
    active; the chunk's bytes sit at the start of the buffer; nothing
    is handed to the echo section. And a new message that then arrives
    in order, in non-empty chunks, is handed over as the concatenation
    of its own chunks: no byte of the preempted message is in it. *)
Theorem offset_zero_preempts (o : oracle) (g : globals)
    (d : esp_websocket_event_data_t) (sop : Z) :
  acc_ok g = true → event_ok d = true →
  active (s_accumulator g) = true →
  payload_offset d = 0 → fragmented d = true →
  total_len_of d ≤ MAX_FRAGMENTED_PAYLOAD →
  accumulate o g d sop (total_len_of d)
  = accumulate o (ws_accumulator_reset g) d sop (total_len_of d)
  ∧ (∃ b blk,
      buffer (s_accumulator g) = Block b ∧ heap g !! b = Some blk
      ∧ accumulate o g d sop (total_len_of d) =
        Some {| globals_after :=
                  set_accumulator
                    (mk_accumulator (Block b) MAX_FRAGMENTED_PAYLOAD (total_len_of d)
                       (data_len d) sop true)
                    (set_heap
                       (<[b := list_inserts 0 (default [] (data_ptr d)) blk]> (heap g)) g);
                copied := Some (mk_copy (Block b) 0 (data_len d));
                handed_off := None;
                echo := None |})
  ∧ ∀ (op total : Z) (first : list byte) (rest : list (list byte)),
      0 ≤ op < 256 →
      first ≠ [] → rest ≠ [] → Forall (λ c, c ≠ []) rest →
      Z.of_nat (length (first ++ concat rest)) = total →
      total ≤ MAX_FRAGMENTED_PAYLOAD →
      ∃ r m,
        feed o g sop (frame_events op total 0 (first :: rest)) = Some r
        ∧ handed_off r = Some m
        ∧ m_opcode m = sop ∧ m_len m = total
        ∧ payload_bytes (heap (globals_after r)) m = Some (first ++ concat rest).
Proof.
  intros Hok Hev Hact Hoff Hfrag Hmax.
  apply event_ok_elim in Hev as Hd. destruct Hd as (D1 & D2 & D3 & D4 & D5).
  assert (total_len_of d = payload_len d ∧ data_len d < payload_len d) as [Htl Hlt].
  { unfold fragmented in Hfrag. unfold total_len_of.
    destruct (payload_len d =? 0) eqn:E0; [lia|].
    rewrite to_size_t_int by done. lia. }
  assert (restarts g d (total_len_of d) = true) as Hres.
  { unfold restarts. destruct (payload_offset d =? 0) eqn:E; [done|lia]. }
  split; [|split].
  - apply restart_forgets; [done|done|lia|done].
  - destruct (restart_result o g d sop (total_len_of d)) as (b & blk & Hb & Hblk & Hacc);
      try done; try lia.
    exists b, blk. split; [done|]. split; [done|].
    rewrite Hacc. cbv zeta. rewrite Hoff, Z.add_0_l.
    destruct (data_len d <? total_len_of d) eqn:E; [done|lia].
  - intros op total first rest Hop Hfirst Hrest Hall Htotal Htmax.
    destruct (in_order_reassembly o g sop op total first rest)
      as (r & m & H1 & H2 & H3 & H4 & H5 & _); try done.
    { by apply active_has_buffer. }
    exists r, m. done.
Qed.

(** C9, as the code has it. A chunk that arrives while the accumulator
    is active, with a non-zero offset and a declared total length that
    differs from the expected one, is not rejected when the new total is
    within [MAX_FRAGMENTED_PAYLOAD] and the chunk ends within it: the
    accumulator is prepared anew (the result is the one the chunk gives
    on the reset accumulator), the chunk is copied at its offset,
    [received] becomes offset plus length, and the bytes of the buffer
    outside the chunk stay as they were. *)
Theorem length_change_restarts (o : oracle) (g : globals)
    (d : esp_websocket_event_data_t) (sop total_len : Z) :
  acc_ok g = true → event_ok d = true →
  active (s_accumulator g) = true →
  payload_offset d ≠ 0 →
  total_len ≠ expected_len (s_accumulator g) →
  0 < total_len ≤ MAX_FRAGMENTED_PAYLOAD →
  payload_offset d + data_len d ≤ total_len →
  accumulate o g d sop total_len
  = accumulate o (ws_accumulator_reset g) d sop total_len
  ∧ ∃ b blk,
      buffer (s_accumulator g) = Block b ∧ heap g !! b = Some blk
      ∧ accumulate o g d sop total_len =
        let chunk_end := payload_offset d + data_len d in
        let done_ := negb (chunk_end <? total_len) in
        Some {| globals_after :=
                  set_accumulator
                    (mk_accumulator (Block b) MAX_FRAGMENTED_PAYLOAD total_len chunk_end
                       sop (negb done_))
                    (set_heap
                       (<[b := list_inserts (Z.to_nat (payload_offset d))
                                 (default [] (data_ptr d)) blk]> (heap g)) g);
                copied := Some (mk_copy (Block b) (payload_offset d) (data_len d));
                handed_off :=
                  if done_ then Some (mk_message sop (In_accumulator (Block b)) total_len)
                  else None;
                echo := None |}.
Proof.
  intros Hok Hev Hact Hoff Hne Htl Hfit.
  assert (restarts g d total_len = true) as Hres.
  { unfold restarts. destruct (total_len =? expected_len (s_accumulator g)) eqn:E; [lia|].
    apply orb_true_r. }
  split.
  - by apply restart_forgets.
  - by apply restart_result.
Qed.


(** **** The DATA case, path by path *)

Lemma handle_data_cases (o : oracle) (g : globals) (d : esp_websocket_event_data_t)
    (r : handler_result) :
  handle_data o g d = Some r →
  r = quiet (ws_accumulator_reset g)
  ∨ (r = quiet g
     ∧ (8 ≤ op_code d ∨ echo_opcode (op_code d) = None
        ∨ (data_ptr d = None ∧ 0 < data_len d)))
  ∨ (∃ sop r0,
       echo_opcode (op_code d) = Some sop
       ∧ fragmented d = true ∧ 0 < total_len_of d
       ∧ accumulate o g d sop (total_len_of d) = Some r0
       ∧ match handed_off r0 with
         | None => r = r0
         | Some m => echo_section o (globals_after r0) m (copied r0) = Some r
         end)
  ∨ (∃ sop,
       echo_opcode (op_code d) = Some sop
       ∧ fragmented d && (total_len_of d >? 0) = false
       ∧ echo_section o g
           (mk_message sop (In_event (data_ptr d)) (to_size_t (data_len d))) None
         = Some r).
Proof.
  unfold handle_data.
  destruct (negb (test_running g) || negb (connected_on_entry o));
    [intros [= <-]; by left|].
  destruct (op_code d >=? 8) eqn:Eop;
    [intros [= <-]; right; left; split; [done|left; lia]|].
  destruct (echo_opcode (op_code d)) as [sop|];
    [|intros [= <-]; right; left; split; [done|right; by left]].
  destruct (negb (bool_decide (is_Some (data_ptr d))) && (data_len d >? 0)) eqn:Enull.
  { intros [= <-]. right. left. split; [done|]. right. right.
    apply andb_prop in Enull as [E1 E2]. split; [|lia].
    destruct (data_ptr d); [done|done]. }
  destruct (fragmented d && (total_len_of d >? 0)) eqn:Efrag.
  - apply andb_prop in Efrag as [F1 F2].
    destruct (accumulate o g d sop (total_len_of d)) as [r0|] eqn:Hacc; [|done].
    intros Hr. right. right. left. exists sop, r0.
    split; [done|]. split; [done|]. split; [lia|]. split; [done|].
    destruct (handed_off r0); [done|]. by injection Hr as <-.
  - intros Hr. right. right. right. by exists sop.
Qed.

(** C3, as the code has it. A chunk that arrives while the accumulator
    is active is checked, before the copy, against the capacity and the
    expected length the accumulator holds at that point. That is the
    length declared earlier only for a chunk that continues the message
    in flight (offset not 0, same declared total): such a chunk, if its
    offset plus length exceeds either, is rejected and the accumulator
    is reset, that is, it is inactive with expected length, received
    count and opcode 0, and keeps its buffer and capacity; the heap and
    the other statics are as before. A chunk that has offset 0 or
    declares another total restarts the accumulation first and is
    checked against its own total: if that is within
    [MAX_FRAGMENTED_PAYLOAD] and the chunk exceeds it, or if it is above
    [MAX_FRAGMENTED_PAYLOAD] and the offset is not 0, the outcome is
    the same rejection (for offset 0 above the limit see C2). Whenever
    nothing is copied the heap is unchanged and nothing is handed over.
    Consequently every accumulation returns, and a copy it performs
    lies within the expected length, which lies within the capacity,
    which is the size of the buffer. *)
Theorem fragment_chunk_bounds (o : oracle) (g : globals)
    (d : esp_websocket_event_data_t) (sop total_len : Z) :
  acc_ok g = true → event_ok d = true → 0 < total_len →
  let a := s_accumulator g in
  let chunk_end := payload_offset d + data_len d in
  let rejected :=
    {| globals_after :=
         set_accumulator (mk_accumulator (buffer a) (capacity a) 0 0 0 false) g;
       copied := None; handed_off := None; echo := None |} in
  (active a = true →
   (capacity a < chunk_end ∨ expected_len a < chunk_end →
    copy_chunk g d = Some rejected)
   ∧ (restarts g d total_len = false →
      capacity a < chunk_end ∨ expected_len a < chunk_end →
      accumulate o g d sop total_len = Some rejected)
   ∧ (restarts g d total_len = true →
      total_len ≤ MAX_FRAGMENTED_PAYLOAD → total_len < chunk_end →
      accumulate o g d sop total_len = Some rejected)
   ∧ (restarts g d total_len = true →
      MAX_FRAGMENTED_PAYLOAD < total_len → payload_offset d ≠ 0 →
      accumulate o g d sop total_len = Some rejected)
   ∧ ∀ r, accumulate o g d sop total_len = Some r → copied r = None →
       heap (globals_after r) = heap g ∧ handed_off r = None)
  ∧ ∃ r, accumulate o g d sop total_len = Some r
      ∧ ∀ c, copied r = Some c →
          let a' := s_accumulator (globals_after r) in
          cp_dst c = buffer a' ∧ cp_off c = payload_offset d ∧ cp_len c = data_len d
          ∧ 0 ≤ cp_off c ∧ 0 ≤ cp_len c
          ∧ cp_off c + cp_len c ≤ expected_len a'
          ∧ expected_len a' ≤ capacity a'
          ∧ ∃ b blk, buffer a' = Block b ∧ heap (globals_after r) !! b = Some blk
                     ∧ Z.of_nat (length blk) = capacity a'.
Proof.
  intros Hok Hev Hpos. cbv zeta. split.
  - intros Hact.
    pose proof (active_has_buffer g Hok Hact) as Hn.
    apply acc_ok_elim in Hok as Hinv. cbv zeta in Hinv.
    destruct Hinv as (H1 & H2 & H3 & H4).
    destruct H4 as (E1 & E2 & E3 & E4); [done|].
    (* the check on the accumulator as it is *)
    assert (capacity (s_accumulator g) < payload_offset d + data_len d
            ∨ expected_len (s_accumulator g) < payload_offset d + data_len d →
            copy_chunk g d = Some (quiet (ws_accumulator_reset g))) as Hcheck.
    { intros Hex.
      destruct (copy_chunk_spec g d Hok Hev Hact) as (b & blk & Hb & Hblk & Hlen & Hcopy).
      cbv zeta in Hcopy.
      destruct (payload_offset d + data_len d >? expected_len (s_accumulator g)) eqn:E;
        [done|lia]. }
    (* the check after a restart *)
    set (fresh := set_accumulator
                    (mk_accumulator (s_accum_buffer g) MAX_FRAGMENTED_PAYLOAD total_len 0
                       sop true) g).
    assert (total_len ≤ MAX_FRAGMENTED_PAYLOAD →
            acc_ok fresh = true
            ∧ (total_len < payload_offset d + data_len d →
               copy_chunk fresh d = Some (quiet (ws_accumulator_reset g)))) as Hfresh.
    { intros Hmax.
      assert (acc_ok fresh = true) as Hokf by (apply acc_ok_fresh; [done|done|lia]).
      split; [done|]. intros Hex.
      destruct (copy_chunk_spec fresh d Hokf Hev eq_refl)
        as (b & blk & Hb & Hblk & Hlen & Hcopy).
      cbv zeta in Hcopy. cbn [fresh s_accumulator set_accumulator expected_len] in Hcopy.
      destruct (payload_offset d + data_len d >? total_len) eqn:E; [|lia].
      rewrite Hcopy. unfold fresh, ws_accumulator_reset. cbn.
      by rewrite E1, E3. }
    (* what the accumulation does with the chunk *)
    assert (accumulate o g d sop total_len
            = if (payload_offset d =? 0) || negb (total_len =? expected_len (s_accumulator g))
              then if total_len >? MAX_FRAGMENTED_PAYLOAD
                   then Some (quiet (if payload_offset d =? 0
                                     then g else ws_accumulator_reset g))
                   else copy_chunk fresh d
              else copy_chunk g d) as Hacc.
    { unfold accumulate. rewrite ensure_buffer_live by done.
      rewrite prepare_for_chunk_live by done. cbv zeta. rewrite Hact. cbn [negb].
      rewrite orb_false_r. fold fresh.
      destruct (payload_offset d =? 0); cbn [orb].
      - by destruct (total_len >? MAX_FRAGMENTED_PAYLOAD).
      - destruct (negb (total_len =? expected_len (s_accumulator g))); [|done].
        by destruct (total_len >? MAX_FRAGMENTED_PAYLOAD). }
    assert (restarts g d total_len
            = (payload_offset d =? 0) || negb (total_len =? expected_len (s_accumulator g)))
      as Hres.
    { unfold restarts. rewrite Hact. cbn [negb]. by rewrite orb_false_r. }
    rewrite Hres, Hacc.
    split; [exact Hcheck|]. split; [|split; [|split]].
    + intros ->. exact Hcheck.
    + intros -> Hmax Hex.
      destruct (total_len >? MAX_FRAGMENTED_PAYLOAD) eqn:E; [lia|].
      by apply Hfresh.
    + intros -> Hmax Hoff.
      destruct (total_len >? MAX_FRAGMENTED_PAYLOAD) eqn:E; [|lia].
      destruct (payload_offset d =? 0) eqn:E0; [lia|done].
    + intros r Hr Hc.
      assert (∀ g0, acc_ok g0 = true → heap g0 = heap g → copy_chunk g0 d = Some r →
                heap (globals_after r) = heap g ∧ handed_off r = None) as Hcopy.
      { intros g0 Hok0 Hheap Hcp.
        destruct (copy_chunk_raw g0 d r Hok0 Hcp) as [->|(h & ce & _ & _ & _ & ->)];
          [done|]. cbv zeta in Hc. discriminate Hc. }
      destruct ((payload_offset d =? 0)
                || negb (total_len =? expected_len (s_accumulator g))).
      * destruct (total_len >? MAX_FRAGMENTED_PAYLOAD) eqn:E.
        -- injection Hr as <-. cbn. by destruct (payload_offset d =? 0).
        -- destruct Hfresh as [Hokf _]; [lia|]. by apply (Hcopy fresh).
      * by apply (Hcopy g).
  - destruct (accumulate_stages o g d sop total_len Hok Hpos)
      as [(g1 & Hacc & Hok1 & Hg1)|(g2 & Hacc & Hok2 & Hact2 & Hheap & Hkind)].
    { exists (quiet g1). split; [done|]. intros c Hc. discriminate Hc. }
    destruct (copy_chunk_spec g2 d Hok2 Hev Hact2) as (b & blk & Hb & Hblk & Hlen & Hcopy).
    cbv zeta in Hcopy. rewrite Hacc, Hcopy.
    apply acc_ok_elim in Hok2 as Hinv. cbv zeta in Hinv.
    destruct Hinv as (H1 & H2 & H3 & H4).
    destruct H4 as (E1 & E2 & E3 & E4); [done|].
    apply event_ok_elim in Hev as (D1 & D2 & D3 & D4 & D5).
    destruct (payload_offset d + data_len d >? expected_len (s_accumulator g2)) eqn:E.
    { eexists. split; [done|]. intros c Hc. discriminate Hc. }
    eexists. split; [done|]. intros c Hc. simpl in Hc. injection Hc as <-. simpl.
    repeat split; try lia.
    exists b, (list_inserts (Z.to_nat (payload_offset d)) (default [] (data_ptr d)) blk).
    split; [done|]. split; [by rewrite lookup_insert_eq|].
    rewrite length_inserts. lia.
Qed.

(** C5, as the code has it. In every state between two calls of the
    handler [received <= expected_len <= capacity]. A call activates an
    inactive accumulator only by preparing it for a fragmented data
    chunk, which it then copies (whatever the chunk's offset). The
    accumulator is inactive after a message under reassembly was handed
    to the echo section and after a Disconnected, Error or Finished
    event. A data event that copies nothing leaves the accumulator
    active only by changing nothing at all, and only in these cases:
    its opcode is not 0, 1 or 2; its data pointer is null with a
    length above 0; it is not fragmented, or its total length is 0
    (it is echoed directly); or it has offset 0, comes while an
    accumulation is in flight and declares more than
    [MAX_FRAGMENTED_PAYLOAD] bytes (C2). After every other data event
    that copies nothing the accumulator is inactive. *)
Theorem accumulator_lifecycle (o : oracle) (g : globals)
    (event_id : esp_websocket_event_id_t) (d : esp_websocket_event_data_t)
    (r : handler_result) :
  reachable g →
  websocket_event_handler o g event_id d = Some r →
  let a := s_accumulator g in
  let a' := s_accumulator (globals_after r) in
  (received a ≤ expected_len a ∧ expected_len a ≤ capacity a)
  ∧ (received a' ≤ expected_len a' ∧ expected_len a' ≤ capacity a')
  ∧ (active a = false → active a' = true →
     event_id = WEBSOCKET_EVENT_DATA ∧ fragmented d = true
     ∧ is_Some (copied r)
     ∧ expected_len a' = total_len_of d
     ∧ echo_opcode (op_code d) = Some (opcode a'))
  ∧ (∀ m p, handed_off r = Some m → m_payload m = In_accumulator p → active a' = false)
  ∧ (event_id = WEBSOCKET_EVENT_DISCONNECTED ∨ event_id = WEBSOCKET_EVENT_ERROR
     ∨ event_id = WEBSOCKET_EVENT_FINISH → active a' = false)
  ∧ (event_id = WEBSOCKET_EVENT_DATA → copied r = None → active a' = true →
     globals_after r = g
     ∧ (echo_opcode (op_code d) = None
        ∨ (data_ptr d = None ∧ 0 < data_len d)
        ∨ fragmented d = false
        ∨ total_len_of d = 0
        ∨ (payload_offset d = 0 ∧ active a = true
           ∧ MAX_FRAGMENTED_PAYLOAD < total_len_of d))).
Proof.
  intros Hreach Hh. cbv zeta.
  pose proof (reachable_ok g Hreach) as Hok.
  pose proof (handler_keeps_ok o g event_id d r Hok Hh) as Hok'.
  apply acc_ok_elim in Hok as Hinv. apply acc_ok_elim in Hok' as Hinv'.
  cbv zeta in Hinv, Hinv'.
  destruct Hinv as (I1 & I2 & _ & _). destruct Hinv' as (I1' & I2' & _ & _).
  split; [lia|]. split; [lia|].
  destruct event_id; cbn in Hh;
    try (injection Hh as <-; cbn;
         repeat split; intros; try done; try congruence;
         match goal with H : _ ∨ _ |- _ => by destruct H as [|[|]] end).
  (* the DATA case *)
  apply handle_data_cases in Hh
    as [->|[[-> Hwhy]|[(sop & r0 & Hop & Hfrag & Htl & Hacc & Hr)|(sop & Hop & Eunfrag & He)]]].
  - cbn. split; [done|]. split; [done|]. split; [done|]. done.
  - cbn. split; [congruence|]. split; [done|]. split; [by intros [|[|]]|].
    intros _ _ _. split; [done|].
    destruct Hwhy as [Hw|[Hw|[Hw1 Hw2]]].
    + left. unfold echo_opcode.
      destruct (op_code d =? 1) eqn:E1; [lia|].
      destruct (op_code d =? 2) eqn:E2; [lia|].
      destruct (op_code d =? 0) eqn:E0; [lia|done].
    + by left.
    + right. by left.
  - destruct (accumulate_keeps_ok o g d sop (total_len_of d) r0 Hok Htl Hacc)
      as (K1 & K2 & K3 & K4).
    assert (copied r = copied r0 ∧ handed_off r = handed_off r0
            ∧ (active (s_accumulator (globals_after r)) = true →
               globals_after r = globals_after r0)) as (C1 & C2 & C3).
    { destruct (handed_off r0) as [m|] eqn:Hm; [|by subst r].
      destruct (echo_section_keeps_ok _ _ _ _ _ K1 Hr) as (_ & ? & ? & ?). done. }
    split; [|split; [|split; [by intros [|[|]]|]]].
    + intros Hina Ha. pose proof (C3 Ha) as Hsame. rewrite Hsame in *.
      destruct (K4 Hina Ha) as (? & ? & ?). rewrite C1. subst sop. done.
    + intros m p Hm _.
      destruct (active (s_accumulator (globals_after r))) eqn:Ha; [|done].
      rewrite (C3 eq_refl) in Ha. rewrite C2 in Hm. rewrite K2 in Ha; [done|by eauto].
    + intros _ Hc Ha. pose proof (C3 Ha) as Hsame. rewrite Hsame in *.
      rewrite C1 in Hc. destruct (K3 Hc Ha) as (Hoff & Hact & Hmax).
      split; [|by do 4 right].
      destruct (accumulate_stages o g d sop (total_len_of d) Hok Htl)
        as [(g1 & Hacc1 & _ & Hg1)|(g2 & Hacc2 & Hok2 & _)].
      * rewrite Hacc1 in Hacc. injection Hacc as <-. cbn in Ha |- *.
        by destruct (Hg1 Ha) as (_ & _ & _ & ->).
      * rewrite Hacc2 in Hacc.
        destruct (copy_chunk_keeps_ok g2 d r0 Hok2 Hacc) as (_ & Q & _).
        rewrite (Q Hc) in Ha. done.
  - destruct (echo_section_keeps_ok _ _ _ _ _ Hok He) as (_ & C1 & C2 & C3).
    split; [|split; [|split; [by intros [|[|]]|]]].
    + intros Hina Ha. rewrite (C3 Ha) in Ha. congruence.
    + intros m p Hm Hp. rewrite C2 in Hm. injection Hm as <-. done.
    + intros _ _ Ha. split; [by apply C3|].
      right. right. apply andb_false_iff in Eunfrag as [Hf|Ht]; [by left|].
      right. left. pose proof (to_size_t_range (data_len d)).
      pose proof (to_size_t_range (payload_len d)).
      unfold total_len_of in *. destruct (payload_len d =? 0); lia.
Qed.


(** C7, as the code has it. While the test is running and the client
    reports connected, a data event for a control frame (opcode 8 and
    above) leaves all statics as they were, the accumulator and its
    buffer included; nothing is copied, handed over or echoed. A ping
    makes the client send exactly one pong with the ping's payload. *)
Theorem control_frame_leaves_accumulator (o : oracle) (g : globals)
    (d : esp_websocket_event_data_t) :
  test_running g = true → connected_on_entry o = true → 8 ≤ op_code d →
  websocket_event_handler o g WEBSOCKET_EVENT_DATA d = Some (quiet g)
  ∧ (op_code d = WS_TRANSPORT_OPCODES_PING →
     client_read_cycle o g d
     = Some (quiet g, [(WS_TRANSPORT_OPCODES_PONG, default [] (data_ptr d))])).
Proof.
  intros Hrun Hconn Hop.
  assert (websocket_event_handler o g WEBSOCKET_EVENT_DATA d = Some (quiet g)) as Hh.
  { cbn. unfold handle_data. rewrite Hrun, Hconn. cbn.
    destruct (op_code d >=? 8) eqn:E; [done|lia]. }
  split; [done|]. intros Hping. unfold client_read_cycle. rewrite Hh, Hping. done.
Qed.

(** **** The echo retry loop *)

Lemma take_app_replicate (l : list Z) (x : Z) (k m : nat) :
  (k ≤ m)%nat → take k (l ++ replicate m x) = take k (l ++ replicate k x).
Proof.
  revert k m. induction l as [|y l IH]; intros k m Hkm.
  - cbn. rewrite !take_replicate. f_equal. lia.
  - destruct k as [|k]; [done|]. cbn [app take]. f_equal.
    rewrite (IH k m) by lia. rewrite (IH k (S k)) by lia. done.
Qed.

Lemma retry_schedule_from_S (attempt k : nat) :
  retry_schedule_from attempt (S k)
  = (if (attempt <? length backoff)%nat then nth attempt backoff 0 else 32)
    :: retry_schedule_from
         (if (attempt <? length backoff)%nat then S attempt else attempt) k.
Proof.
  unfold retry_schedule_from.
  destruct (attempt <? length backoff)%nat eqn:E.
  - apply Nat.ltb_lt in E.
    assert (drop attempt backoff = nth attempt backoff 0 :: drop (S attempt) backoff) as ->.
    { do 6 (destruct attempt as [|attempt]; [done|]). cbn in E. lia. }
    rewrite <- app_comm_cons. cbn [take]. f_equal.
    apply take_app_replicate. lia.
  - apply Nat.ltb_ge in E.
    rewrite !drop_ge by done. cbn [app].
    rewrite !take_replicate. rewrite !Nat.min_id. done.
Qed.

Lemma echo_loop_failure (r : Z) (rest : list (bool * Z)) (sent0 : Z) (attempt : nat) :
  sent0 < 0 → r < 0 →
  echo_loop ((true, r) :: rest) sent0 attempt
  = let run := echo_loop rest r
                 (if (attempt <? length backoff)%nat then S attempt else attempt) in
    {| exited := exited run; sent := sent run;
       send_calls := S (send_calls run);
       delays := (if (attempt <? length backoff)%nat then nth attempt backoff 0 else 32)
                 :: delays run |}.
Proof.
  intros Hs Hr. cbn [echo_loop].
  assert ((sent0 <? 0) && true = true) as -> by lia. cbn [negb].
  destruct (r >=? 0) eqn:Er; [lia|].
  by destruct (attempt <? length backoff)%nat.
Qed.

(** [k] failed sends in a row while the client stays connected: the
    loop makes the [k] delays of the schedule and goes on with what
    follows in the script. *)
Lemma echo_loop_failures (fails : list Z) (tail : list (bool * Z)) :
  Forall (λ r, r < 0) fails →
  ∀ (sent0 : Z) (attempt : nat), sent0 < 0 →
  ∃ attempt1,
    let run := echo_loop tail (default sent0 (last fails)) attempt1 in
    echo_loop (((λ r, (true, r)) <$> fails) ++ tail) sent0 attempt
    = {| exited := exited run; sent := sent run;
         send_calls := (length fails + send_calls run)%nat;
         delays := retry_schedule_from attempt (length fails) ++ delays run |}.
Proof.
  induction 1 as [|r fails Hr Hfails IH]; intros sent0 attempt Hneg.
  - exists attempt. cbn. by destruct (echo_loop tail sent0 attempt).
  - assert (default sent0 (last (r :: fails)) = default r (last fails)) as Hlast.
    { rewrite last_cons. by destruct (last fails). }
    destruct (IH r (if (attempt <? length backoff)%nat then S attempt else attempt) Hr)
      as [a1 Ha].
    exists a1. cbv zeta in *.
    change (((λ r, (true, r)) <$> r :: fails) ++ tail)
      with ((true, r) :: ((λ r, (true, r)) <$> fails) ++ tail).
    rewrite echo_loop_failure by done. cbv zeta.
    rewrite Ha, Hlast. cbn [exited sent send_calls delays length].
    rewrite retry_schedule_from_S. done.
Qed.

Lemma retry_schedule_from_sum (attempt k : nat) :
  Z.of_nat k ≤ foldr Z.add 0 (retry_schedule_from attempt k).
Proof.
  revert attempt. induction k as [|k IH]; intros attempt; [done|].
  rewrite retry_schedule_from_S. cbn [foldr].
  specialize (IH (if (attempt <? length backoff)%nat then S attempt else attempt)).
  assert (1 ≤ (if (attempt <? length backoff)%nat then nth attempt backoff 0 else 32)).
  { destruct (attempt <? length backoff)%nat eqn:E; [|lia].
    apply Nat.ltb_lt in E. unfold backoff in *.
    do 6 (destruct attempt as [|attempt]; [cbn; lia|]). cbn in E. lia. }
  lia.
Qed.

(** C8, as the code has it. After [k] failed sends in a row the loop
    has waited 1, 1, 1, 2, 4, 8 ticks after the first six and 32 ticks
    after each later one. If the next send is accepted the loop ends
    with the bytes written, after [k + 1] sends, whatever [k] is. If the
    client then reports disconnected the loop ends with the failure.
    As long as neither happens the loop keeps retrying: it has no
    deadline of its own. *)
Theorem echo_retry_schedule (fails : list Z) (w : Z) (rest : list (bool * Z)) :
  Forall (λ r, r < 0) fails → 0 ≤ w →
  let again := (λ r, (true, r)) <$> fails in
  let k := length fails in
  echo_loop (again ++ (true, w) :: rest) (-1) 0
  = {| exited := true; sent := w; send_calls := S k; delays := retry_schedule k |}
  ∧ (∀ x, echo_loop (again ++ (false, x) :: rest) (-1) 0
          = {| exited := true; sent := default (-1) (last fails);
               send_calls := k; delays := retry_schedule k |}
          ∧ default (-1) (last fails) < 0)
  ∧ echo_loop again (-1) 0
    = {| exited := false; sent := default (-1) (last fails);
         send_calls := k; delays := retry_schedule k |}
  ∧ Z.of_nat k ≤ total_delay (echo_loop again (-1) 0).
Proof.
  intros Hfails Hw. cbv zeta.
  assert (default (-1) (last fails) < 0) as Hlast.
  { destruct (last fails) as [x|] eqn:E; cbn; [|lia].
    apply last_Some_elem_of in E. rewrite Forall_forall in Hfails. by apply Hfails. }
  split; [|split; [|split]].
  - destruct (echo_loop_failures fails ((true, w) :: rest) Hfails (-1) 0%nat) as [a1 Ha];
      [lia|].
    rewrite Ha. cbn [echo_loop].
    assert ((default (-1) (last fails) <? 0) && true = true) as -> by lia. cbn [negb].
    destruct (w >=? 0) eqn:E; [|lia]. cbn.
    unfold retry_schedule. rewrite app_nil_r. f_equal. lia.
  - intros x. split; [|done].
    destruct (echo_loop_failures fails ((false, x) :: rest) Hfails (-1) 0%nat) as [a1 Ha];
      [lia|].
    rewrite Ha. cbn [echo_loop]. rewrite andb_false_r. cbn.
    unfold retry_schedule. rewrite app_nil_r. f_equal. lia.
  - destruct (echo_loop_failures fails [] Hfails (-1) 0%nat) as [a1 Ha]; [lia|].
    rewrite app_nil_r in Ha. rewrite Ha. cbn.
    unfold retry_schedule. rewrite app_nil_r. f_equal. lia.
  - destruct (echo_loop_failures fails [] Hfails (-1) 0%nat) as [a1 Ha]; [lia|].
    rewrite app_nil_r in Ha. rewrite Ha. unfold total_delay. cbn.
    rewrite app_nil_r. apply retry_schedule_from_sum.
Qed.


(** **** The size limit *)

(** A delivery that declares more than [MAX_FRAGMENTED_PAYLOAD] bytes
    is refused by [ws_accumulator_prepare] with [ESP_ERR_INVALID_SIZE],
    nothing is copied, and the accumulator is inactive afterwards unless
    the chunk has offset 0 and found an accumulation in flight. *)
Lemma oversize_delivery (o : oracle) (g : globals) (d : esp_websocket_event_data_t)
    (sop total_len : Z) :
  acc_ok g = true → MAX_FRAGMENTED_PAYLOAD < total_len →
  ws_accumulator_prepare o g total_len sop = (ESP_ERR_INVALID_SIZE, g)
  ∧ ∃ g1, accumulate o g d sop total_len = Some (quiet g1)
          ∧ (payload_offset d ≠ 0 ∨ active (s_accumulator g) = false →
             active (s_accumulator g1) = false).
Proof.
  intros Hok Hmax. split; [by apply prepare_oversize|].
  assert (0 < total_len) as Hpos by (pose proof MAX_val; lia).
  destruct (accumulate_stages o g d sop total_len Hok Hpos)
    as [(g1 & Hacc & Hok1 & Hg1)|(g2 & Hacc & Hok2 & Hact2 & Hheap & Hkind)].
  - exists g1. split; [done|]. intros Hwhy.
    destruct (active (s_accumulator g1)); [|done].
    destruct Hg1 as (? & ? & ? & ?); [done|]. destruct Hwhy; congruence.
  - destruct (restarts g d total_len) eqn:Hres; [lia|]. subst g2.
    unfold restarts in Hres.
    apply orb_false_elim in Hres as [_ Hres].
    apply acc_ok_elim in Hok as (H1 & H2 & H3 & H4). cbv zeta in *.
    destruct H4 as (E1 & E2 & E3 & E4); [done|]. lia.
Qed.

(** A fragmented data chunk that passes the checks at the top of the
    DATA case goes through the accumulation. *)
Lemma handle_data_fragmented (o : oracle) (g : globals)
    (d : esp_websocket_event_data_t) (sop : Z) :
  test_running g = true → connected_on_entry o = true →
  echo_opcode (op_code d) = Some sop → event_ok d = true →
  fragmented d = true → 0 < total_len_of d →
  websocket_event_handler o g WEBSOCKET_EVENT_DATA d
  = match accumulate o g d sop (total_len_of d) with
    | None => None
    | Some r =>
      match handed_off r with
      | None => Some r
      | Some m => echo_section o (globals_after r) m (copied r)
      end
    end.
Proof.
  intros Hrun Hconn Hop Hev Hfrag Htl. cbn. unfold handle_data.
  rewrite Hrun, Hconn. cbn [negb orb].
  apply event_ok_elim in Hev as (D1 & D2 & D3 & D4 & D5).
  assert ((op_code d >=? 8) = false) as ->.
  { unfold echo_opcode in Hop.
    destruct (op_code d =? 1) eqn:E1; [lia|].
    destruct (op_code d =? 2) eqn:E2; [lia|].
    destruct (op_code d =? 0) eqn:E0; [lia|done]. }
  rewrite Hop.
  assert (negb (bool_decide (is_Some (data_ptr d))) && (data_len d >? 0) = false) as ->.
  { destruct (data_ptr d); cbn; [done|lia]. }
  rewrite Hfrag. cbn [andb].
  destruct (total_len_of d >? 0) eqn:E; [done|lia].
Qed.

(** The oversize chunk with offset 0 that finds an accumulation in
    flight: the handler returns with every static as it was. *)
Lemma oversize_at_offset_zero (o : oracle) (g : globals)
    (d : esp_websocket_event_data_t) (sop : Z) :
  acc_ok g = true → test_running g = true → connected_on_entry o = true →
  echo_opcode (op_code d) = Some sop → event_ok d = true →
  active (s_accumulator g) = true → payload_offset d = 0 →
  fragmented d = true → MAX_FRAGMENTED_PAYLOAD < total_len_of d →
  websocket_event_handler o g WEBSOCKET_EVENT_DATA d = Some (quiet g).
Proof.
  intros Hok Hrun Hconn Hop Hev Hact Hoff Hfrag Hmax.
  rewrite (handle_data_fragmented o g d sop) by (done || (pose proof MAX_val; lia)).
  unfold accumulate.
  rewrite ensure_buffer_live by (by apply active_has_buffer).
  rewrite prepare_for_chunk_live
    by (by apply active_has_buffer || (pose proof MAX_val; lia)).
  cbv zeta. rewrite Hoff. cbn [Z.eqb orb].
  destruct (total_len_of d >? MAX_FRAGMENTED_PAYLOAD) eqn:E; [done|lia].
Qed.

(** The oversize chunk with a non-zero offset that finds an
    accumulation in flight: rejected, and the accumulator is reset. *)
Lemma oversize_in_mid_message (o : oracle) (g : globals)
    (d : esp_websocket_event_data_t) (sop : Z) :
  acc_ok g = true → test_running g = true → connected_on_entry o = true →
  echo_opcode (op_code d) = Some sop → event_ok d = true →
  active (s_accumulator g) = true → payload_offset d ≠ 0 →
  fragmented d = true → MAX_FRAGMENTED_PAYLOAD < total_len_of d →
  websocket_event_handler o g WEBSOCKET_EVENT_DATA d
  = Some (quiet (ws_accumulator_reset g)).
Proof.
  intros Hok Hrun Hconn Hop Hev Hact Hoff Hfrag Hmax.
  rewrite (handle_data_fragmented o g d sop) by (done || (pose proof MAX_val; lia)).
  unfold accumulate.
  rewrite ensure_buffer_live by (by apply active_has_buffer).
  rewrite prepare_for_chunk_live
    by (by apply active_has_buffer || (pose proof MAX_val; lia)).
  cbv zeta. rewrite Hact. cbn [negb orb].
  destruct (payload_offset d =? 0) eqn:E0; [lia|]. cbn [orb].
  apply acc_ok_elim in Hok as (H1 & H2 & H3 & H4). cbv zeta in *.
  destruct H4 as (E1 & E2 & E3 & E4); [done|].
  destruct (total_len_of d =? expected_len (s_accumulator g)) eqn:El; [lia|]. cbn [negb].
  destruct (total_len_of d >? MAX_FRAGMENTED_PAYLOAD) eqn:E; [done|lia].
Qed.

(** C2 at its failing input. Four bytes of a 10-byte message are in
    the accumulator when a chunk with offset 0 declares 70000 bytes:
    [ws_accumulator_prepare] answers [ESP_ERR_INVALID_SIZE], the handler
    returns with nothing copied, and the accumulator is still active
    with the old message. *)
Theorem oversize_at_offset_zero_stays_active :
  let d := chunk [x45; x46] 2 70000 0 in
  MAX_FRAGMENTED_PAYLOAD < total_len_of d
  ∧ ws_accumulator_prepare fair_weather mid_message (total_len_of d)
      WS_TRANSPORT_OPCODES_BINARY
    = (ESP_ERR_INVALID_SIZE, mid_message)
  ∧ websocket_event_handler fair_weather mid_message WEBSOCKET_EVENT_DATA d
    = Some (quiet mid_message)
  ∧ s_accumulator mid_message
    = mk_accumulator (Block 0) MAX_FRAGMENTED_PAYLOAD 10 4 2 true.
Proof.
  cbv zeta. split; [by vm_compute|]. split; [|split].
  - apply prepare_oversize. by vm_compute.
  - apply (oversize_at_offset_zero _ _ _ WS_TRANSPORT_OPCODES_BINARY);
      by vm_compute.
  - by vm_compute.
Qed.

(** **** Where the code departs from the wording of the specification *)


(** C3: a chunk arrives while the accumulator is active and expects 10
    bytes; its offset plus its length is 12, beyond the length declared
    before, but it declares a total of 12 itself: it is not rejected.
    Its 8 bytes are copied at offset 4 and the message is handed over. *)
Lemma chunk_beyond_declared_length_is_copied :
  let d := chunk [x45; x46; x47; x48; x49; x4a; x4b; x4c] 0 12 4 in
  active (s_accumulator mid_message) = true
  ∧ expected_len (s_accumulator mid_message) = 10
  ∧ payload_offset d + data_len d = 12
  ∧ (λ r, (copied r, s_accumulator (globals_after r), handed_off r))
      <$> websocket_event_handler fair_weather mid_message WEBSOCKET_EVENT_DATA d
    = Some (Some (mk_copy (Block 0) 4 8),
            mk_accumulator (Block 0) MAX_FRAGMENTED_PAYLOAD 12 12 0 false,
            Some (mk_message 0 (In_accumulator (Block 0)) 12)).
Proof. by vm_compute. Qed.

(** C5: a chunk with offset 4, which is not the first chunk of its
    message, activates the inactive accumulator. *)
Lemma later_chunk_activates :
  let d := chunk [x45; x46] 2 10 4 in
  active (s_accumulator just_connected) = false
  ∧ (λ r, s_accumulator (globals_after r))
      <$> websocket_event_handler fair_weather just_connected WEBSOCKET_EVENT_DATA d
    = Some (mk_accumulator (Block 0) MAX_FRAGMENTED_PAYLOAD 10 6 2 true).
Proof. by vm_compute. Qed.

(** C6: a chunk with offset 0 that declares 65538 bytes arrives while
    the accumulator is active: the accumulation in flight is kept as it
    is and none begins for the new message. *)
Lemma oversize_chunk_does_not_preempt :
  let d := chunk [x58] 1 65538 0 in
  active (s_accumulator mid_message) = true
  ∧ payload_offset d = 0
  ∧ globals_after
      <$> websocket_event_handler fair_weather mid_message WEBSOCKET_EVENT_DATA d
    = Some mid_message
  ∧ expected_len (s_accumulator mid_message) ≠ total_len_of d.
Proof.
  cbv zeta. split; [by vm_compute|]. split; [done|]. split.
  - rewrite (oversize_at_offset_zero _ _ _ WS_TRANSPORT_OPCODES_TEXT);
      [reflexivity|by vm_compute..].
  - by vm_compute.
Qed.

(** C7: a ping handled while the client reports that it is not
    connected resets the accumulator in mid-message. *)
Lemma ping_while_disconnected_resets :
  let ping := chunk [x70] 9 1 0 in
  s_accumulator mid_message = mk_accumulator (Block 0) MAX_FRAGMENTED_PAYLOAD 10 4 2 true
  ∧ (λ r, s_accumulator (globals_after r))
      <$> websocket_event_handler connection_lost mid_message WEBSOCKET_EVENT_DATA ping
    = Some (mk_accumulator (Block 0) MAX_FRAGMENTED_PAYLOAD 0 0 0 false).
Proof. by vm_compute. Qed.

(** C8: there is no deadline after which the loop gives up. Whatever
    the deadline, a client that stays connected and a transport that
    keeps refusing keep the loop retrying after more ticks than that. *)
Lemma echo_loop_has_no_deadline :
  ¬ ∃ deadline : Z, ∀ k : nat,
      deadline ≤ total_delay (echo_loop (replicate k (true, -1)) (-1) 0) →
      exited (echo_loop (replicate k (true, -1)) (-1) 0) = true.
Proof.
  intros [deadline H]. specialize (H (Z.to_nat deadline)).
  assert (Forall (λ r, r < 0) (replicate (Z.to_nat deadline) (-1))) as Hfails.
  { apply Forall_replicate. lia. }
  destruct (echo_loop_failures _ [] Hfails (-1) 0%nat) as [a1 Ha]; [lia|].
  rewrite app_nil_r, fmap_replicate in Ha. cbv zeta in Ha. cbn [echo_loop] in Ha.
  rewrite Ha in H. unfold total_delay in H. cbn [delays exited] in H.
  rewrite app_nil_r, length_replicate in H.
  pose proof (retry_schedule_from_sum 0 (Z.to_nat deadline)).
  assert (false = true) as Habs by (apply H; lia). discriminate Habs.
Qed.

(** C9: in mid-message a chunk with offset 4 declares 70000 bytes:
    the delivery is rejected, nothing is copied, and the accumulator is
    left reset instead of prepared for the new length. *)
Lemma oversize_length_change_is_rejected :
  let d := chunk [x45; x46] 2 70000 4 in
  active (s_accumulator mid_message) = true
  ∧ total_len_of d ≠ expected_len (s_accumulator mid_message)
  ∧ websocket_event_handler fair_weather mid_message WEBSOCKET_EVENT_DATA d
    = Some (quiet (ws_accumulator_reset mid_message)).
Proof.
  cbv zeta. split; [by vm_compute|]. split; [by vm_compute|].
  apply (oversize_in_mid_message _ _ _ WS_TRANSPORT_OPCODES_BINARY); by vm_compute.
Qed.

(** C10. Preparing the accumulator for a total length of 0 returns
    [ESP_OK] and changes nothing: no field of the accumulator, not
    [s_accum_buffer], not the heap (nothing is allocated). *)
Theorem prepare_zero_changes_nothing (o : oracle) (g : globals) (opc : Z) :
  ws_accumulator_prepare o g 0 opc = (ESP_OK, g).
Proof. reflexivity. Qed.


(** **** The theorems at sample inputs *)

Lemma fragment_chunk_bounds_witness :
  let d := chunk [x45; x46; x47; x48; x49; x4a; x4b; x4c] 2 10 4 in
  acc_ok mid_message = true ∧ event_ok d = true ∧ 0 < 10
  ∧ active (s_accumulator mid_message) = true
  ∧ restarts mid_message d 10 = false
  ∧ expected_len (s_accumulator mid_message) < payload_offset d + data_len d
  ∧ buffer (s_accumulator mid_message) = Block 0
  ∧ capacity (s_accumulator mid_message) = MAX_FRAGMENTED_PAYLOAD
  ∧ accumulate fair_weather mid_message d 2 10
    = Some {| globals_after :=
                set_accumulator
                  (mk_accumulator (buffer (s_accumulator mid_message))
                     (capacity (s_accumulator mid_message)) 0 0 0 false)
                  mid_message;
              copied := None; handed_off := None; echo := None |}.
Proof.
  cbv zeta.
  assert (acc_ok mid_message = true) as Hok by (clear; by vm_compute).
  assert (event_ok (chunk [x45; x46; x47; x48; x49; x4a; x4b; x4c] 2 10 4) = true)
    as Hev by (clear; by vm_compute).
  assert (0 < 10) as Hpos by lia.
  assert (active (s_accumulator mid_message) = true) as Hact by (clear; by vm_compute).
  assert (restarts mid_message (chunk [x45; x46; x47; x48; x49; x4a; x4b; x4c] 2 10 4) 10
          = false) as Hres by (clear; by vm_compute).
  assert (expected_len (s_accumulator mid_message)
          < payload_offset (chunk [x45; x46; x47; x48; x49; x4a; x4b; x4c] 2 10 4)
            + data_len (chunk [x45; x46; x47; x48; x49; x4a; x4b; x4c] 2 10 4))
    as Hex by (clear; by vm_compute).
  assert (buffer (s_accumulator mid_message) = Block 0) as Hb by (clear; by vm_compute).
  assert (capacity (s_accumulator mid_message) = MAX_FRAGMENTED_PAYLOAD) as Hc
    by (clear; by vm_compute).
  do 8 (split; [assumption|]).
  destruct (fragment_chunk_bounds fair_weather mid_message _ 2 10 Hok Hev Hpos) as [H _].
  destruct (H Hact) as (_ & H2 & _).
  exact (H2 Hres (or_intror Hex)).
Defined.


Lemma accumulator_lifecycle_witness :
  let d := chunk [x45; x46] 2 10 4 in
  reachable just_connected
  ∧ active (s_accumulator just_connected) = false
  ∧ ∃ r,
      websocket_event_handler fair_weather just_connected WEBSOCKET_EVENT_DATA d = Some r
      ∧ s_accumulator (globals_after r)
        = mk_accumulator (Block 0) MAX_FRAGMENTED_PAYLOAD 10 6 2 true
      ∧ is_Some (copied r)
      ∧ expected_len (s_accumulator (globals_after r)) = total_len_of d
      ∧ received (s_accumulator (globals_after r))
        ≤ expected_len (s_accumulator (globals_after r))
      ∧ expected_len (s_accumulator (globals_after r))
        ≤ capacity (s_accumulator (globals_after r))
      ∧ ∃ r',
          websocket_event_handler connection_lost (globals_after r)
            WEBSOCKET_EVENT_DISCONNECTED no_data = Some r'
          ∧ active (s_accumulator (globals_after r')) = false.
Proof.
  cbv zeta.
  assert (reachable just_connected) as Hreach.
  { apply (reach_handler fair_weather initial_globals WEBSOCKET_EVENT_CONNECTED no_data
             (quiet (set_test_running true initial_globals))); [apply reach_initial|done]. }
  assert (active (s_accumulator just_connected) = false) as Hina by reflexivity.
  assert ((λ r, s_accumulator (globals_after r))
            <$> websocket_event_handler fair_weather just_connected WEBSOCKET_EVENT_DATA
                  (chunk [x45; x46] 2 10 4)
          = Some (mk_accumulator (Block 0) MAX_FRAGMENTED_PAYLOAD 10 6 2 true)) as Hobs
    by (clear; by vm_compute).
  split; [exact Hreach|]. split; [exact Hina|].
  destruct (websocket_event_handler fair_weather just_connected WEBSOCKET_EVENT_DATA
              (chunk [x45; x46] 2 10 4)) as [r|] eqn:Hh; [|discriminate Hobs].
  cbn [fmap option_fmap option_map] in Hobs. injection Hobs as Hacc.
  exists r. split; [reflexivity|]. split; [exact Hacc|].
  destruct (accumulator_lifecycle _ _ _ _ _ Hreach Hh) as (_ & (H2 & H3) & H4 & _).
  destruct H4 as (_ & _ & Hcopied & Hexp & _); [exact Hina|by rewrite Hacc|].
  split; [exact Hcopied|]. split; [exact Hexp|]. split; [exact H2|]. split; [exact H3|].
  assert (reachable (globals_after r)) as Hreach' by (by eapply reach_handler).
  eexists. split; [reflexivity|].
  destruct (accumulator_lifecycle connection_lost (globals_after r)
              WEBSOCKET_EVENT_DISCONNECTED no_data _ Hreach' eq_refl)
    as (_ & _ & _ & _ & H5 & _).
  apply H5. by left.
Defined.

Lemma offset_zero_preempts_witness :
  let d := chunk [x58; x59] 1 5 0 in
  acc_ok mid_message = true ∧ event_ok d = true
  ∧ active (s_accumulator mid_message) = true
  ∧ payload_offset d = 0 ∧ fragmented d = true
  ∧ total_len_of d ≤ MAX_FRAGMENTED_PAYLOAD
  ∧ accumulate fair_weather mid_message d 1 (total_len_of d)
    = accumulate fair_weather (ws_accumulator_reset mid_message) d 1 (total_len_of d)
  ∧ ∃ r m,
      feed fair_weather mid_message 1
        (frame_events 1 5 0 [[x58; x59]; [x5a]; [x5b; x5c]]) = Some r
      ∧ handed_off r = Some m
      ∧ payload_bytes (heap (globals_after r)) m = Some [x58; x59; x5a; x5b; x5c].
Proof.
  cbv zeta.
  assert (acc_ok mid_message = true) as Hok by (clear; by vm_compute).
  assert (event_ok (chunk [x58; x59] 1 5 0) = true) as Hev by (clear; by vm_compute).
  assert (active (s_accumulator mid_message) = true) as Hact by (clear; by vm_compute).
  assert (payload_offset (chunk [x58; x59] 1 5 0) = 0) as Hoff by (clear; done).
  assert (fragmented (chunk [x58; x59] 1 5 0) = true) as Hfrag by (clear; by vm_compute).
  assert (total_len_of (chunk [x58; x59] 1 5 0) ≤ MAX_FRAGMENTED_PAYLOAD)
    as Hmax by (clear; by vm_compute).
  do 6 (split; [assumption|]).
  destruct (offset_zero_preempts fair_weather mid_message _ 1
              Hok Hev Hact Hoff Hfrag Hmax) as (H1 & _ & H3).
  split; [exact H1|].
  destruct (H3 1 5 [x58; x59] [[x5a]; [x5b; x5c]]) as (r & m & F1 & F2 & _ & _ & F5).
  - clear. lia.
  - clear. done.
  - clear. done.
  - clear. repeat constructor; done.
  - clear. done.
  - clear. by vm_compute.
  - exists r, m. split; [exact F1|]. split; [exact F2|exact F5].
Defined.

Lemma control_frame_leaves_accumulator_witness :
  let ping := chunk [x70] 9 1 0 in
  test_running mid_message = true ∧ connected_on_entry fair_weather = true
  ∧ 8 ≤ op_code ping
  ∧ websocket_event_handler fair_weather mid_message WEBSOCKET_EVENT_DATA ping
    = Some (quiet mid_message)
  ∧ client_read_cycle fair_weather mid_message ping
    = Some (quiet mid_message, [(WS_TRANSPORT_OPCODES_PONG, [x70])]).
Proof.
  cbv zeta.
  assert (test_running mid_message = true) as Hrun by (clear; by vm_compute).
  assert (connected_on_entry fair_weather = true) as Hconn by (clear; done).
  assert (8 ≤ op_code (chunk [x70] 9 1 0)) as Hop by (clear; by vm_compute).
  do 3 (split; [assumption|]).
  destruct (control_frame_leaves_accumulator fair_weather mid_message _ Hrun Hconn Hop)
    as [H1 H2].
  split; [exact H1|]. by apply H2.
Defined.

Lemma echo_retry_schedule_witness :
  Forall (λ r, r < 0) [-1; -1; -1; -1; -1] ∧ 0 ≤ 7
  ∧ echo_loop [(true, -1); (true, -1); (true, -1); (true, -1); (true, -1); (true, 7)] (-1) 0
    = {| exited := true; sent := 7; send_calls := 6; delays := [1; 1; 1; 2; 4] |}.
Proof.
  assert (Forall (λ r, r < 0) [-1; -1; -1; -1; -1]) as Hfails
    by (repeat constructor; lia).
  assert (0 ≤ 7) as Hw by lia.
  split; [exact Hfails|]. split; [exact Hw|].
  exact (proj1 (echo_retry_schedule [-1; -1; -1; -1; -1] 7 [] Hfails Hw)).
Defined.

Lemma length_change_restarts_witness :
  let d := chunk [x45; x46] 2 12 4 in
  acc_ok mid_message = true ∧ event_ok d = true
  ∧ active (s_accumulator mid_message) = true
  ∧ payload_offset d ≠ 0
  ∧ 12 ≠ expected_len (s_accumulator mid_message)
  ∧ 0 < 12 ≤ MAX_FRAGMENTED_PAYLOAD
  ∧ payload_offset d + data_len d ≤ 12
  ∧ accumulate fair_weather mid_message d 2 12
    = accumulate fair_weather (ws_accumulator_reset mid_message) d 2 12.
Proof.
  cbv zeta.
  assert (acc_ok mid_message = true) as Hok by (clear; by vm_compute).
  assert (event_ok (chunk [x45; x46] 2 12 4) = true) as Hev by (clear; by vm_compute).
  assert (active (s_accumulator mid_message) = true) as Hact by (clear; by vm_compute).
  assert (payload_offset (chunk [x45; x46] 2 12 4) ≠ 0) as Hoff by (clear; done).
  assert (12 ≠ expected_len (s_accumulator mid_message)) as Hne by (clear; by vm_compute).
  assert (0 < 12 ≤ MAX_FRAGMENTED_PAYLOAD) as Htl by (clear; by vm_compute).
  assert (payload_offset (chunk [x45; x46] 2 12 4) + data_len (chunk [x45; x46] 2 12 4) ≤ 12)
    as Hfit by (clear; by vm_compute).
  do 7 (split; [assumption|]).
  exact (proj1 (length_change_restarts fair_weather mid_message _ 2 12
                  Hok Hev Hact Hoff Hne Htl Hfit)).
Defined.

End TesteeFacts.

(** ** The rest of the testee: invariants of the event loop *)
Module TesteeAppFacts.
Import Testee TesteeFacts TesteeApp.
#[local] Opaque MAX_FRAGMENTED_PAYLOAD.

(** *** The send timeout *)

(** X11. The timeout of a send: 500 ms for a message of more than 1024
    bytes, else 10 ms plus one for every 256 bytes, that is 10 to 14
    ms; the cap at 100 ms that the code applies to the latter is never
    reached. *)
Theorem send_timeout_bounds (len : Z) :
  0 ≤ len →
  send_timeout_ms len = (if len >? 1024 then 500 else len / 256 + 10)
  ∧ (len ≤ 1024 → 10 ≤ send_timeout_ms len ≤ 14).
Proof.
  intros Hlen. unfold send_timeout_ms.
  destruct (len >? 1024) eqn:E; [split; [done|lia]|].
  assert (0 ≤ len / 256 ≤ 4).
  { split; [apply Z.div_pos; lia|]. apply Z.div_le_upper_bound; lia. }
  destruct (len / 256 + 10 >? 100) eqn:E2; [lia|]. split; [done|lia].
Qed.

(** *** The heap holds one block at most *)

Lemma memcpy_dom (h h' : gmap nat (list byte)) (p : pointer) (off n : Z)
    (src : option (list byte)) :
  memcpy h p off src n = Some h' → dom h' = dom h.
Proof.
  unfold memcpy. destruct p as [|b]; [done|].
  destruct (h !! b) as [blk|] eqn:Hblk; [|done].
  destruct (off + n >? Z.of_nat (length blk)); [done|].
  destruct src as [l|].
  - destruct (n >? Z.of_nat (length l)); [done|]. intros [= <-].
    apply dom_insert_lookup_L. by eexists.
  - destruct (n =? 0); [|done]. intros [= <-]. done.
Qed.

Lemma malloc_one_block (o : oracle) (g : globals) :
  one_block g → s_accum_buffer g = NULL →
  one_block (set_accum_buffer (malloc o MAX_FRAGMENTED_PAYLOAD g).1
               (malloc o MAX_FRAGMENTED_PAYLOAD g).2).
Proof.
  unfold one_block, malloc. intros Hone Hnull. rewrite Hnull in Hone.
  destruct (malloc_ok o); cbn.
  - rewrite dom_insert_L, Hone. apply union_empty_r_L.
  - done.
Qed.

Lemma ensure_buffer_one_block (o : oracle) (g : globals) :
  one_block g →
  match ensure_buffer o g with Continue g1 | Break g1 => one_block g1 end.
Proof.
  intros Hone. unfold ensure_buffer.
  destruct (s_accum_buffer g) as [|b] eqn:Hb; cbn [is_null]; [|done].
  pose proof (malloc_one_block o g Hone Hb) as H.
  destruct (malloc o MAX_FRAGMENTED_PAYLOAD g) as [p g1]. cbn [fst snd] in H.
  by destruct (is_null p).
Qed.

Lemma prepare_one_block (o : oracle) (g : globals) (total_len opc : Z) :
  one_block g → one_block (ws_accumulator_prepare o g total_len opc).2.
Proof.
  intros Hone. unfold ws_accumulator_prepare.
  destruct (total_len =? 0); [done|].
  destruct (total_len >? MAX_FRAGMENTED_PAYLOAD); [done|].
  destruct (s_accum_buffer g) as [|b] eqn:Hb; cbn [is_null]; [|done].
  pose proof (malloc_one_block o g Hone Hb) as H.
  destruct (malloc o MAX_FRAGMENTED_PAYLOAD g) as [p g1]. cbn [fst snd] in H.
  by destruct (is_null p).
Qed.

Lemma prepare_for_chunk_one_block (o : oracle) (g : globals)
    (d : esp_websocket_event_data_t) (sop total_len : Z) :
  one_block g →
  match prepare_for_chunk o g d sop total_len with
  | Continue g1 | Break g1 => one_block g1
  end.
Proof.
  intros Hone. unfold prepare_for_chunk.
  destruct ((payload_offset d =? 0) || negb (active (s_accumulator g))).
  { pose proof (prepare_one_block o g total_len sop Hone) as H.
    destruct (ws_accumulator_prepare o g total_len sop) as [err g1].
    by destruct (decide (err = ESP_OK)). }
  destruct (negb (total_len =? expected_len (s_accumulator g))); [|done].
  pose proof (prepare_one_block o (ws_accumulator_reset g) total_len sop Hone) as H.
  cbv zeta.
  destruct (ws_accumulator_prepare o (ws_accumulator_reset g) total_len sop) as [err g1].
  by destruct (decide (err = ESP_OK)).
Qed.

Lemma copy_chunk_one_block (g : globals) (d : esp_websocket_event_data_t)
    (r : handler_result) :
  one_block g → copy_chunk g d = Some r → one_block (globals_after r).
Proof.
  intros Hone. unfold copy_chunk. cbv zeta.
  destruct (negb (active (s_accumulator g)) || is_null (buffer (s_accumulator g)));
    [by intros [= <-]|].
  destruct (negb (bool_decide (is_Some (data_ptr d))) && (data_len d >? 0));
    [by intros [= <-]|].
  destruct (_ >? capacity (s_accumulator g)); [by intros [= <-]|].
  destruct (_ >? expected_len (s_accumulator g)); [by intros [= <-]|].
  destruct (is_null (buffer (s_accumulator g))); [by intros [= <-]|].
  destruct (memcpy _ _ _ _ _) as [h|] eqn:Hcpy; [|done].
  apply memcpy_dom in Hcpy.
  cbn [received expected_len].
  destruct (_ <? _); intros [= <-]; unfold one_block; cbn; by rewrite Hcpy.
Qed.

Lemma accumulate_one_block (o : oracle) (g : globals) (d : esp_websocket_event_data_t)
    (sop total_len : Z) (r : handler_result) :
  one_block g → accumulate o g d sop total_len = Some r → one_block (globals_after r).
Proof.
  intros Hone. unfold accumulate.
  pose proof (ensure_buffer_one_block o g Hone) as H1.
  destruct (ensure_buffer o g) as [g1|g1]; [|by intros [= <-]].
  pose proof (prepare_for_chunk_one_block o g1 d sop total_len H1) as H2.
  destruct (prepare_for_chunk o g1 d sop total_len) as [g2|g2]; [|by intros [= <-]].
  by apply copy_chunk_one_block.
Qed.

Lemma echo_section_one_block (o : oracle) (g : globals) (m : message)
    (c : option copy_log) (r : handler_result) :
  one_block g → echo_section o g m c = Some r → one_block (globals_after r).
Proof.
  intros Hone. unfold echo_section.
  destruct (negb (connected_before_echo o)); [by intros [= <-]|].
  destruct (send_calls (echo_loop (send_script o) (-1) 0)); [by intros [= <-]|].
  destruct (payload_bytes (heap g) m); [by intros [= <-]|done].
Qed.

Lemma handler_one_block (o : oracle) (g : globals) (event_id : esp_websocket_event_id_t)
    (d : esp_websocket_event_data_t) (r : handler_result) :
  one_block g → websocket_event_handler o g event_id d = Some r →
  one_block (globals_after r).
Proof.
  intros Hone. destruct event_id; cbn; try (by intros [= <-]).
  unfold handle_data.
  destruct (negb (test_running g) || negb (connected_on_entry o)); [by intros [= <-]|].
  destruct (op_code d >=? 8); [by intros [= <-]|].
  destruct (echo_opcode (op_code d)) as [sop|]; [|by intros [= <-]].
  destruct (negb (bool_decide (is_Some (data_ptr d))) && (data_len d >? 0));
    [by intros [= <-]|].
  destruct (fragmented d && (total_len_of d >? 0)).
  - destruct (accumulate o g d sop (total_len_of d)) as [r0|] eqn:Hacc; [|done].
    pose proof (accumulate_one_block _ _ _ _ _ _ Hone Hacc) as H0.
    destruct (handed_off r0) as [m|]; [|by intros [= <-]].
    by apply echo_section_one_block.
  - by apply echo_section_one_block.
Qed.

Lemma preallocate_one_block (o : oracle) (g : globals) :
  one_block g → one_block (preallocate o g).
Proof.
  intros Hone. unfold preallocate.
  destruct (s_accum_buffer g) as [|b] eqn:Hb; cbn [is_null]; [|done].
  pose proof (malloc_one_block o g Hone Hb) as H.
  by destruct (malloc o MAX_FRAGMENTED_PAYLOAD g) as [p g1].
Qed.

Lemma cleanup_one_block (g : globals) :
  one_block g →
  heap (ws_accumulator_cleanup g) = ∅ ∧ s_accum_buffer (ws_accumulator_cleanup g) = NULL.
Proof.
  unfold one_block, ws_accumulator_cleanup. cbv zeta.
  change (s_accum_buffer (ws_accumulator_reset g)) with (s_accum_buffer g).
  destruct (s_accum_buffer g) as [|b] eqn:Hb; cbn.
  - intros H. split; [|done]. by apply dom_empty_inv_L.
  - intros H. split; [|done]. apply dom_empty_inv_L.
    rewrite dom_delete_L, H. apply difference_diag_L.
Qed.

Lemma reachable_one_block (g : globals) : reachable g → one_block g.
Proof.
  induction 1 as [|o g event_id d r _ IH Hh|o g _ IH|g _ IH].
  - unfold one_block. cbn. apply dom_empty_L.
  - by apply (handler_one_block o g event_id d r).
  - by apply preallocate_one_block.
  - destruct (cleanup_one_block g IH) as [Hheap Hbuf].
    unfold one_block. rewrite Hheap, Hbuf. apply dom_empty_L.
Qed.

(** X2. No leak, no second buffer: in every state the program can reach, a
    block of the heap is live exactly when [s_accum_buffer] points to
    it. So at most one block is allocated at any time, the handler
    allocates only while [s_accum_buffer] is null, and the heap is
    empty whenever [s_accum_buffer] is null. *)
Theorem accumulator_buffer_is_the_only_block (g : globals) :
  reachable g →
  (∀ b, is_Some (heap g !! b) ↔ s_accum_buffer g = Block b)
  ∧ (s_accum_buffer g = NULL → heap g = ∅).
Proof.
  intros Hone%reachable_one_block. unfold one_block in Hone. split.
  - intros b. rewrite <- elem_of_dom, Hone.
    destruct (s_accum_buffer g) as [|b']; [set_solver|].
    rewrite elem_of_singleton. split; [by intros ->|by intros [= ->]].
  - intros Hnull. rewrite Hnull in Hone. by apply dom_empty_inv_L.
Qed.


(** *** Defined behaviour *)

Lemma echo_opcode_data (op sop : Z) :
  echo_opcode op = Some sop → sop = op ∧ data_opcode sop = true.
Proof.
  unfold echo_opcode, data_opcode, WS_TRANSPORT_OPCODES_CONT, WS_TRANSPORT_OPCODES_TEXT,
    WS_TRANSPORT_OPCODES_BINARY.
  destruct (op =? 1) eqn:E1; [intros [= <-]; lia|].
  destruct (op =? 2) eqn:E2; [intros [= <-]; lia|].
  destruct (op =? 0) eqn:E0; [intros [= <-]; lia|done].
Qed.

(** The message a completed accumulation hands over can be read: it
    lies inside the live buffer. *)
Lemma handoff_readable (o : oracle) (g : globals) (d : esp_websocket_event_data_t)
    (sop total_len : Z) (r : handler_result) (m : message) :
  acc_ok g = true → 0 < total_len →
  accumulate o g d sop total_len = Some r → handed_off r = Some m →
  is_Some (payload_bytes (heap (globals_after r)) m).
Proof.
  intros Hok Hpos Hacc Hm.
  destruct (accumulate_stages o g d sop total_len Hok Hpos)
    as [(g1 & Hacc1 & _)|(g2 & Hacc2 & Hok2 & Hact2 & _)].
  { rewrite Hacc1 in Hacc. injection Hacc as <-. done. }
  rewrite Hacc2 in Hacc.
  destruct (copy_chunk_raw g2 d r Hok2 Hacc) as [->|(h & ce & _ & Hce & Hblk & ->)];
    [done|].
  cbv zeta in *. cbn [handed_off globals_after] in *.
  apply acc_ok_elim in Hok2 as (H1 & H2 & H3 & H4). cbv zeta in *.
  destruct H4 as (E1 & E2 & E3 & E4); [done|].
  destruct (ce <? expected_len (s_accumulator g2)); [done|].
  injection Hm as <-. unfold payload_bytes. cbn [m_len m_payload heap set_accumulator set_heap].
  destruct (expected_len (s_accumulator g2) >? 0); [|by eexists].
  rewrite E1. destruct (s_accum_buffer g2) as [|b]; [by rewrite E1 in E2|].
  apply block_ok_elim in Hblk as (blk & Hb & Hlen). unfold load. rewrite Hb.
  destruct (expected_len (s_accumulator g2) >? Z.of_nat (length blk)) eqn:E; [lia|].
  by eexists.
Qed.

Lemma event_payload_readable (h : gmap nat (list byte)) (d : esp_websocket_event_data_t)
    (sop : Z) :
  event_ok d = true →
  payload_bytes h (mk_message sop (In_event (data_ptr d)) (to_size_t (data_len d)))
  = Some (default [] (data_ptr d)).
Proof.
  intros (D1 & D2 & D3 & D4 & D5)%event_ok_elim.
  unfold payload_bytes. cbn [m_len m_payload]. rewrite to_size_t_int by done.
  destruct (data_ptr d) as [l|]; cbn [default].
  - destruct (data_len d >? 0) eqn:E.
    + destruct (data_len d >? Z.of_nat (length l)) eqn:E2; [lia|].
      rewrite <- D5, Nat2Z.id. by rewrite firstn_all.
    + destruct l; [done|]. cbn [length] in D5. lia.
  - destruct (data_len d >? 0) eqn:E; [lia|done].
Qed.

Lemma echo_section_returns (o : oracle) (g : globals) (m : message) (c : option copy_log) :
  is_Some (payload_bytes (heap g) m) →
  echo_section o g m c
  = Some {| globals_after := if connected_before_echo o then g else ws_accumulator_reset g;
            copied := c; handed_off := Some m;
            echo := if connected_before_echo o
                    then Some (echo_loop (send_script o) (-1) 0) else None |}.
Proof.
  intros [l Hl]. unfold echo_section. rewrite Hl.
  destruct (connected_before_echo o); cbn [negb]; [|done].
  by destruct (send_calls (echo_loop (send_script o) (-1) 0)).
Qed.

Lemma handler_returns (o : oracle) (g : globals) (event_id : esp_websocket_event_id_t)
    (d : esp_websocket_event_data_t) :
  acc_ok g = true → event_ok d = true →
  is_Some (websocket_event_handler o g event_id d).
Proof.
  intros Hok Hev. destruct event_id; cbn; try (by eexists).
  unfold handle_data.
  destruct (negb (test_running g) || negb (connected_on_entry o)); [by eexists|].
  destruct (op_code d >=? 8); [by eexists|].
  destruct (echo_opcode (op_code d)) as [sop|]; [|by eexists].
  destruct (negb (bool_decide (is_Some (data_ptr d))) && (data_len d >? 0));
    [by eexists|].
  destruct (fragmented d && (total_len_of d >? 0)) eqn:Efrag.
  - apply andb_prop in Efrag as [_ Hpos].
    destruct (accumulate_returns o g d sop (total_len_of d) Hok Hev ltac:(lia))
      as [r0 Hacc].
    rewrite Hacc. destruct (handed_off r0) as [m|] eqn:Hm; [|by eexists].
    rewrite echo_section_returns; [by eexists|].
    eapply handoff_readable; [exact Hok| |exact Hacc|exact Hm]. lia.
  - rewrite echo_section_returns; [by eexists|].
    rewrite event_payload_readable by done. by eexists.
Qed.

Lemma dispatch_returns
    (events : list (oracle * esp_websocket_event_id_t * esp_websocket_event_data_t))
    (g : globals) :
  reachable g → Forall (λ e, event_ok e.2 = true) events →
  ∃ g', dispatch events g = Some g' ∧ reachable g'.
Proof.
  intros Hreach Hall. revert g Hreach.
  induction Hall as [|[[o event_id] d] events Hev _ IH]; intros g Hreach.
  { exists g. done. }
  cbn [dispatch].
  destruct (handler_returns o g event_id d (reachable_ok g Hreach) Hev) as [r Hr].
  rewrite Hr. apply IH. by eapply reach_handler.
Qed.

(** X1. Memory safety of the event loop. From a reachable state (also one
    where [ws_accumulator_cleanup] has freed the buffer and left the
    stale pointer in [s_accumulator.buffer]), any sequence of
    well-formed events, whatever the environment answers, is handled
    without undefined behaviour: no [memcpy] and no send reads or writes
    outside a live object. The state it ends in is reachable again and
    satisfies the accumulator's invariant. *)
Theorem event_loop_is_memory_safe
    (events : list (oracle * esp_websocket_event_id_t * esp_websocket_event_data_t))
    (g : globals) :
  reachable g → Forall (λ e, event_ok e.2 = true) events →
  ∃ g', dispatch events g = Some g' ∧ reachable g' ∧ acc_ok g' = true.
Proof.
  intros Hreach Hall.
  destruct (dispatch_returns events g Hreach Hall) as (g' & Hd & Hr).
  exists g'. split; [done|]. split; [done|]. by apply reachable_ok.
Qed.


(** *** Only data frames are echoed *)

Lemma opcode_ok_inactive (g : globals) :
  active (s_accumulator g) = false → opcode_ok g.
Proof. unfold opcode_ok. intros ->. done. Qed.

Lemma copy_chunk_opcode_ok (g : globals) (d : esp_websocket_event_data_t)
    (r : handler_result) :
  acc_ok g = true → opcode_ok g → copy_chunk g d = Some r →
  opcode_ok (globals_after r) ∧ echo r = None
  ∧ ∀ m, handed_off r = Some m → data_opcode (m_opcode m) = true.
Proof.
  intros Hok Hop Hcopy.
  destruct (copy_chunk_raw g d r Hok Hcopy) as [->|(h & ce & Hact & _ & _ & ->)].
  { split; [by apply opcode_ok_inactive|done]. }
  cbv zeta in *. cbn [globals_after handed_off echo].
  specialize (Hop Hact). split; [|split; [done|]].
  - unfold opcode_ok. cbn. done.
  - intros m. destruct (ce <? expected_len (s_accumulator g)); [done|].
    intros [= <-]. done.
Qed.

Lemma accumulate_opcode_ok (o : oracle) (g : globals) (d : esp_websocket_event_data_t)
    (sop total_len : Z) (r : handler_result) :
  acc_ok g = true → opcode_ok g → 0 < total_len → data_opcode sop = true →
  accumulate o g d sop total_len = Some r →
  opcode_ok (globals_after r) ∧ echo r = None
  ∧ ∀ m, handed_off r = Some m → data_opcode (m_opcode m) = true.
Proof.
  intros Hok Hop Hpos Hsop Hacc.
  destruct (accumulate_stages o g d sop total_len Hok Hpos)
    as [(g1 & Hacc1 & Hok1 & Hg1)|(g2 & Hacc2 & Hok2 & Hact2 & _ & Hkind)].
  { rewrite Hacc1 in Hacc. injection Hacc as <-. cbn. split; [|done].
    intros Ha. destruct (Hg1 Ha) as (_ & _ & _ & ->). by apply Hop. }
  rewrite Hacc2 in Hacc. apply (copy_chunk_opcode_ok g2 d r Hok2); [|done].
  destruct (restarts g d total_len); [|by subst g2].
  destruct Hkind as [_ Hfresh]. unfold opcode_ok. rewrite Hfresh. done.
Qed.

Lemma echo_section_opcode_ok (o : oracle) (g : globals) (m : message)
    (c : option copy_log) (r : handler_result) :
  opcode_ok g → echo_section o g m c = Some r → opcode_ok (globals_after r).
Proof.
  intros Hop. unfold echo_section.
  destruct (negb (connected_before_echo o));
    [intros [= <-]; by apply opcode_ok_inactive|].
  destruct (send_calls (echo_loop (send_script o) (-1) 0)); [by intros [= <-]|].
  destruct (payload_bytes (heap g) m); [by intros [= <-]|done].
Qed.

Lemma handler_opcode_ok (o : oracle) (g : globals) (event_id : esp_websocket_event_id_t)
    (d : esp_websocket_event_data_t) (r : handler_result) :
  acc_ok g = true → opcode_ok g →
  websocket_event_handler o g event_id d = Some r →
  opcode_ok (globals_after r)
  ∧ (is_Some (echo r) → is_Some (handed_off r))
  ∧ ∀ m, handed_off r = Some m →
      event_id = WEBSOCKET_EVENT_DATA
      ∧ data_opcode (op_code d) = true ∧ data_opcode (m_opcode m) = true.
Proof.
  intros Hok Hop.
  assert (∀ g0, opcode_ok g0 →
            opcode_ok (globals_after (quiet g0))
            ∧ (is_Some (echo (quiet g0)) → is_Some (handed_off (quiet g0)))
            ∧ ∀ m, handed_off (quiet g0) = Some m →
                event_id = WEBSOCKET_EVENT_DATA
                ∧ data_opcode (op_code d) = true ∧ data_opcode (m_opcode m) = true)
    as Hquiet.
  { intros g0 H0. cbn. split; [done|]. split; [by intros [? ?]|done]. }
  assert (opcode_ok (ws_accumulator_reset g)) as Hreset by (by apply opcode_ok_inactive).
  destruct event_id; cbn [websocket_event_handler];
    try (intros [= <-]; by apply Hquiet).
  intros Hh. destruct (handle_data_cases o g d r Hh)
    as [->|[[-> _]|[(sop & r0 & Hsop & Hfrag & Hpos & Hacc & Hr)|(sop & Hsop & _ & He)]]].
  - by apply Hquiet.
  - by apply Hquiet.
  - destruct (echo_opcode_data _ _ Hsop) as [-> Hdata].
    destruct (accumulate_opcode_ok o g d _ _ r0 Hok Hop Hpos Hdata Hacc)
      as (K1 & K2 & K3).
    destruct (handed_off r0) as [m|] eqn:Hm.
    + pose proof (accumulate_keeps_ok o g d _ _ r0 Hok Hpos Hacc) as [Hok0 _].
      destruct (echo_section_keeps_ok _ _ _ _ _ Hok0 Hr) as (_ & _ & Hhand & _).
      split; [eapply echo_section_opcode_ok; [exact K1|exact Hr]|]. rewrite Hhand.
      split; [by eauto|]. intros m' [= <-]. split; [done|]. split; [done|].
      by apply K3.
    + subst r0. split; [exact K1|]. rewrite K2, Hm. split; [by intros [? ?]|done].
  - destruct (echo_opcode_data _ _ Hsop) as [-> Hdata].
    destruct (echo_section_keeps_ok _ _ _ _ _ Hok He) as (_ & _ & Hhand & _).
    split; [eapply echo_section_opcode_ok; [exact Hop|exact He]|]. rewrite Hhand.
    split; [by eauto|]. intros m' [= <-]. done.
Qed.


Lemma preallocate_opcode_ok (o : oracle) (g : globals) :
  opcode_ok g → opcode_ok (preallocate o g).
Proof.
  unfold preallocate, malloc, opcode_ok.
  destruct (is_null (s_accum_buffer g)); [|done].
  by destruct (malloc_ok o).
Qed.

Lemma reachable_opcode_ok (g : globals) : reachable g → opcode_ok g.
Proof.
  induction 1 as [|o g event_id d r Hreach IH Hh|o g _ IH|g _ IH].
  - by apply opcode_ok_inactive.
  - by destruct (handler_opcode_ok o g event_id d r (reachable_ok g Hreach) IH Hh).
  - by apply preallocate_opcode_ok.
  - apply opcode_ok_inactive. unfold ws_accumulator_cleanup. cbv zeta.
    by destruct (s_accum_buffer (ws_accumulator_reset g)).
Qed.

(** X6. What the handler never sends. In a reachable state, a call of the
    handler enters the echo loop only with a message it handed over,
    a message is handed over only by a data event whose frame opcode is
    continuation, text or binary, and the opcode of the message (for a
    reassembled one, the opcode recorded with its first chunk) is one of
    these three: a ping, a pong, a close or a reserved opcode is never
    echoed. *)
Theorem only_data_frames_are_echoed (o : oracle) (g : globals)
    (event_id : esp_websocket_event_id_t) (d : esp_websocket_event_data_t)
    (r : handler_result) :
  reachable g → websocket_event_handler o g event_id d = Some r →
  (is_Some (echo r) → is_Some (handed_off r))
  ∧ ∀ m, handed_off r = Some m →
      event_id = WEBSOCKET_EVENT_DATA
      ∧ data_opcode (op_code d) = true ∧ data_opcode (m_opcode m) = true.
Proof.
  intros Hreach Hh.
  by destruct (handler_opcode_ok o g event_id d r (reachable_ok g Hreach)
                 (reachable_opcode_ok g Hreach) Hh) as [_ ?].
Qed.

(** *** Unfragmented messages *)

(** X7. A text, binary or continuation frame that arrives whole (offset 0,
    no more payload declared than the event carries) is echoed as it
    is: the message handed to the echo loop has the frame's opcode and
    the event's own bytes, nothing is copied, and the accumulator, the
    heap and an accumulation in flight are left as they were. Only when
    the client reports that the connection is gone before the echo, the
    message is dropped and the accumulator is reset. *)
Theorem whole_frame_is_echoed_directly (o : oracle) (g : globals)
    (d : esp_websocket_event_data_t) :
  test_running g = true → connected_on_entry o = true →
  event_ok d = true → data_opcode (op_code d) = true → fragmented d = false →
  let m := mk_message (op_code d) (In_event (data_ptr d)) (data_len d) in
  websocket_event_handler o g WEBSOCKET_EVENT_DATA d
  = Some {| globals_after := if connected_before_echo o then g else ws_accumulator_reset g;
            copied := None;
            handed_off := Some m;
            echo := if connected_before_echo o
                    then Some (echo_loop (send_script o) (-1) 0) else None |}
  ∧ payload_bytes (heap g) m = Some (default [] (data_ptr d)).
Proof.
  intros Hrun Hconn Hev Hop Hfrag m. subst m.
  pose proof (event_ok_elim d Hev) as (D1 & D2 & D3 & D4 & D5).
  pose proof (event_payload_readable (heap g) d (op_code d) Hev) as Hbytes.
  rewrite to_size_t_int in Hbytes by done. split; [|exact Hbytes].
  cbn [websocket_event_handler]. unfold handle_data.
  rewrite Hrun, Hconn. cbn [negb orb].
  unfold data_opcode, WS_TRANSPORT_OPCODES_CONT, WS_TRANSPORT_OPCODES_TEXT,
    WS_TRANSPORT_OPCODES_BINARY in Hop.
  destruct (op_code d >=? 8) eqn:E8; [lia|].
  assert (echo_opcode (op_code d) = Some (op_code d)) as ->.
  { unfold echo_opcode, WS_TRANSPORT_OPCODES_CONT, WS_TRANSPORT_OPCODES_TEXT,
      WS_TRANSPORT_OPCODES_BINARY.
    destruct (op_code d =? 1) eqn:E1; [f_equal; lia|].
    destruct (op_code d =? 2) eqn:E2; [f_equal; lia|].
    destruct (op_code d =? 0) eqn:E0; [f_equal; lia|lia]. }
  assert (negb (bool_decide (is_Some (data_ptr d))) && (data_len d >? 0) = false) as ->.
  { destruct (data_ptr d); [done|]. cbn. lia. }
  rewrite Hfrag. cbn [andb]. rewrite to_size_t_int by done.
  apply echo_section_returns. rewrite Hbytes. by eexists.
Qed.

(** *** After a disconnect *)

Lemma deliver_stopped (o : oracle) (ds : list esp_websocket_event_data_t) (g : globals) :
  test_running g = false → ws_accumulator_reset g = g →
  deliver o ds g = Some (replicate (length ds) (quiet g)).
Proof.
  intros Hrun Hreset. induction ds as [|d ds IH]; [done|].
  cbn [deliver websocket_event_handler length replicate]. unfold handle_data.
  rewrite Hrun. cbn [negb orb]. rewrite Hreset. cbn [globals_after quiet].
  by rewrite IH.
Qed.

(** X10. A Disconnected, Error or Finish event stops the test and resets the
    accumulator, but keeps the buffer allocated; from then on, until a
    Connected event, every data event is dropped without a copy, a
    hand-over or a send, and changes nothing in the state. *)
Theorem data_is_dropped_after_teardown (o o' : oracle) (g : globals)
    (event_id : esp_websocket_event_id_t) (d : esp_websocket_event_data_t)
    (ds : list esp_websocket_event_data_t) (r : handler_result) :
  event_id = WEBSOCKET_EVENT_DISCONNECTED ∨ event_id = WEBSOCKET_EVENT_ERROR
  ∨ event_id = WEBSOCKET_EVENT_FINISH →
  websocket_event_handler o g event_id d = Some r →
  let g' := globals_after r in
  test_running g' = false ∧ active (s_accumulator g') = false
  ∧ s_accum_buffer g' = s_accum_buffer g ∧ heap g' = heap g
  ∧ deliver o' ds g' = Some (replicate (length ds) (quiet g')).
Proof.
  intros Hid Hh.
  assert (r = quiet (ws_accumulator_reset (set_test_running false g))) as ->.
  { destruct Hid as [-> | [-> | ->]]; cbn in Hh; by injection Hh as <-. }
  cbv zeta. cbn [globals_after quiet].
  do 4 (split; [done|]). by apply deliver_stopped.
Qed.

(** *** [ws_accumulator_prepare] and [ws_accumulator_cleanup] *)

(** X5. The three results of [ws_accumulator_prepare] for a [size_t] total
    length. [ESP_ERR_INVALID_SIZE]: the length exceeds
    [MAX_FRAGMENTED_PAYLOAD]. [ESP_ERR_NO_MEM]: the length is within the
    limit, no buffer is allocated and [malloc] fails. On either error
    nothing changes: an accumulation in flight stays as it is. On
    success with a positive length the accumulator is active, expects
    that length with nothing received, records the opcode and points to
    [s_accum_buffer]; a buffer that was allocated before is reused,
    contents and all, and no block is allocated. *)
Theorem prepare_outcome (o : oracle) (g : globals) (total_len opc : Z) :
  0 ≤ total_len →
  let err := (ws_accumulator_prepare o g total_len opc).1 in
  let g' := (ws_accumulator_prepare o g total_len opc).2 in
  (err = ESP_ERR_INVALID_SIZE ↔ MAX_FRAGMENTED_PAYLOAD < total_len)
  ∧ (err = ESP_ERR_NO_MEM ↔
     0 < total_len ≤ MAX_FRAGMENTED_PAYLOAD
     ∧ s_accum_buffer g = NULL ∧ malloc_ok o = false)
  ∧ (err ≠ ESP_OK → g' = g)
  ∧ (err = ESP_OK → 0 < total_len →
     s_accumulator g'
     = mk_accumulator (s_accum_buffer g') MAX_FRAGMENTED_PAYLOAD total_len 0 opc true
     ∧ s_accum_buffer g' ≠ NULL ∧ test_running g' = test_running g
     ∧ (s_accum_buffer g ≠ NULL →
        s_accum_buffer g' = s_accum_buffer g ∧ heap g' = heap g
        ∧ next_block g' = next_block g)).
Proof.
  intros Hlen. cbv zeta. unfold ws_accumulator_prepare. pose proof MAX_val as HM.
  destruct (total_len =? 0) eqn:E0.
  { cbn [fst snd]. repeat split; intros; try done; try lia. }
  destruct (total_len >? MAX_FRAGMENTED_PAYLOAD) eqn:Emax.
  { cbn [fst snd]. repeat split; intros; try done; try lia. }
  destruct (s_accum_buffer g) as [|b] eqn:Hb; cbn [is_null].
  - unfold malloc. destruct (malloc_ok o) eqn:Hm; cbn [is_null fst snd].
    + repeat split; intros; try done; try lia.
    + repeat split; intros; try done; try lia.
      destruct g. cbn in Hb. by subst.
  - cbn [fst snd]. repeat split; intros; try done; try lia.
    + by destruct H as (_ & ? & _).
    + cbn. by rewrite Hb.
    + cbn. by rewrite Hb.
Qed.

(** X4. [ws_accumulator_cleanup] in a reachable state: the buffer is freed
    and with it every block of the heap, [s_accum_buffer] is null, the
    accumulator is inactive with nothing expected or received, and the
    test flag is untouched. A second cleanup changes nothing (no double
    free). The stale pointer that [s_accumulator.buffer] still holds is
    not used again: a later data event is handled without undefined
    behaviour. *)
Theorem cleanup_frees_the_buffer (g : globals) :
  reachable g →
  let g' := ws_accumulator_cleanup g in
  heap g' = ∅ ∧ s_accum_buffer g' = NULL
  ∧ active (s_accumulator g') = false
  ∧ expected_len (s_accumulator g') = 0 ∧ received (s_accumulator g') = 0
  ∧ test_running g' = test_running g
  ∧ ws_accumulator_cleanup g' = g'
  ∧ ∀ o d, event_ok d = true →
      is_Some (websocket_event_handler o g' WEBSOCKET_EVENT_DATA d).
Proof.
  intros Hreach. cbv zeta.
  pose proof (reachable_one_block g Hreach) as Hone.
  destruct (cleanup_one_block g Hone) as [Hheap Hbuf].
  split; [exact Hheap|]. split; [exact Hbuf|].
  assert (s_accumulator (ws_accumulator_cleanup g)
          = s_accumulator (ws_accumulator_reset g)
          ∧ test_running (ws_accumulator_cleanup g) = test_running g) as [Hacc Hrun].
  { unfold ws_accumulator_cleanup. cbv zeta.
    by destruct (s_accum_buffer (ws_accumulator_reset g)). }
  rewrite Hacc. do 4 (split; [done|]). split.
  - unfold ws_accumulator_cleanup at 1. cbv zeta.
    change (s_accum_buffer (ws_accumulator_reset (ws_accumulator_cleanup g)))
      with (s_accum_buffer (ws_accumulator_cleanup g)).
    rewrite Hbuf. clear Hheap Hbuf Hrun.
    remember (ws_accumulator_cleanup g) as g' eqn:Eg'. clear Eg'.
    destruct g' as [a p t h n]. cbn in Hacc. by subst a.
  - intros o d Hev. apply handler_returns; [|done].
    apply cleanup_keeps_ok. by apply reachable_ok.
Qed.


(** *** Completion *)

(** X9. [received] is overwritten, not added to. A chunk that continues the
    accumulation in flight (non-zero offset, same declared length) and
    fits sets [received] to the end of the chunk, whatever was received
    before; the message is handed over exactly when that end is the
    expected length. The bytes handed over are the chunk preceded by
    what the buffer held below the chunk's offset, whether or not those
    bytes were received for this message. *)
Theorem last_chunk_decides_completion (o : oracle) (g : globals)
    (d : esp_websocket_event_data_t) (sop total_len : Z) :
  acc_ok g = true → event_ok d = true →
  active (s_accumulator g) = true → restarts g d total_len = false →
  payload_offset d + data_len d ≤ expected_len (s_accumulator g) →
  ∃ b blk r,
    buffer (s_accumulator g) = Block b ∧ heap g !! b = Some blk
    ∧ accumulate o g d sop total_len = Some r
    ∧ received (s_accumulator (globals_after r)) = payload_offset d + data_len d
    ∧ (is_Some (handed_off r)
       ↔ payload_offset d + data_len d = expected_len (s_accumulator g))
    ∧ ∀ m, handed_off r = Some m →
        m_opcode m = opcode (s_accumulator g)
        ∧ payload_bytes (heap (globals_after r)) m
          = Some (take (Z.to_nat (payload_offset d)) blk ++ default [] (data_ptr d)).
Proof.
  intros Hok Hev Hact Hres Hfit.
  rewrite accumulate_continues by done.
  destruct (copy_chunk_spec g d Hok Hev Hact) as (b & blk & Hb & Hblk & Hlen & Hcopy).
  cbv zeta in Hcopy.
  pose proof (event_ok_elim d Hev) as (D1 & D2 & D3 & D4 & D5).
  apply acc_ok_elim in Hok as (H1 & H2 & H3 & H4). cbv zeta in *.
  destruct H4 as (E1 & E2 & E3 & E4); [done|].
  destruct (payload_offset d + data_len d >? expected_len (s_accumulator g)) eqn:E;
    [lia|].
  exists b, blk. eexists. split; [done|]. split; [done|]. split; [exact Hcopy|].
  cbn [globals_after handed_off s_accumulator set_accumulator received].
  split; [done|].
  destruct (payload_offset d + data_len d <? expected_len (s_accumulator g)) eqn:Elt;
    cbn [negb].
  { split; [|done]. split; [by intros [? ?]|lia]. }
  split; [split; [lia|by eauto]|].
  intros m [= <-]. split; [done|].
  unfold payload_bytes, load.
  cbn [m_len m_payload heap set_heap set_accumulator globals_after].
  destruct (expected_len (s_accumulator g) >? 0) eqn:Epos; [|lia].
  rewrite lookup_insert_eq, length_inserts.
  destruct (expected_len (s_accumulator g) >? Z.of_nat (length blk)) eqn:Ebig; [lia|].
  f_equal.
  assert (Z.of_nat (length (default [] (data_ptr d))) = data_len d) as Hdl.
  { revert D5. destruct (data_ptr d); cbn; lia. }
  replace (Z.to_nat (expected_len (s_accumulator g)))
    with (Z.to_nat (payload_offset d) + length (default [] (data_ptr d)))%nat by lia.
  apply take_inserts. lia.
Qed.


(** *** A frame delivered in chunks, end to end *)

(** [lia] without the boolean facts that say nothing about numbers. *)
Ltac zlia :=
  repeat match goal with
         | H : ?b = _ |- _ =>
           lazymatch type of b with
           | bool =>
             lazymatch b with
             | context [Z.ltb] => fail
             | context [Z.gtb] => fail
             | context [Z.leb] => fail
             | context [Z.geb] => fail
             | context [Z.eqb] => fail
             | _ => clear H
             end
           end
         end;
  lia.


Lemma chunk_event_facts (c : list byte) (op total off : Z) :
  data_opcode op = true → 0 ≤ off → off + Z.of_nat (length c) ≤ total →
  0 < off ∨ Z.of_nat (length c) < total →
  total ≤ MAX_FRAGMENTED_PAYLOAD →
  let d := {| data_ptr := Some c; data_len := Z.of_nat (length c); fin := false;
              op_code := op; payload_len := total; payload_offset := off |} in
  event_ok d = true ∧ total_len_of d = total ∧ 0 < total
  ∧ fragmented d = true ∧ echo_opcode (op_code d) = Some op.
Proof.
  intros Hop Hoff Hfit Hpart Hmax d.
  assert (0 ≤ op < 256) as Hbyte.
  { unfold data_opcode, WS_TRANSPORT_OPCODES_CONT, WS_TRANSPORT_OPCODES_TEXT,
      WS_TRANSPORT_OPCODES_BINARY in Hop. lia. }
  assert (0 < total) as Hpos by lia.
  split; [by apply frame_event_ok|]. split.
  { unfold total_len_of. cbn. destruct (total =? 0) eqn:E0; [lia|].
    apply to_size_t_int. pose proof MAX_val. unfold INT_MAX. lia. }
  split; [done|]. split.
  { unfold fragmented. cbn. lia. }
  cbn. unfold echo_opcode, data_opcode, WS_TRANSPORT_OPCODES_CONT,
    WS_TRANSPORT_OPCODES_TEXT, WS_TRANSPORT_OPCODES_BINARY in *.
  destruct (op =? 1) eqn:E1; [f_equal; lia|].
  destruct (op =? 2) eqn:E2; [f_equal; lia|].
  destruct (op =? 0) eqn:E0; [f_equal; lia|lia].
Qed.

(** The handler on one chunk of a frame, in terms of [accumulate]. *)
Lemma handler_on_chunk (o : oracle) (g : globals) (c : list byte) (op total off : Z) :
  test_running g = true → connected_on_entry o = true →
  data_opcode op = true → 0 ≤ off → off + Z.of_nat (length c) ≤ total →
  0 < off ∨ Z.of_nat (length c) < total →
  total ≤ MAX_FRAGMENTED_PAYLOAD →
  let d := {| data_ptr := Some c; data_len := Z.of_nat (length c); fin := false;
              op_code := op; payload_len := total; payload_offset := off |} in
  websocket_event_handler o g WEBSOCKET_EVENT_DATA d
  = match accumulate o g d op total with
    | None => None
    | Some r =>
      match handed_off r with
      | None => Some r
      | Some m => echo_section o (globals_after r) m (copied r)
      end
    end.
Proof.
  intros Hrun Hconn Hop Hoff Hfit Hpart Hmax d.
  destruct (chunk_event_facts c op total off Hop Hoff Hfit Hpart Hmax)
    as (Hev & Htl & Hpos & Hfrag & Hecho).
  fold d in Hev, Htl, Hfrag, Hecho.
  rewrite (handle_data_fragmented o g d op) by (done || lia).
  by rewrite Htl.
Qed.

Lemma deliver_remaining (o : oracle) (op total : Z) (b : nat) (rest : list (list byte)) :
  connected_on_entry o = true → connected_before_echo o = true →
  data_opcode op = true →
  rest ≠ [] → Forall (λ c, c ≠ []) rest →
  ∀ (g : globals) (off : Z) (blk : list byte),
    0 < off →
    acc_ok g = true → test_running g = true → active (s_accumulator g) = true →
    expected_len (s_accumulator g) = total →
    buffer (s_accumulator g) = Block b → heap g !! b = Some blk →
    off + Z.of_nat (length (concat rest)) = total →
    ∃ rs r blk1,
      deliver o (frame_events op total off rest) g = Some (rs ++ [r])
      ∧ S (length rs) = length rest
      ∧ Forall (λ r0, handed_off r0 = None ∧ echo r0 = None) rs
      ∧ handed_off r
        = Some (mk_message (opcode (s_accumulator g)) (In_accumulator (Block b)) total)
      ∧ echo r = Some (echo_loop (send_script o) (-1) 0)
      ∧ active (s_accumulator (globals_after r)) = false
      ∧ test_running (globals_after r) = true
      ∧ heap (globals_after r) !! b = Some blk1
      ∧ Z.of_nat (length blk1) = MAX_FRAGMENTED_PAYLOAD
      ∧ take (Z.to_nat total) blk1 = take (Z.to_nat off) blk ++ concat rest.
Proof.
  intros Hconn Hconn2 Hop Hne Hall. induction Hall as [|c rest Hc Hall IH]; [done|].
  intros g off blk Hoff Hok Hrun Hact Hexp Hbuf Hblk Htotal.
  cbn [concat] in Htotal. rewrite length_app in Htotal.
  cbn [frame_events deliver].
  apply acc_ok_elim in Hok as Hinv. cbv zeta in Hinv.
  destruct Hinv as (H1 & H2 & H3 & H4).
  destruct H4 as (E1 & E2 & E3 & E4); [done|].
  assert (total ≤ MAX_FRAGMENTED_PAYLOAD) as Hmax by zlia.
  rewrite handler_on_chunk by (done || zlia).
  set (d := {| data_ptr := Some c; data_len := Z.of_nat (length c); fin := false;
               op_code := op; payload_len := total; payload_offset := off |}).
  destruct (chunk_event_facts c op total off Hop ltac:(zlia) ltac:(zlia) ltac:(zlia) Hmax)
    as (Hev & Htl & Hpos & Hfrag & Hecho).
  fold d in Hev, Htl, Hfrag, Hecho.
  assert (accumulate o g d op total = copy_chunk g d) as Hcont.
  { apply accumulate_continues; [done|done|].
    unfold restarts. rewrite Hact. cbn.
    destruct (off =? 0) eqn:E0; [zlia|]. cbn.
    destruct (total =? expected_len (s_accumulator g)) eqn:El; [done|zlia]. }
  destruct (copy_chunk_spec g d Hok Hev Hact) as (b' & blk' & Hb' & Hblk' & Hlen & Hcopy).
  assert (b' = b) as -> by congruence.
  assert (blk' = blk) as -> by congruence.
  cbv zeta in Hcopy. cbn [payload_offset data_len data_ptr d default] in Hcopy.
  destruct (off + Z.of_nat (length c) >? expected_len (s_accumulator g)) eqn:Efit; [zlia|].
  assert (length c ≠ 0%nat) as Hclen by (by destruct c).
  assert (take (Z.to_nat (off + Z.of_nat (length c)))
            (list_inserts (Z.to_nat off) c blk)
          = take (Z.to_nat off) blk ++ c) as Htake.
  { replace (Z.to_nat (off + Z.of_nat (length c))) with (Z.to_nat off + length c)%nat by zlia.
    apply take_inserts. zlia. }
  destruct rest as [|c1 rest].
  - (* the last chunk *)
    cbn [concat length] in Htotal.
    destruct (off + Z.of_nat (length c) <? expected_len (s_accumulator g)) eqn:Elt; [zlia|].
    cbn [negb] in Hcopy. rewrite <- Hcont in Hcopy.
    pose proof (handoff_readable o g d op total _ _ Hok Hpos Hcopy eq_refl) as Hread.
    rewrite Hcopy. cbn [handed_off globals_after copied].
    rewrite echo_section_returns by exact Hread. rewrite Hconn2.
    cbn [frame_events deliver].
    eexists [], _, (list_inserts (Z.to_nat off) c blk).
    split; [done|]. split; [done|]. split; [by constructor|].
    cbn [handed_off echo globals_after]. rewrite Hexp.
    split; [done|]. split; [done|]. split; [done|]. split; [done|].
    cbn. rewrite lookup_insert_eq.
    split; [done|]. rewrite length_inserts. split; [done|].
    rewrite app_nil_r. rewrite <- Htake. f_equal. zlia.
  - (* more chunks follow *)
    assert (length c1 ≠ 0%nat) as Hc1.
    { apply Forall_cons in Hall as [Hc1 _]. by destruct c1. }
    cbn [concat] in Htotal. rewrite length_app in Htotal.
    destruct (off + Z.of_nat (length c) <? expected_len (s_accumulator g)) eqn:Elt; [|zlia].
    cbn [negb] in Hcopy. rewrite Hcont, Hcopy. cbn [handed_off globals_after].
    set (g1 := set_accumulator _ _) in *.
    assert (acc_ok g1 = true) as Hok1.
    { by destruct (copy_chunk_keeps_ok g d _ Hok Hcopy) as [? _]. }
    destruct (IH ltac:(done) g1 (off + Z.of_nat (length c))
                (list_inserts (Z.to_nat off) c blk))
      as (rs & r & blk1 & Hdel & Hcount & Hwait & Hhand & Hecho' & Hina & Hrun' & Hheap
          & Hlen1 & Htake1); try done; try zlia.
    { subst g1. cbn. by rewrite lookup_insert_eq. }
    { cbn [concat]. rewrite length_app. zlia. }
    rewrite Hdel.
    eexists (_ :: rs), r, blk1. split; [done|].
    split; [cbn [length] in *; zlia|].
    split; [constructor; [done|exact Hwait]|].
    split; [exact Hhand|]. split; [done|]. split; [done|]. split; [done|].
    split; [done|]. split; [done|].
    rewrite Htake1, Htake. cbn [concat]. by rewrite <- app_assoc.
Qed.

(** X8. A frame of at most [MAX_FRAGMENTED_PAYLOAD] bytes that the client
    delivers in two or more non-empty chunks, in order, to a running,
    connected testee with its buffer allocated: the calls for all chunks
    but the last copy and return without a hand-over or a send; the
    call for the last chunk hands over one message, with the frame's
    opcode and the bytes of all chunks in order, and enters the echo
    loop with it. Whatever the accumulator held before does not show
    in the message. *)
Theorem chunked_frame_is_echoed_once (o : oracle) (g : globals) (op total : Z)
    (first : list byte) (rest : list (list byte)) :
  acc_ok g = true → test_running g = true → is_null (s_accum_buffer g) = false →
  connected_on_entry o = true → connected_before_echo o = true →
  data_opcode op = true →
  first ≠ [] → rest ≠ [] → Forall (λ c, c ≠ []) rest →
  Z.of_nat (length (first ++ concat rest)) = total →
  total ≤ MAX_FRAGMENTED_PAYLOAD →
  ∃ rs r m,
    deliver o (frame_events op total 0 (first :: rest)) g = Some (rs ++ [r])
    ∧ length rs = length rest
    ∧ Forall (λ r0, handed_off r0 = None ∧ echo r0 = None) rs
    ∧ handed_off r = Some m
    ∧ m_opcode m = op ∧ m_len m = total
    ∧ payload_bytes (heap (globals_after r)) m = Some (first ++ concat rest)
    ∧ echo r = Some (echo_loop (send_script o) (-1) 0)
    ∧ active (s_accumulator (globals_after r)) = false.
Proof.
  intros Hok Hrun Hn Hconn Hconn2 Hop Hfirst Hrest Hall Htotal Hmax.
  rewrite length_app in Htotal.
  assert (length first ≠ 0%nat) as Hflen by (by destruct first).
  assert (length (concat rest) ≠ 0%nat) as Hrlen.
  { destruct rest as [|c rest]; [done|].
    apply Forall_cons in Hall as [Hc _]. cbn. rewrite length_app.
    destruct c; [done|]. cbn. zlia. }
  cbn [frame_events deliver].
  rewrite handler_on_chunk by (done || zlia).
  set (d := {| data_ptr := Some first; data_len := Z.of_nat (length first); fin := false;
               op_code := op; payload_len := total; payload_offset := 0 |}).
  destruct (chunk_event_facts first op total 0 Hop ltac:(zlia) ltac:(zlia) ltac:(zlia) Hmax)
    as (Hev & Htl & Hpos & Hfrag & Hecho).
  fold d in Hev, Htl, Hfrag, Hecho.
  destruct (restart_result_buffer o g d op total Hok Hev Hn)
    as (b & blk & Hb & Hblk & Hlen & Hacc); [zlia|done|cbn; zlia|].
  cbv zeta in Hacc. cbn [payload_offset data_len data_ptr d default] in Hacc.
  rewrite Z.add_0_l in Hacc.
  destruct (Z.of_nat (length first) <? total) eqn:Elt; [|zlia].
  cbn [negb] in Hacc. rewrite Hacc. cbn [handed_off globals_after].
  rewrite Z.add_0_l.
  set (g1 := set_accumulator _ _) in *.
  assert (acc_ok g1 = true) as Hok1.
  { by pose proof (accumulate_keeps_ok o g d op total _ Hok ltac:(zlia) Hacc) as [? _]. }
  destruct (deliver_remaining o op total b rest Hconn Hconn2 Hop Hrest Hall g1
              (Z.of_nat (length first)) (list_inserts 0 first blk))
    as (rs & r & blk1 & Hdel & Hcount & Hwait & Hhand & Hecho' & Hina & _ & Hheap & Hlen1
        & Htake1); try done; try zlia.
  { subst g1. cbn. by rewrite lookup_insert_eq. }
  rewrite Hdel.
  eexists (_ :: rs), r, _. split; [done|].
  split; [cbn [length]; zlia|].
  split; [constructor; [done|exact Hwait]|].
  split; [exact Hhand|]. split; [done|]. split; [done|]. split; [|done].
  unfold payload_bytes, load. cbn [m_len m_payload].
  destruct (total >? 0) eqn:Epos; [|zlia]. rewrite Hheap.
  destruct (total >? Z.of_nat (length blk1)) eqn:Ebig; [zlia|].
  rewrite Htake1. f_equal. f_equal.
  replace (Z.to_nat (Z.of_nat (length first))) with (0 + length first)%nat by zlia.
  rewrite take_inserts by zlia. done.
Qed.


(** *** The buffer is allocated once *)

Lemma copy_chunk_keeps_buffer (g : globals) (d : esp_websocket_event_data_t)
    (r : handler_result) :
  copy_chunk g d = Some r →
  s_accum_buffer (globals_after r) = s_accum_buffer g
  ∧ next_block (globals_after r) = next_block g.
Proof.
  unfold copy_chunk. cbv zeta.
  destruct (negb (active (s_accumulator g)) || is_null (buffer (s_accumulator g)));
    [by intros [= <-]|].
  destruct (negb (bool_decide (is_Some (data_ptr d))) && (data_len d >? 0));
    [by intros [= <-]|].
  destruct (_ >? capacity (s_accumulator g)); [by intros [= <-]|].
  destruct (_ >? expected_len (s_accumulator g)); [by intros [= <-]|].
  destruct (is_null (buffer (s_accumulator g))); [by intros [= <-]|].
  destruct (memcpy _ _ _ _ _) as [h|]; [|done].
  cbn [received expected_len].
  destruct (_ <? _); by intros [= <-].
Qed.

Lemma handler_keeps_buffer (o : oracle) (g : globals) (event_id : esp_websocket_event_id_t)
    (d : esp_websocket_event_data_t) (r : handler_result) :
  is_null (s_accum_buffer g) = false →
  websocket_event_handler o g event_id d = Some r →
  s_accum_buffer (globals_after r) = s_accum_buffer g
  ∧ next_block (globals_after r) = next_block g.
Proof.
  intros Hn.
  assert (∀ g0 m c r0,
            s_accum_buffer g0 = s_accum_buffer g ∧ next_block g0 = next_block g →
            echo_section o g0 m c = Some r0 →
            s_accum_buffer (globals_after r0) = s_accum_buffer g
            ∧ next_block (globals_after r0) = next_block g) as Hecho.
  { intros g0 m c r0 Hg0. unfold echo_section.
    destruct (negb (connected_before_echo o)); [by intros [= <-]|].
    destruct (send_calls (echo_loop (send_script o) (-1) 0)); [by intros [= <-]|].
    destruct (payload_bytes (heap g0) m); [by intros [= <-]|done]. }
  destruct event_id; cbn [websocket_event_handler]; try (by intros [= <-]).
  unfold handle_data.
  destruct (negb (test_running g) || negb (connected_on_entry o)); [by intros [= <-]|].
  destruct (op_code d >=? 8); [by intros [= <-]|].
  destruct (echo_opcode (op_code d)) as [sop|]; [|by intros [= <-]].
  destruct (negb (bool_decide (is_Some (data_ptr d))) && (data_len d >? 0));
    [by intros [= <-]|].
  destruct (fragmented d && (total_len_of d >? 0)) eqn:Efrag; [|by apply Hecho].
  apply andb_prop in Efrag as [_ Hpos].
  assert (∀ r0, accumulate o g d sop (total_len_of d) = Some r0 →
            s_accum_buffer (globals_after r0) = s_accum_buffer g
            ∧ next_block (globals_after r0) = next_block g) as Hacc.
  { intros r0. unfold accumulate. rewrite ensure_buffer_live by done.
    rewrite prepare_for_chunk_live by (done || lia). cbv zeta.
    destruct ((payload_offset d =? 0) || negb (active (s_accumulator g))).
    - destruct (total_len_of d >? MAX_FRAGMENTED_PAYLOAD); [by intros [= <-]|].
      intros Hc. by apply copy_chunk_keeps_buffer in Hc.
    - destruct (negb (total_len_of d =? expected_len (s_accumulator g))).
      + destruct (total_len_of d >? MAX_FRAGMENTED_PAYLOAD); [by intros [= <-]|].
        intros Hc. by apply copy_chunk_keeps_buffer in Hc.
      + intros Hc. by apply copy_chunk_keeps_buffer in Hc. }
  destruct (accumulate o g d sop (total_len_of d)) as [r0|]; [|done].
  specialize (Hacc r0 eq_refl).
  destruct (handed_off r0) as [m|]; [|by intros [= <-]].
  by apply Hecho.
Qed.

Lemma dispatch_keeps_buffer
    (events : list (oracle * esp_websocket_event_id_t * esp_websocket_event_data_t))
    (g g' : globals) :
  is_null (s_accum_buffer g) = false → dispatch events g = Some g' →
  s_accum_buffer g' = s_accum_buffer g ∧ next_block g' = next_block g.
Proof.
  revert g. induction events as [|[[o event_id] d] events IH]; intros g Hn.
  { by intros [= <-]. }
  cbn [dispatch].
  destruct (websocket_event_handler o g event_id d) as [r|] eqn:Hr; [|done].
  destruct (handler_keeps_buffer o g event_id d r Hn Hr) as [Hb Hnb].
  intros Hd. destruct (IH (globals_after r)) as [Hb' Hnb']; [by rewrite Hb|done|].
  by rewrite Hb', Hnb', Hb, Hnb.
Qed.

(** X3. The buffer is allocated once and reused. Once [s_accum_buffer] is
    not null, no sequence of events makes the handler allocate, free or
    replace it: after any number of handler calls [s_accum_buffer] is
    the same pointer and no [malloc] has been made, also across
    messages, disconnects and reconnects. *)
Theorem event_loop_reuses_the_buffer
    (events : list (oracle * esp_websocket_event_id_t * esp_websocket_event_data_t))
    (g g' : globals) (b : nat) :
  s_accum_buffer g = Block b → dispatch events g = Some g' →
  s_accum_buffer g' = Block b ∧ next_block g' = next_block g
  ∧ (reachable g → ∀ b', is_Some (heap g' !! b') ↔ b' = b).
Proof.
  intros Hb Hd.
  destruct (dispatch_keeps_buffer events g g' ltac:(by rewrite Hb) Hd) as [Hb' Hnb].
  rewrite Hb' , Hb. split; [done|]. split; [done|].
  intros Hreach b'.
  assert (reachable g') as Hreach'.
  { clear -Hreach Hd. revert g Hreach Hd.
    induction events as [|[[o event_id] d] events IH]; intros g Hreach.
    { by intros [= <-]. }
    cbn [dispatch].
    destruct (websocket_event_handler o g event_id d) as [r|] eqn:Hr; [|done].
    apply IH. by eapply reach_handler. }
  pose proof (reachable_one_block g' Hreach') as Hone. unfold one_block in Hone.
  rewrite Hb', Hb in Hone. rewrite <- elem_of_dom, Hone. by rewrite elem_of_singleton.
Qed.


(** *** Witnesses *)

Lemma send_timeout_bounds_witness : 0 ≤ 600 ∧ send_timeout_ms 600 = 12.
Proof.
  assert (0 ≤ 600) as H by lia. split; [exact H|].
  destruct (send_timeout_bounds 600 H) as [E _]. rewrite E. reflexivity.
Defined.

Lemma accumulator_buffer_is_the_only_block_witness :
  let g := preallocate fair_weather initial_globals in
  reachable g ∧ ∀ b, is_Some (heap g !! b) ↔ s_accum_buffer g = Block b.
Proof.
  cbv zeta.
  assert (reachable (preallocate fair_weather initial_globals)) as H
    by apply reach_preallocate, reach_initial.
  split; [exact H|].
  exact (proj1 (accumulator_buffer_is_the_only_block _ H)).
Defined.

Lemma event_loop_is_memory_safe_witness :
  let events := [(fair_weather, WEBSOCKET_EVENT_CONNECTED, no_data);
                 (fair_weather, WEBSOCKET_EVENT_DATA, chunk [x41; x42; x43; x44] 2 10 0);
                 (connection_lost, WEBSOCKET_EVENT_DISCONNECTED, no_data)] in
  reachable initial_globals
  ∧ Forall (λ e, event_ok e.2 = true) events
  ∧ ∃ g', dispatch events initial_globals = Some g' ∧ reachable g' ∧ acc_ok g' = true.
Proof.
  cbv zeta.
  assert (Forall (λ e : oracle * esp_websocket_event_id_t * esp_websocket_event_data_t,
                    event_ok e.2 = true)
            [(fair_weather, WEBSOCKET_EVENT_CONNECTED, no_data);
             (fair_weather, WEBSOCKET_EVENT_DATA, chunk [x41; x42; x43; x44] 2 10 0);
             (connection_lost, WEBSOCKET_EVENT_DISCONNECTED, no_data)]) as Hev.
  { repeat constructor. }
  split; [exact reach_initial|]. split; [exact Hev|].
  exact (event_loop_is_memory_safe _ _ reach_initial Hev).
Defined.

Lemma only_data_frames_are_echoed_witness :
  let d := chunk [x48; x69] 1 2 0 in
  let m := mk_message 1 (In_event (Some [x48; x69])) 2 in
  let r := {| globals_after := just_connected; copied := None;
              handed_off := Some m; echo := Some (mk_run true 5 1 []) |} in
  reachable just_connected
  ∧ websocket_event_handler fair_weather just_connected WEBSOCKET_EVENT_DATA d = Some r
  ∧ data_opcode (op_code d) = true ∧ data_opcode (m_opcode m) = true.
Proof.
  cbv zeta.
  assert (reachable just_connected) as Hreach.
  { apply (reach_handler fair_weather initial_globals WEBSOCKET_EVENT_CONNECTED no_data
             (quiet (set_test_running true initial_globals)));
      [apply reach_initial|reflexivity]. }
  assert (websocket_event_handler fair_weather just_connected WEBSOCKET_EVENT_DATA
            (chunk [x48; x69] 1 2 0)
          = Some {| globals_after := just_connected; copied := None;
                    handed_off := Some (mk_message 1 (In_event (Some [x48; x69])) 2);
                    echo := Some (mk_run true 5 1 []) |}) as Hh by (clear; by vm_compute).
  split; [exact Hreach|]. split; [exact Hh|].
  destruct (only_data_frames_are_echoed _ _ _ _ _ Hreach Hh) as [_ H].
  destruct (H _ eq_refl) as (_ & H1 & H2). split; [exact H1|exact H2].
Defined.

Lemma whole_frame_is_echoed_directly_witness :
  let d := chunk [x48; x69] 1 2 0 in
  test_running just_connected = true ∧ connected_on_entry fair_weather = true
  ∧ event_ok d = true ∧ data_opcode (op_code d) = true ∧ fragmented d = false
  ∧ websocket_event_handler fair_weather just_connected WEBSOCKET_EVENT_DATA d
    = Some {| globals_after := just_connected; copied := None;
              handed_off := Some (mk_message 1 (In_event (Some [x48; x69])) 2);
              echo := Some (echo_loop [(true, 5)] (-1) 0) |}
  ∧ payload_bytes (heap just_connected) (mk_message 1 (In_event (Some [x48; x69])) 2)
    = Some [x48; x69].
Proof.
  cbv zeta.
  assert (test_running just_connected = true) as H1 by reflexivity.
  assert (connected_on_entry fair_weather = true) as H2 by reflexivity.
  assert (event_ok (chunk [x48; x69] 1 2 0) = true) as H3 by reflexivity.
  assert (data_opcode (op_code (chunk [x48; x69] 1 2 0)) = true) as H4 by reflexivity.
  assert (fragmented (chunk [x48; x69] 1 2 0) = false) as H5 by reflexivity.
  do 5 (split; [assumption|]).
  exact (whole_frame_is_echoed_directly fair_weather just_connected _ H1 H2 H3 H4 H5).
Defined.

Lemma data_is_dropped_after_teardown_witness :
  let g' := ws_accumulator_reset (set_test_running false just_connected) in
  websocket_event_handler fair_weather just_connected WEBSOCKET_EVENT_DISCONNECTED no_data
  = Some (quiet g')
  ∧ deliver fair_weather [chunk [x48; x69] 1 2 0; chunk [x41; x42] 2 10 0] g'
    = Some [quiet g'; quiet g'].
Proof.
  cbv zeta.
  assert (websocket_event_handler fair_weather just_connected
            WEBSOCKET_EVENT_DISCONNECTED no_data
          = Some (quiet (ws_accumulator_reset (set_test_running false just_connected))))
    as Hh by reflexivity.
  split; [exact Hh|].
  destruct (data_is_dropped_after_teardown fair_weather fair_weather just_connected
              WEBSOCKET_EVENT_DISCONNECTED no_data
              [chunk [x48; x69] 1 2 0; chunk [x41; x42] 2 10 0] _ (or_introl eq_refl) Hh)
    as (_ & _ & _ & _ & H).
  exact H.
Defined.

Lemma prepare_outcome_witness :
  0 ≤ 70000
  ∧ (ws_accumulator_prepare fair_weather mid_message 70000 2).1 = ESP_ERR_INVALID_SIZE
  ∧ (ws_accumulator_prepare fair_weather mid_message 70000 2).2 = mid_message.
Proof.
  assert (0 ≤ 70000) as H by lia. split; [exact H|].
  destruct (prepare_outcome fair_weather mid_message 70000 2 H) as (H1 & _ & H3 & _).
  assert ((ws_accumulator_prepare fair_weather mid_message 70000 2).1
          = ESP_ERR_INVALID_SIZE) as E.
  { apply H1. clear. pose proof MAX_val. lia. }
  split; [exact E|]. apply H3. rewrite E. discriminate.
Defined.

Lemma cleanup_frees_the_buffer_witness :
  let g := preallocate fair_weather initial_globals in
  reachable g
  ∧ heap (ws_accumulator_cleanup g) = ∅ ∧ s_accum_buffer (ws_accumulator_cleanup g) = NULL.
Proof.
  cbv zeta.
  assert (reachable (preallocate fair_weather initial_globals)) as H
    by apply reach_preallocate, reach_initial.
  split; [exact H|].
  destruct (cleanup_frees_the_buffer _ H) as (H1 & H2 & _).
  split; [exact H1|exact H2].
Defined.

Lemma last_chunk_decides_completion_witness :
  let d := chunk [x47; x48; x49; x4a] 0 10 6 in
  acc_ok mid_message = true ∧ event_ok d = true
  ∧ active (s_accumulator mid_message) = true ∧ restarts mid_message d 10 = false
  ∧ received (s_accumulator mid_message) = 4
  ∧ ∃ r, accumulate fair_weather mid_message d 0 10 = Some r
         ∧ is_Some (handed_off r)
         ∧ received (s_accumulator (globals_after r)) = 10.
Proof.
  cbv zeta.
  assert (acc_ok mid_message = true) as Hok by (clear; by vm_compute).
  assert (event_ok (chunk [x47; x48; x49; x4a] 0 10 6) = true) as Hev
    by (clear; by vm_compute).
  assert (active (s_accumulator mid_message) = true) as Hact by (clear; by vm_compute).
  assert (restarts mid_message (chunk [x47; x48; x49; x4a] 0 10 6) 10 = false) as Hres
    by (clear; by vm_compute).
  assert (received (s_accumulator mid_message) = 4) as Hrec by (clear; by vm_compute).
  assert (payload_offset (chunk [x47; x48; x49; x4a] 0 10 6)
          + data_len (chunk [x47; x48; x49; x4a] 0 10 6)
          = expected_len (s_accumulator mid_message)) as Hend by (clear; by vm_compute).
  do 5 (split; [assumption|]).
  destruct (last_chunk_decides_completion fair_weather mid_message _ 0 10
              Hok Hev Hact Hres) as (b & blk & r & _ & _ & Hacc & Hr & Hiff & _).
  { rewrite Hend. apply Z.le_refl. }
  exists r. split; [exact Hacc|]. split; [apply Hiff; exact Hend|].
  rewrite Hr. clear. by vm_compute.
Defined.

Lemma chunked_frame_is_echoed_once_witness :
  acc_ok mid_message = true ∧ test_running mid_message = true
  ∧ is_null (s_accum_buffer mid_message) = false
  ∧ ∃ rs r m,
      deliver fair_weather (frame_events 1 5 0 [[x58; x59]; [x5a]; [x5b; x5c]]) mid_message
      = Some (rs ++ [r])
      ∧ length rs = 2%nat
      ∧ handed_off r = Some m ∧ m_opcode m = 1
      ∧ payload_bytes (heap (globals_after r)) m = Some [x58; x59; x5a; x5b; x5c]
      ∧ echo r = Some (echo_loop [(true, 5)] (-1) 0).
Proof.
  assert (acc_ok mid_message = true) as Hok by (clear; by vm_compute).
  assert (test_running mid_message = true) as Hrun by (clear; by vm_compute).
  assert (is_null (s_accum_buffer mid_message) = false) as Hn by (clear; by vm_compute).
  do 3 (split; [assumption|]).
  destruct (chunked_frame_is_echoed_once fair_weather mid_message 1 5
              [x58; x59] [[x5a]; [x5b; x5c]] Hok Hrun Hn)
    as (rs & r & m & Hd & Hlen & _ & Hm & Hop & _ & Hbytes & Hecho & _).
  - clear. reflexivity.
  - clear. reflexivity.
  - clear. reflexivity.
  - clear. discriminate.
  - clear. discriminate.
  - clear. repeat constructor; discriminate.
  - clear. reflexivity.
  - clear. pose proof MAX_val. lia.
  - exists rs, r, m. split; [exact Hd|]. split; [exact Hlen|]. split; [exact Hm|].
    split; [exact Hop|]. split; [exact Hbytes|exact Hecho].
Defined.

Lemma event_loop_reuses_the_buffer_witness :
  let g := preallocate fair_weather initial_globals in
  let events := [(fair_weather, WEBSOCKET_EVENT_CONNECTED, no_data);
                 (fair_weather, WEBSOCKET_EVENT_DISCONNECTED, no_data)] in
  s_accum_buffer g = Block 0
  ∧ ∃ g', dispatch events g = Some g'
          ∧ s_accum_buffer g' = Block 0 ∧ next_block g' = next_block g.
Proof.
  cbv zeta.
  assert (s_accum_buffer (preallocate fair_weather initial_globals) = Block 0) as Hb
    by reflexivity.
  split; [exact Hb|]. eexists.
  assert (dispatch [(fair_weather, WEBSOCKET_EVENT_CONNECTED, no_data);
                    (fair_weather, WEBSOCKET_EVENT_DISCONNECTED, no_data)]
            (preallocate fair_weather initial_globals)
          = Some (ws_accumulator_reset
                    (set_test_running false
                       (set_test_running true (preallocate fair_weather initial_globals)))))
    as Hd by reflexivity.
  split; [exact Hd|].
  destruct (event_loop_reuses_the_buffer _ _ _ 0%nat Hb Hd) as (H1 & H2 & _).
  split; [exact H1|exact H2].
Defined.

End TesteeAppFacts.

(** ** The console readers *)
Module StdioFacts.
Import Stdio.

Lemma store_end (written junk : list Z) (x c : Z) :
  store (written ++ x :: junk) (Z.of_nat (length written)) c
  = Some (written ++ c :: junk).
Proof.
  unfold store. rewrite length_app. cbn [length].
  destruct ((0 <=? Z.of_nat (length written))
            && (Z.of_nat (length written) <? Z.of_nat (length written + S (length junk))))
    eqn:E; [|lia].
  f_equal. rewrite Nat2Z.id.
  rewrite insert_app_r_alt by lia. by rewrite Nat.sub_diag.
Qed.

Lemma kept_nonzero (s : list Z) : Forall (λ c, kept c = true) s → Forall (λ c, c ≠ 0) s.
Proof. intros H. eapply Forall_impl; [exact H|]. unfold kept. intros c. lia. Qed.

Lemma strlen_terminated (s junk : list Z) :
  Forall (λ c, c ≠ 0) s → strlen (s ++ 0 :: junk) = Some (length s).
Proof.
  induction 1 as [|c s Hc _ IH]; [done|]. cbn.
  destruct (c =? 0) eqn:E; [lia|]. by rewrite IH.
Qed.

Lemma strlen_unterminated (s : list Z) : Forall (λ c, c ≠ 0) s → strlen s = None.
Proof.
  induction 1 as [|c s Hc _ IH]; [done|]. cbn.
  destruct (c =? 0) eqn:E; [lia|]. by rewrite IH.
Qed.

Lemma filter_kept (input : list Z) : Forall (λ c, kept c = true) (List.filter kept input).
Proof.
  apply List.Forall_forall. intros c Hin. by apply List.filter_In in Hin as [_ ?].
Qed.

(** The string that sits at the start of a terminated array. *)
Lemma terminated_string (s junk : list Z) :
  Forall (λ c, kept c = true) s →
  strlen (s ++ 0 :: junk) = Some (length s) ∧ take (length s) (s ++ 0 :: junk) = s.
Proof.
  intros Hs. split; [by apply strlen_terminated, kept_nonzero|].
  by rewrite take_app_length.
Qed.

(** A terminator written behind the string does not change it. *)
Lemma store_behind (l : list Z) (n : nat) (i : Z) (l' : list Z) :
  strlen l = Some n → Z.of_nat n < i → store l i 0 = Some l' →
  strlen l' = Some n ∧ take n l' = take n l ∧ length l' = length l.
Proof.
  unfold store. intros Hlen Hi.
  destruct ((0 <=? i) && (i <? Z.of_nat (length l))); [|done].
  intros [= <-]. rewrite length_insert. split; [|split; [|done]].
  - assert (n < Z.to_nat i)%nat as Hlt by lia. clear Hi.
    revert n Hlen Hlt. generalize (Z.to_nat i) as k.
    induction l as [|c l IH]; intros k n Hlen Hlt; [done|].
    destruct k as [|k]; [lia|].
    change (<[S k := 0]> (c :: l)) with (c :: <[k := 0]> l).
    cbn [strlen] in *.
    destruct (c =? 0); [done|].
    destruct (strlen l) as [m|] eqn:Hm; [|done]. cbn in Hlen. injection Hlen as <-.
    rewrite (IH k m); [done|done|lia].
  - apply take_insert_ge. lia.
Qed.

Lemma store_within (l : list Z) (i c : Z) :
  0 ≤ i < Z.of_nat (length l) → is_Some (store l i c).
Proof. intros Hi. unfold store. destruct ((0 <=? i) && _) eqn:E; [by eexists|lia]. Qed.

Lemma filter_kept_none (l : list Z) :
  Forall (λ c, kept c = false) l → List.filter kept l = [].
Proof. induction 1 as [|c l Hc _ IH]; [done|]. cbn. by rewrite Hc. Qed.

End StdioFacts.

(** ** The testee's main flow *)
Module TesteeMainFacts.
Import Testee TesteeFacts Stdio StdioFacts TesteeApp TesteeAppFacts TesteeMain.
#[local] Opaque MAX_FRAGMENTED_PAYLOAD.

(** The reader from the middle of a line: [written] is in the array,
    [junk] is the rest of the array. *)
Lemma get_string_from_spec (size : Z) (input : list Z) :
  1 ≤ size ≤ INT_MAX →
  ∀ (written junk : list Z) (sleeps : nat),
    Z.of_nat (length (written ++ junk)) = size →
    Z.of_nat (length written) ≤ size - 1 →
    let s := take (Z.to_nat (size - 1) - length written)
               (List.filter kept (before end_of_line input)) in
    match get_string_from input (written ++ junk) size (Z.of_nat (length written)) sleeps with
    | Returned line' rest _ =>
      (∃ junk', line' = (written ++ s) ++ 0 :: junk')
      ∧ length line' = length (written ++ junk)
    | Blocked _ _ =>
      Forall (λ c, end_of_line c = false) input
      ∧ Z.of_nat (length written + length (List.filter kept input)) < size - 1
    | Undefined => False
    end.
Proof.
  intros Hsize. induction input as [|c input IH]; intros written junk sleeps Hlen Hw s.
  - cbn [get_string_from]. rewrite !to_size_t_int by lia.
    destruct (Z.of_nat (length written) <? size - 1) eqn:Ecmp.
    + split; [done|]. cbn. lia.
    + destruct junk as [|x junk]; [rewrite length_app in Hlen; cbn in Hlen; lia|].
      rewrite store_end. subst s. cbn [before List.filter]. rewrite take_nil.
      split; [by exists junk; rewrite app_nil_r|].
      rewrite !length_app. done.
  - cbn [get_string_from]. rewrite !to_size_t_int by lia.
    destruct junk as [|x junk]; [rewrite length_app in Hlen; cbn in Hlen; lia|].
    destruct (Z.of_nat (length written) <? size - 1) eqn:Ecmp.
    2:{ rewrite store_end.
        assert (Z.to_nat (size - 1) - length written = 0)%nat as Hz by lia.
        subst s. rewrite Hz, take_0.
        split; [by exists junk; rewrite app_nil_r|]. rewrite !length_app. done. }
    destruct ((c =? 10) || (c =? 13)) eqn:Eeol.
    { rewrite store_end, store_end. subst s. cbn [before]. unfold end_of_line.
      rewrite Eeol. cbn [List.filter]. rewrite take_nil.
      split; [by exists junk; rewrite app_nil_r|]. rewrite !length_app. done. }
    assert (before end_of_line (c :: input) = c :: before end_of_line input) as Hbefore.
    { cbn [before]. unfold end_of_line. by rewrite Eeol. }
    destruct ((c >? 0) && (c <? 127)) eqn:Ekept.
    + rewrite store_end.
      destruct (Z.of_nat (length written) =? INT_MAX) eqn:Emax; [lia|].
      replace (written ++ c :: junk) with ((written ++ [c]) ++ junk)
        by (by rewrite <- app_assoc).
      replace (Z.of_nat (length written) + 1) with (Z.of_nat (length (written ++ [c])))
        by (rewrite length_app; cbn; lia).
      specialize (IH (written ++ [c]) junk sleeps).
      cbv zeta in IH.
      assert (s = c :: take (Z.to_nat (size - 1) - length (written ++ [c]))
                        (List.filter kept (before end_of_line input))) as Hs.
      { subst s. rewrite Hbefore. cbn [List.filter]. unfold kept at 1. rewrite Ekept.
        rewrite length_app. cbn [length].
        replace (Z.to_nat (size - 1) - length written)%nat
          with (S (Z.to_nat (size - 1) - (length written + 1)))%nat by lia.
        done. }
      destruct (get_string_from input ((written ++ [c]) ++ junk) size
                  (Z.of_nat (length (written ++ [c]))) sleeps) as [line' rest n|line' n|].
      * destruct IH as [[junk' Hline] Hl]; [|rewrite length_app; cbn; lia|].
        { rewrite !length_app in *. cbn in *. lia. }
        split.
        -- exists junk'. rewrite Hline, Hs. by rewrite <- !app_assoc.
        -- rewrite Hl, !length_app. cbn. lia.
      * destruct IH as [Hall Hcount]; [|rewrite length_app; cbn; lia|].
        { rewrite !length_app in *. cbn in *. lia. }
        split.
        -- constructor; [unfold end_of_line; exact Eeol|exact Hall].
        -- cbn [List.filter]. unfold kept at 1. rewrite Ekept.
           rewrite length_app in Hcount. cbn [length] in *. lia.
      * apply IH; [|rewrite length_app; cbn; lia].
        rewrite !length_app in *. cbn in *. lia.
    + assert (s = take (Z.to_nat (size - 1) - length written)
                    (List.filter kept (before end_of_line input))) as Hs.
      { subst s. rewrite Hbefore. cbn [List.filter]. unfold kept at 1. by rewrite Ekept. }
      assert (∀ k,
        match get_string_from input (written ++ x :: junk) size
                (Z.of_nat (length written)) k with
        | Returned line' _ _ =>
          (∃ junk', line' = (written ++ s) ++ 0 :: junk')
          ∧ length line' = length (written ++ x :: junk)
        | Blocked _ _ =>
          Forall (λ c, end_of_line c = false) (c :: input)
          ∧ Z.of_nat (length written + length (List.filter kept (c :: input))) < size - 1
        | Undefined => False
        end) as Hrec.
      { intros k. specialize (IH written (x :: junk) k Hlen Hw). cbv zeta in IH.
        rewrite <- Hs in IH.
        destruct (get_string_from input (written ++ x :: junk) size
                    (Z.of_nat (length written)) k); [done| |done].
        destruct IH as [Hall Hcount]. split.
        - constructor; [unfold end_of_line; exact Eeol|exact Hall].
        - cbn [List.filter]. unfold kept at 1. by rewrite Ekept. }
      destruct (c =? EOF); apply Hrec.
Qed.


(** X12. [get_string] never writes outside [line], and a call that
    returns leaves a terminated string in it: [line] holds, as a C
    string, the characters 1..126 of the input's first line (the input
    up to the first newline or carriage return), cut to [size - 1]
    characters. A call that is still reading when the input ends has
    met no end of line and fewer than [size - 1] such characters. *)
Theorem get_string_is_bounded (input line : list Z) (size : Z) :
  1 ≤ size ≤ INT_MAX → Z.of_nat (length line) = size →
  match get_string input line size with
  | Returned line' rest _ =>
    let s := take (Z.to_nat (size - 1)) (List.filter kept (before end_of_line input)) in
    length line' = length line
    ∧ strlen line' = Some (length s) ∧ take (length s) line' = s
    ∧ Z.of_nat (length s) ≤ size - 1 ∧ Forall (λ c, 0 < c < 127) s
  | Blocked _ _ =>
    Forall (λ c, end_of_line c = false) input
    ∧ Z.of_nat (length (List.filter kept input)) < size - 1
  | Undefined => False
  end.
Proof.
  intros Hsize Hlen.
  pose proof (get_string_from_spec size input Hsize [] line 0%nat) as H.
  cbn [app length] in H. rewrite Nat.sub_0_r in H. specialize (H Hlen ltac:(lia)).
  cbv zeta in H. unfold get_string. change (Z.of_nat 0) with 0 in H.
  destruct (get_string_from input line size 0 0) as [line' rest n|line' n|]; [|done|done].
  destruct H as [[junk' ->] Hl]. cbv zeta.
  set (s := take (Z.to_nat (size - 1)) (List.filter kept (before end_of_line input))) in *.
  assert (Forall (λ c, kept c = true) s) as Hs.
  { subst s. apply Forall_take, filter_kept. }
  destruct (terminated_string s junk' Hs) as [H1 H2].
  split; [done|]. split; [done|]. split; [done|]. split.
  - subst s. rewrite length_take. lia.
  - eapply Forall_impl; [exact Hs|]. unfold kept. intros c. lia.
Qed.

(** The reader on a line that fits, from the middle of the line; the
    sleeps are the [EOF] answers met. *)
Lemma get_string_from_line (size : Z) (nl : Z) (post pre : list Z) :
  1 ≤ size ≤ INT_MAX → end_of_line nl = true →
  Forall (λ c, end_of_line c = false) pre →
  ∀ (written junk : list Z) (sleeps : nat),
    Z.of_nat (length (written ++ junk)) = size →
    Z.of_nat (length written + length (List.filter kept pre)) < size - 1 →
    ∃ junk',
      get_string_from (pre ++ nl :: post) (written ++ junk) size
        (Z.of_nat (length written)) sleeps
      = Returned ((written ++ List.filter kept pre) ++ 0 :: junk') post
          (sleeps + length (List.filter (λ c, c =? EOF) pre))
      ∧ length ((written ++ List.filter kept pre) ++ 0 :: junk')
        = length (written ++ junk).
Proof.
  intros Hsize Hnl Hpre. induction Hpre as [|c pre Hc Hpre IH];
    intros written junk sleeps Hlen Hfit.
  - cbn [app get_string_from List.filter length] in *.
    rewrite !to_size_t_int by lia.
    destruct junk as [|x junk]; [rewrite length_app in Hlen; cbn in Hlen; lia|].
    destruct (Z.of_nat (length written) <? size - 1) eqn:Ecmp; [|lia].
    unfold end_of_line in Hnl. rewrite Hnl, store_end, store_end.
    exists junk. rewrite app_nil_r, Nat.add_0_r. split; [done|].
    rewrite !length_app. done.
  - cbn [app get_string_from]. rewrite !to_size_t_int by lia.
    destruct junk as [|x junk]; [rewrite length_app in Hlen; cbn in Hlen; lia|].
    destruct (Z.of_nat (length written) <? size - 1) eqn:Ecmp; [|lia].
    unfold end_of_line in Hc. rewrite Hc.
    cbn [List.filter] in *. change ((c >? 0) && (c <? 127)) with (kept c).
    destruct (kept c) eqn:Ekept.
    + rewrite store_end.
      destruct (Z.of_nat (length written) =? INT_MAX) eqn:Emax; [lia|].
      replace (written ++ c :: junk) with ((written ++ [c]) ++ junk)
        by (by rewrite <- app_assoc).
      replace (Z.of_nat (length written) + 1) with (Z.of_nat (length (written ++ [c])))
        by (rewrite length_app; cbn; lia).
      destruct (IH (written ++ [c]) junk sleeps) as (junk' & Hrun & Hl).
      { rewrite !length_app in *. cbn in *. lia. }
      { rewrite length_app. cbn [length] in *. lia. }
      exists junk'. rewrite Hrun.
      assert ((c =? EOF) = false) as -> by (unfold kept, EOF in *; lia).
      rewrite <- !app_assoc in *. cbn [app] in *. split; [done|].
      rewrite Hl, !length_app. cbn. lia.
    + destruct (c =? EOF) eqn:Eeof.
      * destruct (IH written (x :: junk) (S sleeps) Hlen Hfit) as (junk' & Hrun & Hl).
        exists junk'. rewrite Hrun. cbn [length]. split; [f_equal; lia|done].
      * destruct (IH written (x :: junk) sleeps Hlen Hfit) as (junk' & Hrun & Hl).
        exists junk'. by rewrite Hrun.
Qed.

Lemma get_string_line (pre post line : list Z) (nl size : Z) :
  1 ≤ size ≤ INT_MAX → Z.of_nat (length line) = size →
  Forall (λ c, end_of_line c = false) pre → end_of_line nl = true →
  Z.of_nat (length (List.filter kept pre)) < size - 1 →
  ∃ junk',
    get_string (pre ++ nl :: post) line size
    = Returned (List.filter kept pre ++ 0 :: junk') post
        (length (List.filter (λ c, c =? EOF) pre))
    ∧ length (List.filter kept pre ++ 0 :: junk') = length line.
Proof.
  intros Hsize Hlen Hpre Hnl Hfit.
  destruct (get_string_from_line size nl post pre Hsize Hnl Hpre [] line 0%nat)
    as (junk' & Hrun & Hl); [done|cbn [length]; lia|].
  cbn [app length] in Hrun, Hl. change (Z.of_nat 0) with 0 in Hrun.
  by exists junk'.
Qed.

(** X13. A line that fits: the input is a line [pre] without end-of-line
    characters, then a newline or carriage return, then [post], and
    [pre] has fewer than [size - 1] characters in 1..126. The call
    returns with exactly these characters as the string in [line], has
    read the end of line and nothing of [post], and has slept once for
    every [EOF] it met. Characters outside 1..126 are dropped without a
    sleep. *)
Theorem get_string_reads_one_line (pre post line : list Z) (nl size : Z) :
  1 ≤ size ≤ INT_MAX → Z.of_nat (length line) = size →
  Forall (λ c, end_of_line c = false) pre → end_of_line nl = true →
  Z.of_nat (length (List.filter kept pre)) < size - 1 →
  ∃ line',
    get_string (pre ++ nl :: post) line size
    = Returned line' post (length (List.filter (λ c, c =? EOF) pre))
    ∧ length line' = length line
    ∧ strlen line' = Some (length (List.filter kept pre))
    ∧ take (length (List.filter kept pre)) line' = List.filter kept pre.
Proof.
  intros Hsize Hlen Hpre Hnl Hfit.
  destruct (get_string_line pre post line nl size Hsize Hlen Hpre Hnl Hfit)
    as (junk' & Hrun & Hl).
  eexists. split; [exact Hrun|]. split; [exact Hl|].
  apply terminated_string, filter_kept.
Qed.

Lemma read_server_uri_loop_spec (pre post : list Z) (nl : Z) :
  Forall (λ c, end_of_line c = false) pre → end_of_line nl = true →
  List.filter kept pre ≠ [] →
  Z.of_nat (length (List.filter kept pre)) < URI_SIZE - 1 →
  ∀ (blanks : list (list Z * Z)) (fuel : nat) (uri : list Z) (acc : nat),
    Forall (λ b, Forall (λ c, end_of_line c = false ∧ kept c = false) b.1
                 ∧ end_of_line b.2 = true) blanks →
    (length blanks < fuel)%nat → Z.of_nat (length uri) = URI_SIZE →
    ∃ uri' sleeps,
      read_server_uri_loop fuel
        (concat ((λ b, b.1 ++ [b.2]) <$> blanks) ++ pre ++ nl :: post) uri acc
      = Returned uri' post sleeps
      ∧ strlen uri' = Some (length (List.filter kept pre))
      ∧ take (length (List.filter kept pre)) uri' = List.filter kept pre.
Proof.
  intros Hpre Hnl Hne Hfit blanks.
  assert (1 ≤ URI_SIZE ≤ INT_MAX) as Hsize by (by vm_compute).
  induction blanks as [|[l e] blanks IH]; intros fuel uri acc Hblanks Hfuel Hlen.
  - destruct fuel as [|fuel]; [cbn in Hfuel; lia|].
    cbn [fmap list_fmap concat app read_server_uri_loop].
    destruct (get_string_line pre post uri nl URI_SIZE Hsize Hlen Hpre Hnl Hfit)
      as (junk' & Hrun & Hl).
    destruct (terminated_string _ junk' (filter_kept pre)) as [Hstr Htake].
    rewrite Hrun. set (line' := List.filter kept pre ++ 0 :: junk') in *.
    destruct (store_within line' (URI_SIZE - 1) 0) as [uri2 Hstore].
    { rewrite Hl. unfold URI_SIZE in *. lia. }
    rewrite Hstore.
    destruct (store_behind line' _ _ uri2 Hstr Hfit Hstore) as (Hstr2 & Htake2 & _).
    rewrite Hstr2.
    destruct (length (List.filter kept pre)) as [|n] eqn:En.
    { by destruct (List.filter kept pre). }
    eexists _, _. split; [done|]. split; [done|]. by rewrite Htake2.
  - destruct fuel as [|fuel]; [cbn in Hfuel; lia|].
    apply Forall_cons in Hblanks as [[Hl He] Hblanks]. cbn [fst snd] in Hl, He.
    cbn [fmap list_fmap concat fst snd read_server_uri_loop].
    rewrite <- !app_assoc. cbn [app].
    assert (List.filter kept l = []) as Hnone.
    { apply filter_kept_none. eapply Forall_impl; [exact Hl|]. by intros c [_ ?]. }
    edestruct (get_string_line l) as (junk' & Hrun & Hl');
      [exact Hsize|exact Hlen| |exact He| |].
    { eapply Forall_impl; [exact Hl|]. by intros c [? _]. }
    { rewrite Hnone. by vm_compute. }
    rewrite Hrun. rewrite Hnone in Hl' |- *. cbn [app] in Hl' |- *.
    set (line' := 0 :: junk') in *.
    assert (strlen line' = Some 0%nat) as Hstr by done.
    destruct (store_within line' (URI_SIZE - 1) 0) as [uri2 Hstore].
    { rewrite Hl'. unfold URI_SIZE in *. lia. }
    rewrite Hstore.
    destruct (store_behind line' 0 (URI_SIZE - 1) uri2 Hstr ltac:(by vm_compute) Hstore)
      as (Hstr2 & _ & Hl2).
    rewrite Hstr2.
    apply IH; [done|cbn in Hfuel; lia|]. rewrite Hl2, Hl'. done.
Qed.

(** X14. The server URI that [app_main] reads from the console is the first
    line that has a character in 1..126: lines without any are skipped
    (so a line ended by CR LF is read as one line followed by an empty
    one), characters outside 1..126 are dropped, and the loop returns
    after that line's end with nothing of the following input read.
    The line must have fewer than 255 such characters. *)
Theorem read_server_uri_first_line (blanks : list (list Z * Z))
    (pre post : list Z) (nl : Z) :
  Forall (λ b, Forall (λ c, end_of_line c = false ∧ kept c = false) b.1
               ∧ end_of_line b.2 = true) blanks →
  Forall (λ c, end_of_line c = false) pre → end_of_line nl = true →
  List.filter kept pre ≠ [] →
  Z.of_nat (length (List.filter kept pre)) < URI_SIZE - 1 →
  ∃ uri sleeps,
    read_server_uri (concat ((λ b, b.1 ++ [b.2]) <$> blanks) ++ pre ++ nl :: post)
    = Returned uri post sleeps
    ∧ strlen uri = Some (length (List.filter kept pre))
    ∧ take (length (List.filter kept pre)) uri = List.filter kept pre.
Proof.
  intros Hblanks Hpre Hnl Hne Hfit. unfold read_server_uri.
  apply read_server_uri_loop_spec; try done.
  apply Nat.lt_succ_r. rewrite length_app.
  transitivity (length (concat ((λ b : list Z * Z, b.1 ++ [b.2]) <$> blanks))); [|lia].
  clear. induction blanks as [|[l e] blanks IH]; [done|].
  cbn [fmap list_fmap concat fst snd length]. rewrite !length_app. cbn [length].
  cbn [fmap] in IH. lia.
Qed.


(** *** Running the cases *)

Lemma decimal_digits_length (fuel : nat) :
  ∀ (n : Z) (acc : list byte),
    (length acc ≤ length (decimal_digits fuel n acc) ≤ fuel + length acc)%nat.
Proof.
  induction fuel as [|fuel IH]; intros n acc; cbn [decimal_digits]; [lia|].
  destruct (n <? 10); [cbn [length]; lia|].
  specialize (IH (n / 10) (digit (n mod 10) :: acc)). cbn [length] in IH. lia.
Qed.

Lemma decimal_digits_nonempty (fuel : nat) (n : Z) (acc : list byte) :
  (S (length acc) ≤ length (decimal_digits (S fuel) n acc))%nat.
Proof.
  cbn [decimal_digits]. destruct (n <? 10); [done|].
  pose proof (decimal_digits_length fuel (n / 10) (digit (n mod 10) :: acc)) as H.
  cbn [length] in H. lia.
Qed.

Lemma format_d_length (n : Z) : (1 ≤ length (format_d n) ≤ 11)%nat.
Proof.
  unfold format_d. destruct (n <? 0).
  - pose proof (decimal_digits_length 10 (- n) []) as H. cbn [length] in *.
    generalize dependent (length (decimal_digits 10 (- n) [])). intros k ?. lia.
  - pose proof (decimal_digits_length 10 n []) as H.
    pose proof (decimal_digits_nonempty 9 n []) as H'. cbn [length] in H, H'.
    generalize dependent (length (decimal_digits 10 n [])). intros k ? ?. lia.
Qed.

Lemma handles_ok_app (a b : list api_call) :
  ∀ client sem,
    handles_ok client sem a = true → handles_ok false false b = true →
    handles_ok client sem (a ++ b) = true.
Proof.
  induction a as [|c a IH]; intros client sem Ha Hb.
  - cbn in Ha. apply andb_prop in Ha as [H1 H2].
    destruct client; [done|]. by destruct sem.
  - destruct c; cbn [app handles_ok] in *;
      first [ apply andb_prop in Ha as [H1 H2]; apply andb_true_intro;
              split; [exact H1|by apply IH]
            | by apply IH ].
Qed.

Lemma preallocate_keeps_buffer (o : oracle) (g : globals) :
  is_null (s_accum_buffer g) = false → preallocate o g = g.
Proof. unfold preallocate. by intros ->. Qed.

Lemma run_test_case_returns (server_uri : list byte) (e : case_env) (g : globals)
    (case_num : Z) :
  reachable g → Forall (λ ev, event_ok ev.2 = true) (traffic e) →
  ∃ ret calls g',
    run_test_case server_uri e g case_num = Some (ret, calls, g')
    ∧ reachable g' ∧ handles_ok false false calls = true
    ∧ (is_null (s_accum_buffer g) = false →
       s_accum_buffer g' = s_accum_buffer g ∧ next_block g' = next_block g).
Proof.
  intros Hreach Hev. unfold run_test_case, snprintf.
  destruct (_ || _).
  { eexists _, _, _. split; [done|]. done. }
  assert (reachable (preallocate (alloc e) g)) as Hpre by (by apply reach_preallocate).
  destruct (negb (init_ok e)).
  { eexists _, _, _. split; [done|]. split; [done|]. split; [done|].
    intros Hn. by rewrite preallocate_keeps_buffer. }
  destruct (negb (start_ret e =? ESP_OK)).
  { eexists _, _, _. split; [done|]. split; [done|]. split; [done|].
    intros Hn. by rewrite preallocate_keeps_buffer. }
  destruct (dispatch_returns (traffic e) _ Hpre Hev) as (g2 & Hd & Hr2).
  rewrite Hd. eexists _, _, _. split; [done|]. split; [done|]. split.
  - by destruct (connected_at_end e).
  - intros Hn. rewrite preallocate_keeps_buffer in Hd by done.
    by apply (dispatch_keeps_buffer (traffic e)).
Qed.

(** X15. [run_test_case] on a reachable state, with well-formed events
    during the case: it returns, without undefined behaviour. It
    returns [ESP_OK] exactly when the URI fits in 512 bytes, the client
    is created and [esp_websocket_client_start] returns [ESP_OK]; a URI
    that does not fit gives [ESP_ERR_INVALID_ARG] before anything is
    allocated or called. With a server URI that comes from the 256-byte
    console buffer the URI always fits, and the client is initialised
    with the server URI followed by the path, the case number in
    decimal and the agent. On every path the client handle is destroyed
    once and not used afterwards, and the semaphore is deleted: nothing
    is left behind. An accumulator buffer that exists is kept. *)
Theorem run_test_case_outcome (server_uri : list byte) (e : case_env) (g : globals)
    (case_num : Z) :
  reachable g → Forall (λ ev, event_ok ev.2 = true) (traffic e) →
  let text := server_uri ++ runCase_path ++ format_d case_num ++ agent_query in
  ∃ ret calls g',
    run_test_case server_uri e g case_num = Some (ret, calls, g')
    ∧ reachable g' ∧ handles_ok false false calls = true
    ∧ (ret = ESP_OK ↔
       Z.of_nat (length text) < 512 ∧ init_ok e = true ∧ start_ret e = ESP_OK)
    ∧ (512 ≤ Z.of_nat (length text) →
       ret = ESP_ERR_INVALID_ARG ∧ calls = [] ∧ g' = g)
    ∧ (Z.of_nat (length server_uri) < URI_SIZE →
       ∃ created rest, calls = client_init text created :: rest)
    ∧ (is_null (s_accum_buffer g) = false →
       s_accum_buffer g' = s_accum_buffer g ∧ next_block g' = next_block g).
Proof.
  intros Hreach Hev text.
  destruct (run_test_case_returns server_uri e g case_num Hreach Hev)
    as (ret & calls & g' & Hrun & Hr' & Hh & Hbuf).
  exists ret, calls, g'. split; [done|]. split; [done|]. split; [done|].
  assert (Z.of_nat (length server_uri) < URI_SIZE → Z.of_nat (length text) < 512)
    as Hfits.
  { unfold URI_SIZE. subst text. rewrite !length_app.
    pose proof (format_d_length case_num). cbn [length runCase_path agent_query]. lia. }
  unfold run_test_case, snprintf in Hrun. fold text in Hrun.
  assert (take (Z.to_nat (512 - 1)) text = text ∨ 512 ≤ Z.of_nat (length text)) as Htake.
  { destruct (decide (Z.of_nat (length text) < 512)); [left|right; lia].
    apply take_ge. lia. }
  destruct ((Z.of_nat (length text) <? 0) || (Z.of_nat (length text) >=? 512)) eqn:Elen.
  { injection Hrun as <- <- <-. unfold ESP_OK, ESP_ERR_INVALID_ARG.
    split; [split; [done|lia]|]. split; [done|]. split; [lia|done]. }
  destruct Htake as [Htake|?]; [|lia]. rewrite Htake in Hrun.
  destruct (init_ok e) eqn:Einit; cbn [negb] in Hrun.
  2:{ injection Hrun as <- <- <-. unfold ESP_OK, ESP_FAIL.
      split; [split; [done|by intros (_ & ? & _)]|]. split; [lia|].
      split; [by eauto|done]. }
  destruct (start_ret e =? ESP_OK) eqn:Estart; cbn [negb] in Hrun.
  2:{ injection Hrun as <- <- <-.
      split; [split; [lia|by intros (_ & _ & ?)]|]. split; [lia|].
      split; [by eauto|done]. }
  destruct (dispatch (traffic e) (preallocate (alloc e) g)) as [g2|]; [|done].
  injection Hrun as <- <- <-.
  split; [split; [lia|done]|]. split; [lia|]. split; [by eauto|done].
Qed.

Lemma run_cases_returns (server_uri : list byte) (env : Z → case_env) (cases : list Z) :
  (∀ i, Forall (λ ev, event_ok ev.2 = true) (traffic (env i))) →
  ∀ g, reachable g →
  ∃ log g',
    run_cases server_uri env cases g = Some (log, g')
    ∧ reachable g'
    ∧ (λ x, x.1.1) <$> log = cases
    ∧ Forall (λ x, handles_ok false false x.2 = true) log
    ∧ (is_null (s_accum_buffer g) = false →
       s_accum_buffer g' = s_accum_buffer g ∧ next_block g' = next_block g).
Proof.
  intros Hev. induction cases as [|i cases IH]; intros g Hreach.
  { exists [], g. done. }
  cbn [run_cases].
  destruct (run_test_case_returns server_uri (env i) g i Hreach (Hev i))
    as (ret & calls & g1 & Hrun & Hr1 & Hh & Hbuf).
  rewrite Hrun.
  destruct (IH g1 Hr1) as (log & g2 & Hrest & Hr2 & Hnums & Hall & Hbuf2).
  rewrite Hrest. eexists _, _. split; [done|]. split; [done|]. split.
  { cbn. by rewrite Hnums. }
  split.
  { constructor; [|done]. cbn [snd]. by apply handles_ok_app. }
  intros Hn. destruct (Hbuf Hn) as [Hb Hnb].
  destruct Hbuf2 as [Hb2 Hnb2]; [by rewrite Hb|]. by rewrite Hb2, Hnb2, Hb, Hnb.
Qed.

(** X16. [websocket_app_start] from a reachable state, with well-formed
    events in every case: it returns without undefined behaviour; all
    sixteen cases, 1 to 16, are run in this order, whatever the earlier
    ones returned; no case and not the report update leaves a client
    handle or a semaphore behind; and at the end the accumulator buffer
    is freed: the heap is empty, [s_accum_buffer] is null and the
    accumulator is inactive. *)
Theorem websocket_app_start_runs_all_cases (server_uri : list byte)
    (env : Z → case_env) (report_env : case_env) (g : globals) :
  reachable g →
  (∀ i, Forall (λ ev, event_ok ev.2 = true) (traffic (env i))) →
  ∃ log calls g',
    websocket_app_start server_uri env report_env g = Some (log, calls, g')
    ∧ (λ x, x.1.1) <$> log = [1; 2; 3; 4; 5; 6; 7; 8; 9; 10; 11; 12; 13; 14; 15; 16]
    ∧ Forall (λ x, handles_ok false false x.2 = true) log
    ∧ handles_ok false false calls = true
    ∧ heap g' = ∅ ∧ s_accum_buffer g' = NULL
    ∧ active (s_accumulator g') = false.
Proof.
  intros Hreach Hev. unfold websocket_app_start.
  destruct (run_cases_returns server_uri env
              (seqZ START_CASE (END_CASE - START_CASE + 1)) Hev g Hreach)
    as (log & g1 & Hrun & Hr1 & Hnums & Hall & _).
  rewrite Hrun. eexists _, _, _. split; [done|]. split; [exact Hnums|].
  split; [exact Hall|]. split.
  { unfold update_reports, snprintf. destruct (_ || _); [done|].
    destruct (negb (init_ok report_env)); [done|].
    by destruct (negb (start_ret report_env =? ESP_OK)). }
  destruct (cleanup_one_block g1 (reachable_one_block g1 Hr1)) as [Hheap Hbuf].
  split; [done|]. split; [done|].
  unfold ws_accumulator_cleanup. cbv zeta.
  by destruct (s_accum_buffer (ws_accumulator_reset g1)).
Qed.

(** *** Witnesses *)

Lemma get_string_is_bounded_witness :
  let line := [104; 105; 33; 0; 0; 0; 0; 0] in
  1 ≤ 8 ≤ INT_MAX ∧ Z.of_nat (length (replicate 8 88)) = 8
  ∧ get_string [104; 200; 105; 33; 13; 10] (replicate 8 88) 8
    = Returned [104; 105; 33; 0; 88; 88; 88; 88] [10] 0
  ∧ strlen [104; 105; 33; 0; 88; 88; 88; 88] = Some 3%nat
  ∧ get_string [104; 105; 33; 104; 105; 33; 104; 105; 33; 10] (replicate 8 88) 8
    = Returned [104; 105; 33; 104; 105; 33; 104; 0] [105; 33; 10] 0
  ∧ strlen [104; 105; 33; 104; 105; 33; 104; 0] = Some 7%nat.
Proof.
  cbv zeta.
  assert (1 ≤ 8 ≤ INT_MAX) as H1 by (by vm_compute).
  assert (Z.of_nat (length (replicate 8 88)) = 8) as H2 by reflexivity.
  split; [exact H1|]. split; [exact H2|].
  pose proof (get_string_is_bounded [104; 200; 105; 33; 13; 10] (replicate 8 88) 8 H1 H2)
    as Ha.
  pose proof (get_string_is_bounded [104; 105; 33; 104; 105; 33; 104; 105; 33; 10]
                (replicate 8 88) 8 H1 H2) as Hb.
  assert (get_string [104; 200; 105; 33; 13; 10] (replicate 8 88) 8
          = Returned [104; 105; 33; 0; 88; 88; 88; 88] [10] 0) as Ea by reflexivity.
  assert (get_string [104; 105; 33; 104; 105; 33; 104; 105; 33; 10] (replicate 8 88) 8
          = Returned [104; 105; 33; 104; 105; 33; 104; 0] [105; 33; 10] 0) as Eb
    by reflexivity.
  rewrite Ea in Ha. rewrite Eb in Hb. cbv zeta in Ha, Hb.
  destruct Ha as (_ & Ha & _). destruct Hb as (_ & Hb & _).
  split; [exact Ea|]. split; [exact Ha|]. split; [exact Eb|exact Hb].
Defined.

Lemma get_string_reads_one_line_witness :
  1 ≤ 8 ≤ INT_MAX ∧ Z.of_nat (length (replicate 8 88)) = 8
  ∧ ∃ line',
      get_string [104; -1; 200; 105; 10; 119] (replicate 8 88) 8
      = Returned line' [119] 1
      ∧ strlen line' = Some 2%nat ∧ take 2 line' = [104; 105].
Proof.
  assert (1 ≤ 8 ≤ INT_MAX) as H1 by (by vm_compute).
  assert (Z.of_nat (length (replicate 8 88)) = 8) as H2 by reflexivity.
  split; [exact H1|]. split; [exact H2|].
  destruct (get_string_reads_one_line [104; -1; 200; 105] [119] (replicate 8 88) 10 8
              H1 H2) as (line' & Hrun & _ & Hlen & Htake).
  - repeat constructor.
  - reflexivity.
  - by vm_compute.
  - exists line'. split; [exact Hrun|]. split; [exact Hlen|exact Htake].
Defined.

Lemma read_server_uri_first_line_witness :
  ∃ uri sleeps,
    read_server_uri [-1; 13; 10; 119; 115; 13; 10] = Returned uri [10] sleeps
    ∧ strlen uri = Some 2%nat ∧ take 2 uri = [119; 115].
Proof.
  destruct (read_server_uri_first_line [([-1], 13); ([], 10)] [119; 115] [10] 13)
    as (uri & sleeps & Hrun & Hlen & Htake).
  - repeat constructor.
  - repeat constructor.
  - reflexivity.
  - discriminate.
  - by vm_compute.
  - exists uri, sleeps. split; [exact Hrun|]. split; [exact Hlen|exact Htake].
Defined.

Lemma run_test_case_outcome_witness :
  let server := [x77; x73; x3a; x2f; x2f; x68] in
  let e := mk_case_env fair_weather true 0
             [(fair_weather, WEBSOCKET_EVENT_CONNECTED, no_data);
              (fair_weather, WEBSOCKET_EVENT_DATA, chunk [x48; x69] 1 2 0);
              (fair_weather, WEBSOCKET_EVENT_DISCONNECTED, no_data)] false in
  reachable initial_globals
  ∧ Forall (λ ev, event_ok ev.2 = true) (traffic e)
  ∧ ∃ calls g',
      run_test_case server e initial_globals 12 = Some (ESP_OK, calls, g')
      ∧ handles_ok false false calls = true
      ∧ ∃ created rest,
          calls = client_init (server ++ runCase_path ++ [x31; x32] ++ agent_query) created
                  :: rest.
Proof.
  cbv zeta.
  assert (Forall (λ ev : oracle * esp_websocket_event_id_t * esp_websocket_event_data_t,
                    event_ok ev.2 = true)
            (traffic
               (mk_case_env fair_weather true 0
                  [(fair_weather, WEBSOCKET_EVENT_CONNECTED, no_data);
                   (fair_weather, WEBSOCKET_EVENT_DATA, chunk [x48; x69] 1 2 0);
                   (fair_weather, WEBSOCKET_EVENT_DISCONNECTED, no_data)] false))) as Hev.
  { repeat constructor. }
  split; [exact reach_initial|]. split; [exact Hev|].
  destruct (run_test_case_outcome [x77; x73; x3a; x2f; x2f; x68] _ initial_globals 12
              reach_initial Hev)
    as (ret & calls & g' & Hrun & _ & Hh & Hret & _ & Huri & _).
  cbv zeta in Hret, Huri.
  assert (ret = ESP_OK) as ->.
  { apply Hret. split; [by vm_compute|]. split; reflexivity. }
  destruct Huri as (created & rest & ->); [by vm_compute|].
  exists (client_init
            ([x77; x73; x3a; x2f; x2f; x68] ++ runCase_path ++ format_d 12 ++ agent_query)
            created :: rest), g'.
  split; [exact Hrun|]. split; [exact Hh|]. by exists created, rest.
Defined.

Lemma websocket_app_start_runs_all_cases_witness :
  let server := [x77; x73; x3a; x2f; x2f; x68] in
  let e := mk_case_env fair_weather true 0
             [(fair_weather, WEBSOCKET_EVENT_CONNECTED, no_data);
              (fair_weather, WEBSOCKET_EVENT_DATA, chunk [x48; x69] 1 2 0)] true in
  ∃ log calls g',
    websocket_app_start server (λ i, if i =? 5 then connection_refused else e) e
      (preallocate fair_weather initial_globals)
    = Some (log, calls, g')
    ∧ length log = 16%nat ∧ heap g' = ∅ ∧ s_accum_buffer g' = NULL.
Proof.
  cbv zeta.
  edestruct (websocket_app_start_runs_all_cases [x77; x73; x3a; x2f; x2f; x68])
    as (log & calls & g' & Hrun & Hnums & _ & _ & Hheap & Hbuf & _).
  - apply (reach_preallocate fair_weather), reach_initial.
  - intros i. instantiate (1 := λ i, if i =? 5 then connection_refused else _).
    cbv beta. destruct (i =? 5); [by constructor|].
    instantiate (1 := mk_case_env fair_weather true 0
             [(fair_weather, WEBSOCKET_EVENT_CONNECTED, no_data);
              (fair_weather, WEBSOCKET_EVENT_DATA, chunk [x48; x69] 1 2 0)] true).
    repeat constructor.
  - exists log, calls, g'. split; [exact Hrun|].
    split; [|split; [exact Hheap|exact Hbuf]].
    apply (f_equal length) in Hnums. rewrite length_fmap in Hnums. exact Hnums.
Defined.

End TesteeMainFacts.

(** ** The target example *)
Module ExampleFacts.
Import Testee TesteeFacts Stdio StdioFacts Example.

Lemma get_string_loop_spec (size : Z) (input : list Z) :
  0 ≤ size ≤ INT_MAX →
  ∀ (written junk : list Z) (sleeps : nat),
    Z.of_nat (length (written ++ junk)) = size →
    let s := List.filter kept (before newline input) in
    match get_string_loop input (written ++ junk) size
            (Z.of_nat (length written)) sleeps with
    | Returned line' rest sleeps' =>
      length line' = length (written ++ junk)
      ∧ (Z.of_nat (length written + length s) < size →
         (∃ junk', line' = (written ++ s) ++ 0 :: junk')
         ∧ sleeps' = (sleeps + length (before newline input))%nat)
      ∧ (size ≤ Z.of_nat (length written + length s) →
         line' = written ++ take (length junk) s)
    | Blocked _ _ =>
      Forall (λ c, newline c = false) input
      ∧ Z.of_nat (length written + length (List.filter kept input)) < size
    | Undefined => False
    end.
Proof.
  intros Hsize. induction input as [|c input IH]; intros written junk sleeps Hlen s;
    assert (Z.of_nat (length written) ≤ size) as Hw
      by (rewrite length_app in Hlen; lia).
  - cbn [get_string_loop]. rewrite !to_size_t_int by lia.
    destruct (Z.of_nat (length written) <? size) eqn:Ecmp.
    + split; [done|]. cbn. lia.
    + assert (junk = []) as ->.
      { destruct junk; [done|]. rewrite length_app in Hlen. cbn in Hlen. lia. }
      split; [done|]. split; [cbn; lia|]. intros _. done.
  - cbn [get_string_loop]. rewrite !to_size_t_int by lia.
    destruct (Z.of_nat (length written) <? size) eqn:Ecmp.
    2:{ assert (junk = []) as ->.
        { destruct junk; [done|]. rewrite length_app in Hlen. cbn in Hlen. lia. }
        split; [done|]. split; [lia|]. intros _. done. }
    destruct junk as [|x junk]; [rewrite length_app in Hlen; cbn in Hlen; lia|].
    destruct (c =? 10) eqn:Enl.
    { rewrite store_end. subst s. cbn [before]. unfold newline. rewrite Enl.
      cbn [List.filter length]. rewrite !length_app. cbn [length].
      split; [done|]. split; [|intros ?; lia].
      intros _. split; [by exists junk; rewrite app_nil_r|lia]. }
    assert (before newline (c :: input) = c :: before newline input) as Hbefore.
    { cbn [before]. unfold newline. by rewrite Enl. }
    change ((c >? 0) && (c <? 127)) with (kept c).
    destruct (kept c) eqn:Ekept.
    + rewrite store_end.
      destruct (Z.of_nat (length written) =? INT_MAX) eqn:Emax; [lia|].
      replace (written ++ c :: junk) with ((written ++ [c]) ++ junk)
        by (by rewrite <- app_assoc).
      replace (Z.of_nat (length written) + 1) with (Z.of_nat (length (written ++ [c])))
        by (rewrite length_app; cbn; lia).
      specialize (IH (written ++ [c]) junk (S sleeps)). cbv zeta in IH.
      assert (s = c :: List.filter kept (before newline input)) as Hs.
      { subst s. rewrite Hbefore. cbn [List.filter]. by rewrite Ekept. }
      assert (Z.of_nat (length ((written ++ [c]) ++ junk)) = size) as Hlen'.
      { rewrite !length_app in *. cbn in *. lia. }
      specialize (IH Hlen').
      destruct (get_string_loop input ((written ++ [c]) ++ junk) size
                  (Z.of_nat (length (written ++ [c]))) (S sleeps))
        as [line' rest n|line' n|]; [| |done].
      * destruct IH as (Hl & Hfits & Hfull).
        split; [rewrite Hl, !length_app; cbn; lia|]. rewrite Hs, Hbefore. split.
        -- intros Hlt. destruct Hfits as [[junk' Hline] Hn].
           { rewrite length_app. cbn [length] in *. lia. }
           split; [|cbn [length]; lia].
           exists junk'. rewrite Hline. by rewrite <- !app_assoc.
        -- intros Hge. rewrite Hfull.
           ++ cbn [length take]. by rewrite <- app_assoc.
           ++ rewrite length_app. cbn [length] in *. lia.
      * destruct IH as [Hall Hcount]. split.
        -- constructor; [unfold newline; exact Enl|exact Hall].
        -- cbn [List.filter]. rewrite Ekept.
           rewrite length_app in Hcount. cbn [length] in *. lia.
    + specialize (IH written (x :: junk) (S sleeps) Hlen). cbv zeta in IH.
      assert (s = List.filter kept (before newline input)) as Hs.
      { subst s. rewrite Hbefore. cbn [List.filter]. by rewrite Ekept. }
      destruct (get_string_loop input (written ++ x :: junk) size
                  (Z.of_nat (length written)) (S sleeps))
        as [line' rest n|line' n|]; [| |done].
      * destruct IH as (Hl & Hfits & Hfull). split; [done|].
        rewrite Hs, Hbefore. split.
        -- intros Hlt. destruct (Hfits Hlt) as [Hline Hn].
           split; [done|]. cbn [length]. lia.
        -- done.
      * destruct IH as [Hall Hcount]. split.
        -- constructor; [unfold newline; exact Enl|exact Hall].
        -- cbn [List.filter]. by rewrite Ekept.
Qed.

(** X17. The example's [get_string] stays inside [line], but terminates
    the string only when it reads a newline. A call that returns with
    fewer than [size] characters in 1..126 before the first newline
    leaves them in [line] as a C string (a carriage return is one of
    them and is stored), and has slept once for every character read
    before the newline. With [size] or more of them the call returns
    when [line] is full: [line] holds the first [size] of them and no
    terminator. A call that is still reading when the input ends has
    met no newline and fewer than [size] such characters. *)
Theorem get_string_terminates_on_newline_only (input line : list Z) (size : Z) :
  0 ≤ size ≤ INT_MAX → Z.of_nat (length line) = size →
  match Example.get_string input line size with
  | Returned line' rest sleeps =>
    let s := List.filter kept (before newline input) in
    length line' = length line
    ∧ (Z.of_nat (length s) < size →
       strlen line' = Some (length s) ∧ take (length s) line' = s
       ∧ sleeps = length (before newline input))
    ∧ (size ≤ Z.of_nat (length s) →
       line' = take (Z.to_nat size) s ∧ strlen line' = None)
  | Blocked _ _ =>
    Forall (λ c, newline c = false) input
    ∧ Z.of_nat (length (List.filter kept input)) < size
  | Undefined => False
  end.
Proof.
  intros Hsize Hlen.
  pose proof (get_string_loop_spec size input Hsize [] line 0%nat Hlen) as H.
  cbv zeta in H. cbn [app length] in H. change (Z.of_nat 0) with 0 in H.
  unfold Example.get_string.
  destruct (get_string_loop input line size 0 0) as [line' rest n|line' n|];
    [|done|done].
  destruct H as (Hl & Hfits & Hfull). cbv zeta. split; [done|]. split.
  - intros Hlt. destruct (Hfits ltac:(lia)) as [[junk' ->] ->].
    destruct (terminated_string _ junk' (filter_kept (before newline input))) as [H1 H2].
    done.
  - intros Hge. rewrite (Hfull ltac:(lia)).
    replace (length line) with (Z.to_nat size) by lia. split; [done|].
    apply strlen_unterminated, kept_nonzero, Forall_take, filter_kept.
Qed.


(** *** The crash scenario *)

Lemma flood_frees (env : Z → bool * Z) (cases : list Z) (t : list action) :
  heap_ok false t = true → heap_ok false (flood env cases ++ t) = true.
Proof.
  intros Ht. induction cases as [|i cases IH]; [done|].
  cbn [flood]. destruct (env i).1; [|done].
  by destruct ((env i).2 <? 0).
Qed.

Lemma keep_sending_frees (tick : Z) (env : Z → Z) (cases : list Z) (t : list action) :
  heap_ok false t = true → heap_ok false (keep_sending tick env cases ++ t) = true.
Proof.
  intros Ht. induction cases as [|i cases IH]; [done|].
  cbn [keep_sending app heap_ok]. by destruct (env i <? 0).
Qed.

Lemma sends_cons (a : action) (t : list action) :
  sends (a :: t)
  = match a with
    | send_text data len timeout ret => [(data, len, timeout, ret)]
    | _ => []
    end ++ sends t.
Proof. by destruct a. Qed.

Lemma flood_sends (env : Z → bool * Z) (cases : list Z) :
  (length (sends (flood env cases)) ≤ length cases)%nat
  ∧ Forall (λ x, x.1.1.2 = 1023 ∧ x.1.2 = 1) (sends (flood env cases))
  ∧ ∀ a x b, sends (flood env cases) = a ++ x :: b → x.2 < 0 → b = [].
Proof.
  induction cases as [|i cases (IH1 & IH2 & IH3)].
  { split; [done|]. split; [done|]. intros [|? ?] ? ?; done. }
  cbn [flood]. destruct (env i).1.
  2:{ rewrite sends_cons. cbn [app length]. split; [lia|]. split; [done|]. exact IH3. }
  cbn [app]. rewrite !sends_cons. cbn [app].
  destruct ((env i).2 <? 0) eqn:Eret.
  - rewrite sends_cons. cbn [app sends omap list_omap length].
    split; [lia|]. split; [by repeat constructor|].
    intros [|? [|? ?]] x b; [|done|done]. by intros [= <- <-].
  - rewrite sends_cons. cbn [app length]. split; [lia|]. split; [by constructor|].
    intros [|y a] x b.
    + intros [= <- <-]. cbn. lia.
    + intros [= <- Hrest]. by apply (IH3 a x b).
Qed.

Lemma keep_sending_sends (tick : Z) (env : Z → Z) (cases : list Z) :
  (length (sends (keep_sending tick env cases)) ≤ length cases)%nat
  ∧ Forall (λ x, x.1.1.2 = Z.of_nat (length x.1.1.1) ∧ x.1.2 = 10)
      (sends (keep_sending tick env cases))
  ∧ ∀ a x b, sends (keep_sending tick env cases) = a ++ x :: b → x.2 < 0 → b = [].
Proof.
  induction cases as [|i cases (IH1 & IH2 & IH3)].
  { split; [done|]. split; [done|]. intros [|? ?] ? ?; done. }
  cbn [keep_sending]. rewrite sends_cons. cbn [app].
  destruct (env i <? 0) eqn:Eret.
  - cbn [sends omap list_omap length]. split; [lia|]. split; [by repeat constructor|].
    intros [|? [|? ?]] x b; [|done|done]. by intros [= <- <-].
  - rewrite sends_cons. cbn [app length]. split; [lia|]. split; [by constructor|].
    intros [|y a] x b.
    + intros [= <- <-]. cbn. lia.
    + intros [= <- Hrest]. by apply (IH3 a x b).
Qed.

Lemma sends_app (t u : list action) : sends (t ++ u) = sends t ++ sends u.
Proof. induction t as [|a t IH]; [done|]. cbn [app]. by rewrite !sends_cons, IH, app_assoc. Qed.

(** X18. [simulate_customer_crash_scenario], whatever [malloc] and the sends
    return. Every block it allocates is freed before the next is
    allocated, also on the path that leaves the flood loop, and none is
    freed twice. The flood sends at most 100 messages, each of 1023
    bytes with a timeout of 1; step 2 sends at most 50, each with the
    length of its text and a timeout of 10, and at least one, whether
    or not the flood failed. In either step nothing is sent after a
    send that returned a negative value. *)
Theorem crash_scenario_stops_at_first_failure (tick : Z) (flood_env : Z → bool * Z)
    (keep_env : Z → Z) :
  let t := simulate_customer_crash_scenario tick flood_env keep_env in
  let s1 := sends (flood flood_env (seqZ 0 100)) in
  let s2 := sends (keep_sending tick keep_env (seqZ 0 50)) in
  heap_ok false t = true
  ∧ sends t = s1 ++ s2
  ∧ (length s1 ≤ 100)%nat ∧ (1 ≤ length s2 ≤ 50)%nat
  ∧ Forall (λ x, x.1.1.2 = 1023 ∧ x.1.2 = 1) s1
  ∧ Forall (λ x, x.1.1.2 = Z.of_nat (length x.1.1.1) ∧ x.1.2 = 10) s2
  ∧ (∀ a x b, s1 = a ++ x :: b → x.2 < 0 → b = [])
  ∧ (∀ a x b, s2 = a ++ x :: b → x.2 < 0 → b = []).
Proof.
  cbv zeta. unfold simulate_customer_crash_scenario.
  destruct (flood_sends flood_env (seqZ 0 100)) as (F1 & F2 & F3).
  destruct (keep_sending_sends tick keep_env (seqZ 0 50)) as (K1 & K2 & K3).
  rewrite length_seqZ in F1, K1.
  split; [by apply flood_frees, keep_sending_frees|].
  split; [rewrite !sends_app; cbn [sends omap list_omap]; by rewrite app_nil_r|].
  split; [lia|]. split; [|done].
  split; [|lia]. change (seqZ 0 50) with (0 :: seqZ 1 49).
  cbn [keep_sending]. rewrite sends_cons. cbn [app length]. lia.
Qed.

Lemma flood_message_checked (last_byte : byte) :
  forallb (λ i, bool_decide
                  (take 1023 (flood_message last_byte i)
                   = FLOOD ++ [x30; x30; digit (i / 10); digit (i mod 10)]
                     ++ UNDERSCORE ++ [x00] ++ replicate 1011 x58))
    (seqZ 0 100) = true.
Proof. by vm_compute. Qed.

(** X19. The flood message number [i], for the hundred values of [i]: the
    1023 bytes sent are [FLOOD_], the number as four digits, [_], then
    the terminator that [snprintf] wrote over the filling, and 1011
    times the letter X. What the fresh block held does not show. *)
Theorem flood_message_text (last_byte : byte) (i : Z) :
  0 ≤ i < 100 →
  take 1023 (flood_message last_byte i)
  = FLOOD ++ [x30; x30; digit (i / 10); digit (i mod 10)]
    ++ UNDERSCORE ++ [x00] ++ replicate 1011 x58.
Proof.
  intros Hi. pose proof (flood_message_checked last_byte) as H.
  rewrite forallb_forall in H.
  assert (In i (seqZ 0 100)) as Hin by (apply list_elem_of_In, elem_of_seqZ; lia).
  specialize (H i Hin). cbv beta in H. by apply bool_decide_eq_true in H.
Qed.

(** *** Witnesses *)

Lemma get_string_terminates_on_newline_only_witness :
  0 ≤ 3 ≤ INT_MAX ∧ Z.of_nat (length [0; 0; 0]) = 3
  ∧ Example.get_string [97; 98; 99; 100; 10] [0; 0; 0] 3
    = Returned [97; 98; 99] [100; 10] 3
  ∧ strlen [97; 98; 99] = None
  ∧ Example.get_string [97; 13; 10; 98] [88; 88; 88] 3 = Returned [97; 13; 0] [98] 2
  ∧ strlen [97; 13; 0] = Some 2%nat.
Proof.
  assert (0 ≤ 3 ≤ INT_MAX) as H1 by (by vm_compute).
  assert (Z.of_nat (length [0; 0; 0]) = 3) as H2 by reflexivity.
  assert (Z.of_nat (length [88; 88; 88]) = 3) as H2' by reflexivity.
  split; [exact H1|]. split; [exact H2|].
  pose proof (get_string_terminates_on_newline_only [97; 98; 99; 100; 10] [0; 0; 0] 3
                H1 H2) as Ha.
  pose proof (get_string_terminates_on_newline_only [97; 13; 10; 98] [88; 88; 88] 3
                H1 H2') as Hb.
  assert (Example.get_string [97; 98; 99; 100; 10] [0; 0; 0] 3
          = Returned [97; 98; 99] [100; 10] 3) as Ea by reflexivity.
  assert (Example.get_string [97; 13; 10; 98] [88; 88; 88] 3
          = Returned [97; 13; 0] [98] 2) as Eb by reflexivity.
  rewrite Ea in Ha. rewrite Eb in Hb. cbv zeta in Ha, Hb.
  destruct Ha as (_ & _ & Ha). destruct Hb as (_ & Hb & _).
  split; [exact Ea|]. split; [apply Ha; by vm_compute|].
  split; [exact Eb|]. apply Hb. by vm_compute.
Defined.

Lemma flood_message_text_witness :
  0 ≤ 42 < 100
  ∧ take 1023 (flood_message xff 42)
    = [x46; x4c; x4f; x4f; x44; x5f; x30; x30; x34; x32; x5f; x00] ++ replicate 1011 x58.
Proof.
  assert (0 ≤ 42 < 100) as H by lia. split; [exact H|].
  exact (flood_message_text xff 42 H).
Defined.

End ExampleFacts.
